(** * IntelliBrowse agent: the Reason-Act-Observe loop, its action parser and
      its session store, embedded from [agentCommunicationProtocol.js] and
      [agentService.js].

    Conventions of the embedding.
    - A JavaScript string is a Rocq [string]; the regular-expression code works
      on its characters ([list ascii]).  Characters are the code units below
      256, so [\s] is the Latin-1 part of the ECMAScript white-space class and
      [.] excludes line feed and carriage return.
    - An [async] function settles by returning or by throwing: [Outcome].
      Thrown values are [Error] objects, identified with their [message];
      a tool may also reject with [null] or [undefined].
    - Calls that leave the agent (model provider, tools) and the values a
      generator yields are recorded, in program order, in a list of [Effect]s. *)

From Stdlib Require Import Ascii String List Arith Bool Lia.
From stdpp Require Import base option list gmap strings.
Import ListNotations.

Local Open Scope string_scope.
Local Open Scope list_scope.

(** ** Characters and strings *)

Abbreviation chars := (list ascii).

Definition dquote : ascii := ascii_of_nat 34.
Definition backslash : ascii := ascii_of_nat 92.
Definition newline : ascii := ascii_of_nat 10.

Definition str (s : string) : chars := list_ascii_of_string s.
Definition text (l : chars) : string := string_of_list_ascii l.

(** The one-character string of a double quote. *)
Definition q : string := String dquote EmptyString.
(** The one-character string of a line feed. *)
Definition nl : string := String newline EmptyString.

Definition code (a : ascii) : nat := nat_of_ascii a.

Definition inRange (lo hi : nat) (a : ascii) : bool :=
  ((lo <=? code a) && (code a <=? hi))%nat.

(** [\w]: [A-Za-z0-9_]. *)
Definition isWord (a : ascii) : bool :=
  inRange 48 57 a || inRange 65 90 a || inRange 97 122 a || (code a =? 95)%nat.

(** [\s] on code units below 256: TAB, LF, VT, FF, CR, SP, NBSP. *)
Definition isSpace (a : ascii) : bool :=
  inRange 9 13 a || (code a =? 32)%nat || (code a =? 160)%nat.

(** [.] without the [s] flag: anything but a line terminator. *)
Definition isDot (a : ascii) : bool :=
  negb ((code a =? 10)%nat || (code a =? 13)%nat).

Definition isChar (x : ascii) (a : ascii) : bool := Ascii.eqb x a.
Definition isNot (x : ascii) (a : ascii) : bool := negb (Ascii.eqb x a).
Definition isNeither (x y : ascii) (a : ascii) : bool :=
  negb (Ascii.eqb x a) && negb (Ascii.eqb y a).

(** ** A backtracking matcher for the regular expressions of [parseToolCall]

    The constructors are the ones the two literals of the source use.  The
    matcher follows the ECMAScript semantics: alternatives left to right,
    greedy repetition that gives characters back when the rest fails, an
    iteration of a star that consumes nothing is rejected. *)

Module Regex.

Inductive regex : Type :=
| Char (p : ascii -> bool)
| Empty
| Cat (r1 r2 : regex)
| Alt (r1 r2 : regex)
| Star (r : regex)
| Group (i : nat) (r : regex).

Abbreviation captures := (gmap nat chars).

(** What a match leaves: the characters after it and the groups. *)
Definition found : Type := chars * captures.

Definition cont := chars -> captures -> option found.

Fixpoint starLoop (body : chars -> captures -> cont -> option found)
    (k : cont) (n : nat) (s : chars) (c : captures) : option found :=
  match n with
  | 0 => k s c
  | S n' =>
      match body s c (fun s' c' =>
               if (length s' <? length s)%nat then starLoop body k n' s' c'
               else None) with
      | Some x => Some x
      | None => k s c
      end
  end.

Fixpoint exec (r : regex) (s : chars) (c : captures) (k : cont)
    {struct r} : option found :=
  match r with
  | Char p =>
      match s with
      | a :: s' => if p a then k s' c else None
      | [] => None
      end
  | Empty => k s c
  | Cat r1 r2 => exec r1 s c (fun s' c' => exec r2 s' c' k)
  | Alt r1 r2 =>
      match exec r1 s c k with
      | Some x => Some x
      | None => exec r2 s c k
      end
  | Star r' => starLoop (exec r') k (length s) s c
  | Group i r' =>
      exec r' s c (fun s' c' =>
        k s' (<[i := take (length s - length s') s]> c'))
  end.

Definition plus (r : regex) : regex := Cat r (Star r).
Definition opt (r : regex) : regex := Alt r Empty.

Fixpoint lit (l : chars) : regex :=
  match l with
  | [] => Empty
  | a :: l' => Cat (Char (isChar a)) (lit l')
  end.

Fixpoint seq (rs : list regex) : regex :=
  match rs with
  | [] => Empty
  | r :: rs' => Cat r (seq rs')
  end.

(** Try the expression at [s]; on success the whole match is group 0. *)
Definition matchAt (r : regex) (s : chars) : option found :=
  exec (Group 0 r) s ∅ (fun s' c' => Some (s', c')).

(** Leftmost match: the first position, from the left, where [r] matches. *)
Fixpoint search (r : regex) (s : chars) : option found :=
  match matchAt r s with
  | Some x => Some x
  | None =>
      match s with
      | [] => None
      | _ :: s' => search r s'
      end
  end.

(** [String.prototype.match] with a non-global expression. *)
Definition jsMatch (r : regex) (s : chars) : option captures :=
  snd <$> search r s.

(** [String.prototype.matchAll] with a global expression: successive leftmost
    matches, each search resuming where the previous match ended (one
    character further after an empty match). *)
Fixpoint matchAllFrom (fuel : nat) (r : regex) (s : chars) : list captures :=
  match fuel with
  | 0 => []
  | S fuel' =>
      match search r s with
      | None => []
      | Some (rest, c) =>
          match c !! 0 with
          | Some [] =>
              match rest with
              | [] => [c]
              | _ :: rest' => c :: matchAllFrom fuel' r rest'
              end
          | _ => c :: matchAllFrom fuel' r rest
          end
      end
  end.

Definition matchAll (r : regex) (s : chars) : list captures :=
  matchAllFrom (S (length s)) r s.

Definition group (i : nat) (c : captures) : chars := default [] (c !! i).

End Regex.

Import Regex.

(** ** The action parser *)

Record ToolCall : Type := mkToolCall {
  toolName : string;
  params : gmap string string
}.

(** The literal of [response.match], written with spaces between its parts:
    [Action: \s* ( \w+ ( \. \w+ )? ) \( ( [^)]* ) \)]. *)
Definition actionRe : regex :=
  seq [ lit (str "Action:");
        Star (Char isSpace);
        Group 1 (seq [ plus (Char isWord);
                       opt (Group 2 (seq [Char (isChar "."%char); plus (Char isWord)])) ]);
        Char (isChar "("%char);
        Group 3 (Star (Char (isNot ")"%char)));
        Char (isChar ")"%char) ].

(** The global literal of [paramsString.matchAll], with DQ for the double
    quote: [( \w+ ) = DQ ( (?: [^ DQ \\ ] | \\ . )* ) DQ]. *)
Definition paramRe : regex :=
  seq [ Group 1 (plus (Char isWord));
        Char (isChar "="%char);
        Char (isChar dquote);
        Group 2 (Star (Alt (Char (isNeither dquote backslash))
                           (Cat (Char (isChar backslash)) (Char isDot))));
        Char (isChar dquote) ].

(** [value.replace] with the global literal backslash-quote: every such
    pair, scanning from the left, becomes a quote. *)
Fixpoint unescapeQuotes (s : chars) : chars :=
  match s with
  | a :: ((b :: s'') as s') =>
      if Ascii.eqb a backslash && Ascii.eqb b dquote
      then dquote :: unescapeQuotes s''
      else a :: unescapeQuotes s'
  | _ => s
  end.

(** [params[key] = value] on an object literal.  Every key creates or
    overwrites an own property, except [__proto__]: that assignment reaches
    the inherited setter, which ignores a string. *)
Definition setProperty (o : gmap string string) (key value : string)
    : gmap string string :=
  if String.eqb key "__proto__" then o else <[key := value]> o.

Definition parseToolCall (response : string) : option ToolCall :=
  match jsMatch actionRe (str response) with
  | None => None
  | Some actionMatch =>
      let toolName := text (group 1 actionMatch) in
      let paramsString := group 3 actionMatch in
      let params :=
        foldl (fun params m =>
                 setProperty params (text (group 1 m))
                             (text (unescapeQuotes (group 2 m))))
              ∅ (matchAll paramRe paramsString) in
      Some (mkToolCall toolName params)
  end.

(** ** Messages, tools and events *)

Inductive Role : Type := system | user | assistant.

Record Message : Type := mkMessage {
  role : Role;
  content : string
}.

Definition isAssistant (msg : Message) : bool :=
  match role msg with assistant => true | _ => false end.

(** How an awaited call settles. *)
Inductive Outcome (A : Type) : Type :=
| Ok (value : A)
| Throw (message : string).
Arguments Ok {A} value.
Arguments Throw {A} message.

(** The two values without properties: reading a member of one throws. *)
Inductive Nullish : Type :=
| JSNull
| JSUndefined.

(** A tool is an opaque asynchronous callable, here a function of its
    parameters.  [Returned] carries the text [executeToolCall] makes of the
    result ([JSON.stringify] of an object, [String] of anything else);
    [Raised] carries the message of the error the call or that conversion
    throws; [Rejected] is a call that throws or rejects with [null] or
    [undefined], on which the [error.message] of the [catch] clause throws
    in its turn. *)
Inductive ToolOutcome : Type :=
| Returned (result : string)
| Raised (message : string)
| Rejected (reason : Nullish).

Definition callable : Type := gmap string string -> ToolOutcome.

(** A registered tool: the callable and the documentation text that
    [getSystemPrompt] extracts from its source. *)
Record Tool : Type := mkTool {
  docs : string;
  call : callable
}.

(** The registry is an object literal: its own properties, in the order
    [Object.keys] and [Object.entries] enumerate them. *)
Definition ToolRegistry : Type := list (string * Tool).

Inductive StreamEvent : Type :=
| EvSession (sessionId : string)
| EvAssistant (content : string)
| EvToolCall (tool : string) (params : gmap string string)
| EvObservation (content : string)
| EvComplete (content : string)
| EvError (content : string).

(** What a run does to the outside, in program order.  [TurnCompleted] is a
    ghost mark: the Conversation State when an iteration of the loop ends. *)
Inductive Effect : Type :=
| ModelCalled (messages : list Message)
| ToolInvoked (name : string) (params : gmap string string)
| Yielded (event : StreamEvent)
| TurnCompleted (state : list Message).

(** A settled call of a method of the agent: its effects, the value of
    [this.messageHistory] when it settles, and how it settles. *)
Record Run (A : Type) : Type := mkRun {
  effects : list Effect;
  history : list Message;
  settled : Outcome A
}.
Arguments mkRun {A} effects history settled.
Arguments effects {A} r.
Arguments history {A} r.
Arguments settled {A} r.

Definition before {A : Type} (es : list Effect) (r : Run A) : Run A :=
  mkRun (es ++ effects r) (history r) (settled r).

(** ** The collaborators *)

(** The model provider.  A request is determined by the messages, the other
    fields being constants.  [createChatCompletion] gives
    [response.choices[0].message.content]; [createChatCompletionStream] gives
    the [delta.content] of each chunk ([None] when the chunk has none) and
    the error that ends the stream, if it fails. *)
Class FireworksClient : Type := {
  createChatCompletion : list Message -> Outcome string;
  createChatCompletionStream :
    list Message -> list (option string) * option string
}.

(** What the code takes from the JavaScript engine: [JSON.stringify] on the
    parameter object, the message of the [TypeError] raised by calling the
    inherited member [name] of [Object.prototype] as a plain function, and
    the message of the [TypeError] raised by reading the member [message] of
    [null] or [undefined]. *)
Class Runtime : Type := {
  JSON_stringify : gmap string string -> string;
  typeErrorMessage : string -> string;
  cannotReadMessage : Nullish -> string
}.

Fixpoint assoc {V : Type} (key : string) (l : list (string * V)) : option V :=
  match l with
  | [] => None
  | (k, v) :: l' => if String.eqb k key then Some v else assoc key l'
  end.

(** [Array.prototype.join]. *)
Fixpoint join (sep : string) (l : list string) : string :=
  match l with
  | [] => ""
  | [x] => x
  | x :: l' => x +:+ sep +:+ join sep l'
  end.

(** JavaScript truthiness of a variable holding [null] or a string. *)
Definition truthy (v : option string) : bool :=
  match v with
  | None => false
  | Some s => negb (String.eqb s "")
  end.

Definition maxTurnsDefault : nat := 15.

Definition noteMaxTurns : string :=
  nl +:+ nl +:+ "[Note: Maximum conversation turns reached]".

Definition fallbackMaxTurns : string :=
  "Maximum conversation turns reached without a final answer.".

Definition streamMaxTurns : string := "Maximum conversation turns reached.".

Definition observationMessage (observation : string) : Message :=
  mkMessage user ("Observation: " +:+ observation).

Module AgentCommunicationProtocol.

Section Protocol.

Context {client : FireworksClient} {runtime : Runtime}.

(** The members a plain object inherits from [Object.prototype], called as
    [tool(params)] in strict code ([this] is [undefined]). *)
Definition objectPrototype : list (string * callable) :=
  [ ("constructor", fun params => Returned (JSON_stringify params));
    ("toString", fun _ => Returned "[object Undefined]");
    ("toLocaleString", fun _ => Raised (typeErrorMessage "toLocaleString"));
    ("valueOf", fun _ => Raised (typeErrorMessage "valueOf"));
    ("hasOwnProperty", fun _ => Raised (typeErrorMessage "hasOwnProperty"));
    ("isPrototypeOf", fun _ => Raised (typeErrorMessage "isPrototypeOf"));
    ("propertyIsEnumerable",
       fun _ => Raised (typeErrorMessage "propertyIsEnumerable"));
    ("__defineGetter__", fun _ => Raised (typeErrorMessage "__defineGetter__"));
    ("__defineSetter__", fun _ => Raised (typeErrorMessage "__defineSetter__"));
    ("__lookupGetter__", fun _ => Raised (typeErrorMessage "__lookupGetter__"));
    ("__lookupSetter__", fun _ => Raised (typeErrorMessage "__lookupSetter__"));
    ("__proto__", fun _ => Raised (typeErrorMessage "__proto__")) ].

(** [this.toolRegistry[toolName]]: an own property, else an inherited one. *)
Definition getProperty (registry : ToolRegistry) (name : string)
    : option callable :=
  match assoc name registry with
  | Some tool => Some (call tool)
  | None => assoc name objectPrototype
  end.

Definition executeToolCall (registry : ToolRegistry) (toolCall : ToolCall)
    : list Effect * Outcome string :=
  let name := toolName toolCall in
  match getProperty registry name with
  | None =>
      ([], Ok ("Error: Tool " +:+ q +:+ name +:+ q +:+
               " not found. Available tools are: " +:+
               join ", " (map fst registry)))
  | Some tool =>
      ([ToolInvoked name (params toolCall)],
       match tool (params toolCall) with
       | Returned result => Ok result
       | Raised message =>
           Ok ("Error executing tool " +:+ name +:+ ": " +:+ message)
       | Rejected reason => Throw (cannotReadMessage reason)
       end)
  end.

Definition getSystemPrompt (registry : ToolRegistry) : string :=
  let toolDescriptions :=
    join (nl +:+ nl)
      (map (fun entry : string * Tool =>
              "Tool: " +:+ fst entry +:+ nl +:+
              "Description: " +:+ docs (snd entry)) registry) in
  "You are IntelliBrowse, an autonomous web agent. You perform web tasks by breaking them into steps.
Follow the ReAct pattern: Reason about what to do, take Actions, observe the results.

When responding, use the following format:
Thought: Think about what needs to be done and how to approach the task
Action: tool_name(param1=" +:+ q +:+ "value1" +:+ q +:+ ", param2=" +:+ q +:+
  "value2" +:+ q +:+ ")
Observation: [Result of the action will appear here]
... (repeat Thought/Action/Observation as needed)
Thought: I now know the final answer
Answer: [Final answer to the user's instruction]

Available Tools:
" +:+ toolDescriptions +:+ "

Always think through your approach before taking actions. Be thorough in your reasoning.
When you have completed the task, respond with a clear summary of what you found or accomplished.".

(** The [while] loop of [continueConversation].  The guard is the source's;
    [fuel] bounds the unfolding and is never exhausted when it is at least
    [maxTurns - turns] (lemma [conversationLoop_total]).  On a normal exit
    the run carries the final values of [turns] and [finalResponse]. *)
Fixpoint conversationLoop (registry : ToolRegistry) (fuel maxTurns turns : nat)
    (finalResponse : option string) (h : list Message)
    : option (Run (nat * option string)) :=
  if negb (truthy finalResponse) && (turns <? maxTurns)%nat then
    match fuel with
    | 0 => None
    | S fuel' =>
        let turns := S turns in
        match createChatCompletion h with
        | Throw e => Some (mkRun [ModelCalled h] h (Throw e))
        | Ok modelResponse =>
            let h1 := h ++ [mkMessage assistant modelResponse] in
            match parseToolCall modelResponse with
            | Some toolCall =>
                let (invoked, outcome) := executeToolCall registry toolCall in
                match outcome with
                | Throw e => Some (mkRun (ModelCalled h :: invoked) h1 (Throw e))
                | Ok observation =>
                    let h2 := h1 ++ [observationMessage observation] in
                    before (ModelCalled h :: invoked ++ [TurnCompleted h2])
                      <$> conversationLoop registry fuel' maxTurns turns
                            finalResponse h2
                end
            | None =>
                before [ModelCalled h; TurnCompleted h1]
                  <$> conversationLoop registry fuel' maxTurns turns
                        (Some modelResponse) h1
            end
        end
    end
  else Some (mkRun [] h (Ok (turns, finalResponse))).

(** [this.messageHistory.filter(msg => msg.role === 'assistant').pop()] *)
Definition lastAssistantMessage (h : list Message) : option Message :=
  last (List.filter isAssistant h).

Definition continueConversation (registry : ToolRegistry) (h : list Message)
    (maxTurns : nat) : option (Run string) :=
  match conversationLoop registry maxTurns maxTurns 0 None h with
  | None => None
  | Some r =>
      Some (mkRun (effects r) (history r)
        match settled r with
        | Throw e => Throw e
        | Ok (_, finalResponse) =>
            if truthy finalResponse then Ok (default "" finalResponse)
            else
              match lastAssistantMessage (history r) with
              | Some msg => Ok (content msg +:+ noteMaxTurns)
              | None => Ok fallbackMaxTurns
              end
        end)
  end.

(** The conversation both entry points start from. *)
Definition initialHistory (registry : ToolRegistry) (instruction : string)
    : list Message :=
  [ mkMessage system (getSystemPrompt registry);
    mkMessage user instruction ].

(** [processUserInstruction]; [h0] is the history the agent holds when it is
    called, [instruction] is [None] when the argument is [undefined] or
    [null]. *)
Definition processUserInstruction (registry : ToolRegistry)
    (h0 : list Message) (instruction : option string) : option (Run string) :=
  match instruction with
  | None | Some "" =>
      Some (mkRun [] h0 (Throw "Instruction must be a non-empty string"))
  | Some instruction =>
      continueConversation registry (initialHistory registry instruction)
        maxTurnsDefault
  end.

(** The chunks of one streamed completion that carry content. *)
Definition chunkContents (chunks : list (option string)) : list string :=
  omap (fun c => match c with
                 | Some s => if String.eqb s "" then None else Some s
                 | None => None
                 end) chunks.

Definition concatStrings (l : list string) : string :=
  fold_right String.append "" l.

(** The statement after the [while] loop of the generator. *)
Definition afterStreamLoop (maxTurns turns : nat) (h : list Message)
    : Run unit :=
  mkRun (if (maxTurns <=? turns)%nat
         then [Yielded (EvError streamMaxTurns)] else [])
        h (Ok tt).

(** The [while] loop of the generator [processInstructionStream], drained by
    its consumer. *)
Fixpoint streamLoop (registry : ToolRegistry) (fuel maxTurns turns : nat)
    (h : list Message) : option (Run unit) :=
  if (turns <? maxTurns)%nat then
    match fuel with
    | 0 => None
    | S fuel' =>
        let turns := S turns in
        let (chunks, failure) := createChatCompletionStream h in
        let contents := chunkContents chunks in
        let assistantResponse := concatStrings contents in
        let streamed :=
          ModelCalled h :: map (fun c => Yielded (EvAssistant c)) contents in
        match failure with
        | Some e => Some (mkRun streamed h (Throw e))
        | None =>
            let h1 := h ++ [mkMessage assistant assistantResponse] in
            match parseToolCall assistantResponse with
            | Some toolCall =>
                let announced :=
                  streamed ++ [Yielded (EvToolCall (toolName toolCall)
                                                   (params toolCall))] in
                let (invoked, outcome) := executeToolCall registry toolCall in
                match outcome with
                | Ok observation =>
                    let h2 := h1 ++ [observationMessage observation] in
                    before (announced ++ invoked ++
                            [Yielded (EvObservation observation);
                             TurnCompleted h2])
                      <$> streamLoop registry fuel' maxTurns turns h2
                | Throw message =>
                    let errorMsg :=
                      "Error executing tool " +:+ toolName toolCall +:+
                      ": " +:+ message in
                    let h2 := h1 ++ [observationMessage errorMsg] in
                    before (announced ++ invoked ++
                            [Yielded (EvError errorMsg); TurnCompleted h2])
                      <$> streamLoop registry fuel' maxTurns turns h2
                end
            | None =>
                Some (before (streamed ++
                              [Yielded (EvComplete assistantResponse);
                               TurnCompleted h1])
                             (afterStreamLoop maxTurns turns h1))
            end
        end
    end
  else Some (afterStreamLoop maxTurns turns h).

(** The generator [processInstructionStream] of the agent. *)
Definition processInstructionStream (registry : ToolRegistry)
    (h0 : list Message) (instruction : option string) : option (Run unit) :=
  match instruction with
  | None | Some "" =>
      Some (mkRun [] h0 (Throw "Instruction must be a non-empty string"))
  | Some instruction =>
      streamLoop registry maxTurnsDefault maxTurnsDefault 0
        (initialHistory registry instruction)
  end.

End Protocol.

End AgentCommunicationProtocol.

(** ** The session store and the orchestration facade *)

Module AgentService.

Module ACP := AgentCommunicationProtocol.

(** An [AgentCommunicationProtocol] instance, as far as its fields change or
    are read: the registry is the service's, the client is the context's. *)
Record Agent : Type := mkAgent {
  messageHistory : list Message;
  sessionId : string
}.

Record AgentService : Type := mkService {
  sessions : gmap string Agent;
  toolRegistry : ToolRegistry;
  initialized : bool
}.

(** A settled call of a method of the service. *)
Record ServiceRun (A : Type) : Type := mkServiceRun {
  service : AgentService;
  produced : list Effect;
  answer : Outcome A
}.
Arguments mkServiceRun {A} service produced answer.
Arguments service {A} s.
Arguments produced {A} s.
Arguments answer {A} s.

Definition ensureInitialized (svc : AgentService) : AgentService :=
  mkService (sessions svc) (toolRegistry svc) true.

Definition setSession (svc : AgentService) (id : string) (agent : Agent)
    : AgentService :=
  mkService (<[id := agent]> (sessions svc)) (toolRegistry svc)
            (initialized svc).

(** [new AgentCommunicationProtocol(...)]; [freshId] is what
    [generateSessionId] draws from the clock and the random generator. *)
Definition newAgent (freshId : string) : Agent := mkAgent [] freshId.

Definition createSession (svc : AgentService) (freshId : string)
    : string * AgentService :=
  let agent := newAgent freshId in
  (sessionId agent, setSession svc (sessionId agent) agent).

(** The get-or-create step shared by the two operations: the agent, its id,
    the store, and whether the agent was created. *)
Definition resolveAgent (svc : AgentService) (requested : option string)
    (freshId : string) : Agent * string * AgentService * bool :=
  match (if truthy requested
         then sessions svc !! default "" requested else None) with
  | Some agent => (agent, default "" requested, svc, false)
  | None =>
      let agent := newAgent freshId in
      (agent, sessionId agent, setSession svc (sessionId agent) agent, true)
  end.

(** The agent object is shared with the store: what a method does to its
    history is seen through the store. *)
Definition storeHistory (svc : AgentService) (id : string) (agent : Agent)
    (h : list Message) : AgentService :=
  setSession svc id (mkAgent h (sessionId agent)).

Section Service.

Context {client : FireworksClient} {runtime : Runtime}.

Definition processInstruction (svc : AgentService) (requested : option string)
    (instruction : option string) (freshId : string)
    : option (ServiceRun (string * string)) :=
  let svc := ensureInitialized svc in
  if negb (truthy instruction) then
    Some (mkServiceRun svc [] (Throw "Instruction is required"))
  else
    let '(agent, id, svc, _) := resolveAgent svc requested freshId in
    match ACP.processUserInstruction (toolRegistry svc)
            (messageHistory agent) instruction with
    | None => None
    | Some r =>
        Some (mkServiceRun (storeHistory svc id agent (history r)) (effects r)
                match settled r with
                | Ok response => Ok (id, response)
                | Throw e => Throw e
                end)
    end.

Definition processInstructionStream (svc : AgentService)
    (requested : option string) (instruction : option string)
    (freshId : string) : option (ServiceRun unit) :=
  let svc := ensureInitialized svc in
  if negb (truthy instruction) then
    Some (mkServiceRun svc [] (Throw "Instruction is required"))
  else
    let '(agent, id, svc, created) := resolveAgent svc requested freshId in
    let announced := if created then [Yielded (EvSession id)] else [] in
    match ACP.processInstructionStream (toolRegistry svc)
            (messageHistory agent) instruction with
    | None => None
    | Some r =>
        Some (mkServiceRun (storeHistory svc id agent (history r))
                (announced ++ effects r) (settled r))
    end.

End Service.

Definition getSessionInfo (svc : AgentService) (id : option string)
    : Outcome (string * list Message) :=
  match (if truthy id then sessions svc !! default "" id else None) with
  | Some agent => Ok (default "" id, messageHistory agent)
  | None => Throw ("Session " +:+ default "undefined" id +:+ " not found")
  end.

Definition cleanupSession (svc : AgentService) (id : option string)
    : AgentService :=
  if truthy id
  then mkService (delete (default "" id) (sessions svc)) (toolRegistry svc)
                 (initialized svc)
  else svc.

End AgentService.

(** ** Projections of a list of effects *)

Definition events (es : list Effect) : list StreamEvent :=
  omap (fun e => match e with Yielded ev => Some ev | _ => None end) es.

Definition isModelCall (e : Effect) : bool :=
  match e with ModelCalled _ => true | _ => false end.

Definition modelCalls (es : list Effect) : nat :=
  length (List.filter isModelCall es).

Definition isTerminal (ev : StreamEvent) : bool :=
  match ev with EvComplete _ | EvError _ => true | _ => false end.

Definition terminalEvents (es : list Effect) : list StreamEvent :=
  List.filter isTerminal (events es).

(** ** Deterministic stubs used in the examples *)

Module Stubs.

Definition engine : Runtime :=
  {| JSON_stringify := fun _ => "{}";
     typeErrorMessage := fun name => name +:+ " called on undefined";
     cannotReadMessage := fun reason =>
       "Cannot read properties of " +:+
       match reason with JSNull => "null" | JSUndefined => "undefined" end +:+
       " (reading 'message')" |}.

(** A provider whose answer depends on the length of the conversation: the
    same tool call while it is shorter than [n], then [final]; streamed as a
    single chunk. *)
Definition scripted (n : nat) (action final : string) : FireworksClient :=
  {| createChatCompletion := fun h =>
       Ok (if (length h <? n)%nat then action else final);
     createChatCompletionStream := fun h =>
       ([Some (if (length h <? n)%nat then action else final)], None) |}.

(** A provider that always gives the same answer, streamed as one chunk. *)
Definition always (answer : string) : FireworksClient :=
  {| createChatCompletion := fun _ => Ok answer;
     createChatCompletionStream := fun _ => ([Some answer], None) |}.

Definition noTools : ToolRegistry := [].

(** A registry with a tool that succeeds and a tool that raises. *)
Definition twoTools : ToolRegistry :=
  [ ("browser.open", mkTool "" (fun _ => Returned "opened"));
    ("browser.search", mkTool "" (fun _ => Raised "network down")) ].

(** The state after the first turn of a run whose tool raises. *)
Definition twoTurnState : list Message :=
  [ mkMessage system (AgentCommunicationProtocol.getSystemPrompt twoTools);
    mkMessage user "find it";
    mkMessage assistant "Action: browser.search()";
    mkMessage user
      "Observation: Error executing tool browser.search: network down" ].

Definition emptyService : AgentService.AgentService :=
  AgentService.mkService ∅ noTools false.

(** A store that holds one session, after a first instruction. *)
Definition oneSession : AgentService.AgentService :=
  AgentService.mkService
    {[ "session-1" :=
         AgentService.mkAgent
           (AgentCommunicationProtocol.initialHistory noTools "first" ++
            [mkMessage assistant "Answer: done"]) "session-1" ]}
    noTools true.

End Stubs.

(** ** Vocabulary of the statements about the parser *)

(** One repetition of the value part of [paramRe]. *)
Definition valueItem : regex :=
  Alt (Char (isNeither dquote backslash))
      (Cat (Char (isChar backslash)) (Char isDot)).

(** A value as the value part of [paramRe] reads it up to the closing quote:
    no bare quote, and every backslash is followed by a character that is
    not a line terminator. *)
Fixpoint wellEscaped (e : chars) : bool :=
  match e with
  | [] => true
  | a :: e' =>
      if Ascii.eqb a backslash then
        match e' with
        | b :: e'' => isDot b && wellEscaped e''
        | [] => false
        end
      else negb (Ascii.eqb a dquote) && wellEscaped e'
  end.

(** A class that stops at [s]: [s] is empty or starts outside the class. *)
Definition stopsAt (p : ascii -> bool) (s : chars) : Prop :=
  match s with
  | [] => True
  | a :: _ => p a = false
  end.

(** A parameter as it is written: [key="raw"] and the characters that
    follow the closing quote, up to the next key. *)
Record Param : Type := mkParam {
  key : chars;
  raw : chars;
  separator : chars
}.

Definition renderParam (p : Param) : chars :=
  key p ++ "="%char :: dquote :: raw p ++ dquote :: separator p.

Definition renderArgs (leading : chars) (ps : list Param) : chars :=
  leading ++ concat (map renderParam ps).

Definition noWord (s : chars) : bool := forallb (fun a => negb (isWord a)) s.
Definition noParen (s : chars) : bool := forallb (isNot ")"%char) s.

Definition isIdentifier (s : chars) : bool :=
  match s with
  | [] => false
  | _ => forallb isWord s
  end.

Definition wellFormedParam (p : Param) : bool :=
  isIdentifier (key p) && wellEscaped (raw p) && noParen (raw p) &&
  noWord (separator p) && noParen (separator p).

(** What the groups of one match of [paramRe] hold. *)
Definition paramCaptures (key raw : chars) : captures :=
  <[0 := key ++ "="%char :: dquote :: raw ++ [dquote]]>
    (<[2 := raw]> (<[1 := key]> ∅)).

(** The parameter object the assignments build, in the order written. *)
Definition expectedParams (ps : list Param) : gmap string string :=
  foldl (fun o p => setProperty o (text (key p)) (text (unescapeQuotes (raw p))))
        ∅ ps.

Fixpoint startsWith (l s : chars) : bool :=
  match l, s with
  | [], _ => true
  | _ :: _, [] => false
  | a :: l', b :: s' => Ascii.eqb a b && startsWith l' s'
  end.

(** [String.prototype.indexOf]: where the first occurrence starts. *)
Fixpoint indexOf (needle s : chars) : option nat :=
  if startsWith needle s then Some 0
  else
    match s with
    | [] => None
    | _ :: s' => S <$> indexOf needle s'
    end.

(** No match of [r] starts at one of the first [n] positions of [s]. *)
Definition noMatchBefore (r : regex) (s : chars) (n : nat) : bool :=
  forallb (fun i => match matchAt r (drop i s) with
                    | None => true
                    | Some _ => false
                    end) (List.seq 0 n).

(** A tool name as the grammar has it: an identifier, or two identifiers
    joined by a dot. *)
Definition renderName (first : chars) (second : option chars) : chars :=
  first ++ match second with
           | Some s => "."%char :: s
           | None => []
           end.

Definition wellFormedName (first : chars) (second : option chars) : bool :=
  isIdentifier first &&
  match second with
  | Some s => isIdentifier s
  | None => true
  end.

(** The text of a well-formed action line between [pre] and [post]. *)
Definition renderAction (pre ws first : chars) (second : option chars)
    (leading : chars) (ps : list Param) (post : chars) : chars :=
  pre ++ str "Action:" ++ ws ++ renderName first second ++
  "("%char :: renderArgs leading ps ++ ")"%char :: post.

(** ** Vocabulary of the statements about the loop *)

(** Every tool of the registry settles with a result or with an error that
    has a message: none rejects with [null] or [undefined]. *)
Definition settlesWithMessage (registry : ToolRegistry) : Prop :=
  Forall (fun entry : string * Tool =>
            forall ps reason, call (snd entry) ps <> Rejected reason)
         registry.






(** ** The two loops as derivations

    One constructor for each way an iteration of the source can go.  The
    loops are instances of these relations (lemmas [conversationLoop_run] and
    [streamLoop_run]); properties of every run are proved by induction on
    the derivation. *)

Section Derivations.

Context {client : FireworksClient} {runtime : Runtime}.
Variable registry : ToolRegistry.
Variable maxTurns : nat.

Import AgentCommunicationProtocol.

(** The [errorMsg] of the [catch] clause of the generator. *)
Definition toolErrorMessage (toolCall : ToolCall) (e : string) : string :=
  "Error executing tool " +:+ toolName toolCall +:+ ": " +:+ e.

(** The effects of reading one streamed completion. *)
Definition streamed (h : list Message) (chunks : list (option string))
    : list Effect :=
  ModelCalled h :: map (fun c => Yielded (EvAssistant c)) (chunkContents chunks).

Inductive ConversationRun :
    nat -> option string -> list Message -> Run (nat * option string) -> Prop :=
| conv_exit turns finalResponse h :
    negb (truthy finalResponse) && (turns <? maxTurns)%nat = false ->
    ConversationRun turns finalResponse h
      (mkRun [] h (Ok (turns, finalResponse)))
| conv_provider_fails turns finalResponse h e :
    negb (truthy finalResponse) && (turns <? maxTurns)%nat = true ->
    createChatCompletion h = Throw e ->
    ConversationRun turns finalResponse h (mkRun [ModelCalled h] h (Throw e))
| conv_tool turns finalResponse h t toolCall invoked observation r :
    negb (truthy finalResponse) && (turns <? maxTurns)%nat = true ->
    createChatCompletion h = Ok t ->
    parseToolCall t = Some toolCall ->
    executeToolCall registry toolCall = (invoked, Ok observation) ->
    ConversationRun (S turns) finalResponse
      ((h ++ [mkMessage assistant t]) ++ [observationMessage observation]) r ->
    ConversationRun turns finalResponse h
      (before (ModelCalled h :: invoked ++
               [TurnCompleted ((h ++ [mkMessage assistant t]) ++
                               [observationMessage observation])]) r)
| conv_tool_throws turns finalResponse h t toolCall invoked e :
    negb (truthy finalResponse) && (turns <? maxTurns)%nat = true ->
    createChatCompletion h = Ok t ->
    parseToolCall t = Some toolCall ->
    executeToolCall registry toolCall = (invoked, Throw e) ->
    ConversationRun turns finalResponse h
      (mkRun (ModelCalled h :: invoked) (h ++ [mkMessage assistant t])
             (Throw e))
| conv_answer turns finalResponse h t r :
    negb (truthy finalResponse) && (turns <? maxTurns)%nat = true ->
    createChatCompletion h = Ok t ->
    parseToolCall t = None ->
    ConversationRun (S turns) (Some t) (h ++ [mkMessage assistant t]) r ->
    ConversationRun turns finalResponse h
      (before [ModelCalled h; TurnCompleted (h ++ [mkMessage assistant t])] r).

Inductive StreamRun : nat -> list Message -> Run unit -> Prop :=
| stream_exit turns h :
    (turns <? maxTurns)%nat = false ->
    StreamRun turns h (afterStreamLoop maxTurns turns h)
| stream_provider_fails turns h chunks e :
    (turns <? maxTurns)%nat = true ->
    createChatCompletionStream h = (chunks, Some e) ->
    StreamRun turns h (mkRun (streamed h chunks) h (Throw e))
| stream_tool turns h chunks toolCall invoked observation r :
    (turns <? maxTurns)%nat = true ->
    createChatCompletionStream h = (chunks, None) ->
    parseToolCall (concatStrings (chunkContents chunks)) = Some toolCall ->
    executeToolCall registry toolCall = (invoked, Ok observation) ->
    StreamRun (S turns)
      ((h ++ [mkMessage assistant (concatStrings (chunkContents chunks))]) ++
       [observationMessage observation]) r ->
    StreamRun turns h
      (before ((streamed h chunks ++
                [Yielded (EvToolCall (toolName toolCall) (params toolCall))]) ++
               invoked ++
               [Yielded (EvObservation observation);
                TurnCompleted
                  ((h ++ [mkMessage assistant
                            (concatStrings (chunkContents chunks))]) ++
                   [observationMessage observation])]) r)
| stream_tool_throws turns h chunks toolCall invoked e r :
    (turns <? maxTurns)%nat = true ->
    createChatCompletionStream h = (chunks, None) ->
    parseToolCall (concatStrings (chunkContents chunks)) = Some toolCall ->
    executeToolCall registry toolCall = (invoked, Throw e) ->
    StreamRun (S turns)
      ((h ++ [mkMessage assistant (concatStrings (chunkContents chunks))]) ++
       [observationMessage (toolErrorMessage toolCall e)]) r ->
    StreamRun turns h
      (before ((streamed h chunks ++
                [Yielded (EvToolCall (toolName toolCall) (params toolCall))]) ++
               invoked ++
               [Yielded (EvError (toolErrorMessage toolCall e));
                TurnCompleted
                  ((h ++ [mkMessage assistant
                            (concatStrings (chunkContents chunks))]) ++
                   [observationMessage (toolErrorMessage toolCall e)])]) r)
| stream_answer turns h chunks :
    (turns <? maxTurns)%nat = true ->
    createChatCompletionStream h = (chunks, None) ->
    parseToolCall (concatStrings (chunkContents chunks)) = None ->
    StreamRun turns h
      (before (streamed h chunks ++
               [Yielded (EvComplete (concatStrings (chunkContents chunks)));
                TurnCompleted
                  (h ++ [mkMessage assistant
                           (concatStrings (chunkContents chunks))])])
              (afterStreamLoop maxTurns (S turns)
                 (h ++ [mkMessage assistant
                          (concatStrings (chunkContents chunks))]))).

(** The two stubs of a provider agree: every request is answered, and the
    chunks of the streamed answer concatenate to the buffered one. *)
Definition consistentStubs : Prop :=
  forall h, exists t chunks,
    createChatCompletion h = Ok t /\
    createChatCompletionStream h = (chunks, None) /\
    concatStrings (chunkContents chunks) = t.

End Derivations.

(** * The rest of the agent: provider, documents, handlers, client *)

(** ** A declarative reading of the matcher

    [Matches r s c s' c']: the expression [r] can consume the characters of
    [s] in front of [s'], taking the groups from [c] to [c'].  Every result
    of [exec] is one of these (lemma [exec_sound]), so what holds of every
    declarative match holds of every match the code finds. *)

Inductive Matches : regex -> chars -> captures -> chars -> captures -> Prop :=
| matches_char p a s c : p a = true -> Matches (Char p) (a :: s) c s c
| matches_empty s c : Matches Empty s c s c
| matches_cat r1 r2 s c s1 c1 s2 c2 :
    Matches r1 s c s1 c1 -> Matches r2 s1 c1 s2 c2 ->
    Matches (Cat r1 r2) s c s2 c2
| matches_left r1 r2 s c s' c' :
    Matches r1 s c s' c' -> Matches (Alt r1 r2) s c s' c'
| matches_right r1 r2 s c s' c' :
    Matches r2 s c s' c' -> Matches (Alt r1 r2) s c s' c'
| matches_star_done r s c : Matches (Star r) s c s c
| matches_star_more r s c s1 c1 s2 c2 :
    Matches r s c s1 c1 -> Matches (Star r) s1 c1 s2 c2 ->
    Matches (Star r) s c s2 c2
| matches_group i r s c s' c' :
    Matches r s c s' c' ->
    Matches (Group i r) s c s' (<[i := take (length s - length s') s]> c').

(** What every parameter object the parser builds holds: identifiers
    other than [__proto__] as keys, values without a closing parenthesis. *)
Definition paramsShape (o : gmap string string) : Prop :=
  forall name value, o !! name = Some value ->
    isIdentifier (str name) = true /\ name <> "__proto__" /\
    noParen (str value) = true.

(** The calls of a run that leave the agent: the requests to the provider
    and the invocations of tools. *)
Definition isExternal (e : Effect) : bool :=
  match e with
  | ModelCalled _ | ToolInvoked _ _ => true
  | _ => false
  end.

Definition external (es : list Effect) : list Effect :=
  List.filter isExternal es.

(** The requests of a run grow from [start]: the first one carries it, each
    one carries what it extends, and a later one carries the messages of an
    earlier one and more. *)
Definition growing (start : list Message) (es : list Effect) : Prop :=
  forall pre h1 post, es = pre ++ ModelCalled h1 :: post ->
    (exists later, h1 = start ++ later) /\
    forall h2, In (ModelCalled h2) post ->
      exists grown, grown <> [] /\ h2 = h1 ++ grown.

(** The text fragments a stream yields, in order. *)
Definition fragments (es : list Effect) : list string :=
  omap (fun e => match e with
                 | Yielded (EvAssistant c) => Some c
                 | _ => None
                 end) es.

(** The texts of the assistant messages of a history. *)
Definition assistantTexts (h : list Message) : list string :=
  map content (List.filter isAssistant h).

(** An event the codec of the stream carries: [JSON.parse] gives it back
    from its text, and the text holds no line feed. *)
Definition decodable (stringify : StreamEvent -> string)
    (parse : string -> option StreamEvent) (ev : StreamEvent) : Prop :=
  parse (stringify ev) = Some ev /\
  forallb (isNot newline) (str (stringify ev)) = true.

(** ** Further stubs used in the examples *)

Module Examples.

(** A provider that asks for the same tool while the conversation is
    shorter than [n] and fails afterwards, in both modes. *)
Definition failing (n : nat) (action e : string) : FireworksClient :=
  {| createChatCompletion := fun h =>
       if (length h <? n)%nat then Ok action else Throw e;
     createChatCompletionStream := fun h =>
       if (length h <? n)%nat then ([Some action], None)
       else ([Some "Thought: "], Some e) |}.

(** A registry with a tool that succeeds and a tool that rejects with
    [null]. *)
Definition crashing : ToolRegistry :=
  [ ("browser.open", mkTool "" (fun _ => Returned "opened"));
    ("browser.close", mkTool "" (fun _ => Rejected JSNull)) ].

(** A codec for the two events of the example stream. *)
Definition stringify (ev : StreamEvent) : string :=
  match ev with
  | EvAssistant _ => "assistant"
  | EvComplete _ => "complete"
  | _ => "other"
  end.

Definition parse (s : string) : option StreamEvent :=
  if String.eqb s "assistant" then Some (EvAssistant "Answer: done")
  else if String.eqb s "complete" then Some (EvComplete "Answer: done")
  else None.

End Examples.

(** [String.prototype.split] with a non-empty separator: the pieces between
    its occurrences, found from the left without overlap.  [skip] counts
    the characters of an occurrence still to pass. *)
Fixpoint splitFrom (separator : chars) (skip : nat) (s : chars) : list chars :=
  match s with
  | [] => [[]]
  | a :: s' =>
      match skip with
      | S skip' => splitFrom separator skip' s'
      | 0 =>
          if startsWith separator s
          then [] :: splitFrom separator (length separator - 1) s'
          else
            match splitFrom separator 0 s' with
            | piece :: pieces => (a :: piece) :: pieces
            | [] => [[a]]
            end
      end
  end.

Definition split (separator s : chars) : list chars := splitFrom separator 0 s.

(** ** The mock provider of [fireworksClient.js]

    With [USE_MOCK] set both operations of the client answer from
    [generateMockCompletion] and [generateMockCompletionStream]. *)

Module Fireworks.

(** [String.prototype.toLowerCase] on code units below 256: the letters
    [A-Z] and the Latin-1 capitals (all of 192..222 but the multiplication
    sign) move up by 32. *)
Definition lowerCase (a : ascii) : ascii :=
  if inRange 65 90 a || (inRange 192 222 a && negb (code a =? 215)%nat)
  then ascii_of_nat (code a + 32) else a.

Definition toLowerCase (s : chars) : chars := map lowerCase s.

(** [String.prototype.includes]. *)
Definition includes (needle s : chars) : bool :=
  match indexOf needle s with
  | Some _ => true
  | None => false
  end.

Definition isUser (m : Message) : bool :=
  match role m with user => true | _ => false end.

(** [options.messages.find(m => m.role === 'user')?.content || ''] *)
Definition userMessage (messages : list Message) : string :=
  match List.find isUser messages with
  | Some m => content m
  | None => ""
  end.

(** [userMessage.toLowerCase().includes(word)] *)
Definition mentions (messages : list Message) (word : string) : bool :=
  includes (str word) (toLowerCase (str (userMessage messages))).

(** The [responseContent] of [generateMockCompletion]. *)
Definition generateMockCompletion (messages : list Message) : string :=
  if mentions messages "search" then
    "Thought: I need to search for information on the web.
Action: browser.search(query=" +:+ q +:+ "artificial intelligence news" +:+ q +:+ ")"
  else if mentions messages "navigate" || mentions messages "go to" then
    "Thought: I need to navigate to a specific website.
Action: browser.open(url=" +:+ q +:+ "https://www.example.com" +:+ q +:+ ")"
  else if mentions messages "click" then
    "Thought: I need to click on an element on the page.
Action: browser.click(selector=" +:+ q +:+ "Sign in button" +:+ q +:+ ")"
  else if mentions messages "type" || mentions messages "enter" then
    "Thought: I need to enter some text into a field.
Action: browser.type(selector=" +:+ q +:+ "Email field" +:+ q +:+ ", text=" +:+
    q +:+ "example@example.com" +:+ q +:+ ")"
  else if mentions messages "screenshot" then
    "Thought: I need to take a screenshot of the current page.
Action: browser.screenshot()"
  else
    "Thought: I need to understand what the user wants me to do.
I think the user is asking me to perform a web task. Let me break it down into steps.

First, I'll need to search for some information.
Action: browser.search(query=" +:+ q +:+ "example search query" +:+ q +:+ ")".

(** [responseContent.split] on the look-behind for a line feed: the string
    is cut after every line feed that is not its last character; the empty
    string gives one empty piece. *)
Fixpoint splitAfterLineFeed (s : chars) : list chars :=
  match s with
  | [] => [[]]
  | a :: s' =>
      match s' with
      | _ :: _ =>
          if Ascii.eqb a newline then [a] :: splitAfterLineFeed s'
          else
            match splitAfterLineFeed s' with
            | piece :: pieces => (a :: piece) :: pieces
            | [] => [[a]]
            end
      | [] => [[a]]
      end
  end.

(** The [delta.content] of the chunks [generateMockCompletionStream]
    yields. *)
Definition generateMockCompletionStream (messages : list Message)
    : list string :=
  map text (splitAfterLineFeed (str (generateMockCompletion messages))).

(** The client in mock mode, as the agent sees it. *)
Definition mock : FireworksClient :=
  {| createChatCompletion := fun messages =>
       Ok (generateMockCompletion messages);
     createChatCompletionStream := fun messages =>
       (map Some (generateMockCompletionStream messages), None) |}.

(** [buffer[i] === value] on a [Buffer]: out of range the index gives
    [undefined], which equals no byte. *)
Definition byteIs (buffer : list Byte.byte) (i : nat) (value : Byte.byte)
    : bool :=
  match buffer !! i with
  | Some b => Byte.eqb b value
  | None => false
  end.

Definition detectMimeType (buffer : list Byte.byte) : string :=
  if byteIs buffer 0 Byte.xff && byteIs buffer 1 Byte.xd8 then "image/jpeg"
  else if byteIs buffer 0 Byte.x89 && byteIs buffer 1 Byte.x50 &&
          byteIs buffer 2 Byte.x4e && byteIs buffer 3 Byte.x47
  then "image/png"
  else if byteIs buffer 0 Byte.x25 && byteIs buffer 1 Byte.x50 &&
          byteIs buffer 2 Byte.x44 && byteIs buffer 3 Byte.x46
  then "application/pdf"
  else "application/octet-stream".

(** The values the document tools are called with. *)
#[local] Unset Elimination Schemes.
Inductive Document : Type :=
| Undefined
| Text (s : string)
| Buffer (bytes : list Byte.byte)
| Array (items : list Document).
#[local] Set Elimination Schemes.

Section Inlining.

(** [buffer.toString('base64')] *)
Variable base64 : list Byte.byte -> string.

Definition prepareDocumentInlining (document : Document) : Outcome string :=
  match document with
  | Text s =>
      if startsWith (str "http") (str s) then Ok (s +:+ "#transform=inline")
      else Throw "Document must be a URL or buffer"
  | Buffer bytes =>
      Ok ("data:" +:+ detectMimeType bytes +:+ ";base64," +:+ base64 bytes +:+
          "#transform=inline")
  | _ => Throw "Document must be a URL or buffer"
  end.

End Inlining.

End Fireworks.

(** ** [documentInliner.js] and the document tools of the registry *)

Module DocumentInliner.

Import Fireworks.

Section Inliner.

Variable base64 : list Byte.byte -> string.

(** What the provider answers to a request of the inliner (its requests
    carry no [stop]): the [message.content] of the [choices], or the error
    the call throws. *)
Variable complete : list Message -> Outcome (list string).

(** JavaScript truthiness of a document argument. *)
Definition given (document : Document) : bool :=
  match document with
  | Undefined => false
  | Text s => negb (String.eqb s "")
  | _ => true
  end.

(** A template literal prints an absent question as [undefined]. *)
Definition asked (question : option string) : string :=
  default "undefined" question.

(** The common tail of the three operations: one request with the prompt
    as its only message, the first choice as the result. *)
Definition ask (prompt : string) : list Effect * Outcome string :=
  let messages := [mkMessage user prompt] in
  ([ModelCalled messages],
   match complete messages with
   | Throw e => Throw e
   | Ok (answer :: _) => Ok answer
   | Ok [] => Throw "No response from Fireworks AI"
   end).

Definition analyzeDocument (document : Document) (question : option string)
    : list Effect * Outcome string :=
  if negb (given document)
  then ([], Throw "Document is required for analysis")
  else
    match prepareDocumentInlining base64 document with
    | Throw e => ([], Throw e)
    | Ok documentReference =>
        ask ("Analyze this document and answer the following question: " +:+
             asked question +:+ nl +:+ nl +:+ documentReference)
    end.

(** [documents.map(doc => this.prepareDocumentReference(doc))]: the first
    document that is refused ends the map. *)
Fixpoint prepareAll (documents : list Document) : Outcome (list string) :=
  match documents with
  | [] => Ok []
  | doc :: rest =>
      match prepareDocumentInlining base64 doc with
      | Throw e => Throw e
      | Ok reference =>
          match prepareAll rest with
          | Throw e => Throw e
          | Ok references => Ok (reference :: references)
          end
      end
  end.

Definition analyzeMultipleDocuments (documents : Document)
    (question : option string) : list Effect * Outcome string :=
  match documents with
  | Array (doc :: rest) =>
      match prepareAll (doc :: rest) with
      | Throw e => ([], Throw e)
      | Ok documentReferences =>
          ask ("Analyze these documents and answer the following question: " +:+
               asked question +:+ nl +:+ nl +:+
               join (nl +:+ nl) documentReferences)
      end
  | _ =>
      ([], Throw "At least one document is required for multi-document analysis")
  end.

Definition compareDocuments (documentA documentB : Document)
    (question : option string) : list Effect * Outcome string :=
  if negb (given documentA) || negb (given documentB)
  then ([], Throw "Both documents are required for comparison")
  else
    match prepareDocumentInlining base64 documentA with
    | Throw e => ([], Throw e)
    | Ok documentAReference =>
        match prepareDocumentInlining base64 documentB with
        | Throw e => ([], Throw e)
        | Ok documentBReference =>
            ask ("Compare these two documents and answer the following question: " +:+
                 asked question +:+ nl +:+ nl +:+
                 "Document A:" +:+ nl +:+ documentAReference +:+ nl +:+ nl +:+
                 "Document B:" +:+ nl +:+ documentBReference)
        end
    end.

(** A property of the parameter object of a tool call: a string, or
    [undefined] when the action did not write it. *)
Definition argument (params : gmap string string) (name : string) : Document :=
  match params !! name with
  | Some s => Text s
  | None => Undefined
  end.

(** How [executeToolCall] sees a tool that returns a string. *)
Definition settle (run : list Effect * Outcome string) : ToolOutcome :=
  match snd run with
  | Ok result => Returned result
  | Throw message => Raised message
  end.

(** The tools of the registry the agent reaches the inliner through. *)
Definition documentAnalyze : callable := fun params =>
  settle (analyzeDocument (argument params "document") (params !! "question")).

Definition documentAnalyzeMultiple : callable := fun params =>
  settle (analyzeMultipleDocuments (argument params "documents")
            (params !! "question")).

Definition documentCompare : callable := fun params =>
  settle (compareDocuments (argument params "documentA")
            (argument params "documentB") (params !! "question")).

(** The tools that leave the program: browser automation and the screen
    parser. *)
Record ExternalTools : Type := mkExternalTools {
  browserOpen : callable;
  browserSearch : callable;
  browserClick : callable;
  browserType : callable;
  browserScreenshot : callable;
  browserGetHtml : callable;
  browserExtractData : callable;
  browserObserve : callable;
  parserParseScreenshot : callable;
  parserExtractComponentData : callable
}.

(** [initializeToolRegistry] of the service.  No tool of the literal has a
    documentation comment in its source, so each description is empty. *)
Definition initializeToolRegistry (external : ExternalTools) : ToolRegistry :=
  [ ("browser.open", mkTool "" (browserOpen external));
    ("browser.search", mkTool "" (browserSearch external));
    ("browser.click", mkTool "" (browserClick external));
    ("browser.type", mkTool "" (browserType external));
    ("browser.screenshot", mkTool "" (browserScreenshot external));
    ("browser.getHtml", mkTool "" (browserGetHtml external));
    ("browser.extractData", mkTool "" (browserExtractData external));
    ("browser.observe", mkTool "" (browserObserve external));
    ("parser.parseScreenshot", mkTool "" (parserParseScreenshot external));
    ("parser.extractComponentData",
       mkTool "" (parserExtractComponentData external));
    ("document.analyze", mkTool "" documentAnalyze);
    ("document.analyzeMultiple", mkTool "" documentAnalyzeMultiple);
    ("document.compare", mkTool "" documentCompare) ].

End Inliner.

End DocumentInliner.
(** ** [agentController.js]: the HTTP handlers over the singleton service

    A request body is an object whose fields are strings or absent.  A
    handler takes the service as it stands and gives it back with the reply
    it has sent. *)

(** A generator consumed by a [for await] loop that leaves at the first
    [complete] or [error] event: the effects performed up to there. *)
Fixpoint untilTerminal (es : list Effect) : list Effect :=
  match es with
  | [] => []
  | Yielded ev :: es' =>
      if isTerminal ev then [Yielded ev] else Yielded ev :: untilTerminal es'
  | e :: es' => e :: untilTerminal es'
  end.

(** The history of the agent when its generator is left there: the state
    of the iteration the event belongs to (no message is pushed between a
    terminal [yield] and the end of its iteration), the final state when
    the event is the one after the loop or when the generator is drained. *)
Fixpoint abandonedAt (es : list Effect) (final : list Message)
    : list Message :=
  match es with
  | [] => final
  | Yielded ev :: es' =>
      if isTerminal ev then
        match es' with
        | TurnCompleted h :: _ => h
        | _ => final
        end
      else abandonedAt es' final
  | _ :: es' => abandonedAt es' final
  end.

Module AgentController.

Module ACP := AgentCommunicationProtocol.
Module Service := AgentService.

(** The objects the handlers pass to [res.json]. *)
Inductive Json : Type :=
| SessionCreated (sessionId : string)
| InstructionProcessed (sessionId response : string)
| SessionInformation (sessionId : string) (messageHistory : list Message)
| SessionCleaned (message : string)
| Failure (error : string).

(** What a handler has sent: a JSON body with its status, or the head of an
    event stream, the frames written to it and whether it was ended. *)
Inductive Reply : Type :=
| JsonReply (status : nat) (body : Json)
| EventStream (status : nat) (written : list string) (ended : bool).

Definition createSession (svc : Service.AgentService) (freshId : string)
    : Service.AgentService * Reply :=
  let svc := Service.ensureInitialized svc in
  let (sessionId, svc) := Service.createSession svc freshId in
  (svc, JsonReply 200 (SessionCreated sessionId)).

Definition getSessionInfo (svc : Service.AgentService)
    (sessionId : option string) : Reply :=
  if negb (truthy sessionId)
  then JsonReply 400 (Failure "Session ID is required")
  else
    match Service.getSessionInfo svc sessionId with
    | Ok (id, messageHistory) =>
        JsonReply 200 (SessionInformation id messageHistory)
    | Throw e => JsonReply 500 (Failure e)
    end.

Definition cleanupSession (svc : Service.AgentService)
    (sessionId : option string) : Service.AgentService * Reply :=
  if negb (truthy sessionId)
  then (svc, JsonReply 400 (Failure "Session ID is required"))
  else
    (Service.cleanupSession svc sessionId,
     JsonReply 200
       (SessionCleaned ("Session " +:+ default "" sessionId +:+ " cleaned up"))).

Section Handlers.

Context {client : FireworksClient} {runtime : Runtime}.

(** [JSON.stringify] on an event. *)
Variable stringify : StreamEvent -> string.

Definition processInstruction (svc : Service.AgentService)
    (sessionId instruction : option string) (freshId : string)
    : option (Service.AgentService * Reply) :=
  if negb (truthy instruction)
  then Some (svc, JsonReply 400 (Failure "Instruction is required"))
  else
    match Service.processInstruction svc sessionId instruction freshId with
    | None => None
    | Some run =>
        Some (Service.service run,
              match Service.answer run with
              | Ok (id, response) =>
                  JsonReply 200 (InstructionProcessed id response)
              | Throw e => JsonReply 500 (Failure e)
              end)
    end.

(** One server-sent event. *)
Definition frame (chunk : StreamEvent) : string :=
  "data: " +:+ stringify chunk +:+ nl +:+ nl.

(** The generator [processInstructionStream] of the service as the loop of
    the handler drives it: left at the first terminal event. *)
Definition streamUntilTerminal (svc : Service.AgentService)
    (requested instruction : option string) (freshId : string)
    : option (Service.ServiceRun unit) :=
  let svc := Service.ensureInitialized svc in
  if negb (truthy instruction) then
    Some (Service.mkServiceRun svc [] (Throw "Instruction is required"))
  else
    let '(agent, id, svc, created) :=
      Service.resolveAgent svc requested freshId in
    let announced := if created then [Yielded (EvSession id)] else [] in
    match ACP.processInstructionStream (Service.toolRegistry svc)
            (Service.messageHistory agent) instruction with
    | None => None
    | Some r =>
        Some (Service.mkServiceRun
                (Service.storeHistory svc id agent
                   (abandonedAt (effects r) (history r)))
                (announced ++ untilTerminal (effects r))
                (if existsb isTerminal (events (effects r)) then Ok tt
                 else settled r))
    end.

Definition processInstructionStream (svc : Service.AgentService)
    (sessionId instruction : option string) (freshId : string)
    : option (Service.AgentService * Reply) :=
  if negb (truthy instruction)
  then Some (svc, JsonReply 400 (Failure "Instruction is required"))
  else
    match streamUntilTerminal svc sessionId instruction freshId with
    | None => None
    | Some run =>
        let written := map frame (events (Service.produced run)) in
        Some (Service.service run,
              match Service.answer run with
              | Throw e => EventStream 200 (written ++ [frame (EvError e)]) true
              | Ok _ =>
                  EventStream 200 written
                    (existsb isTerminal (events (Service.produced run)))
              end)
    end.

End Handlers.

End AgentController.

(** ** The browser client of the event stream ([AgentAPI]) *)

Module AgentAPI.

Section Client.

(** The messages, and [JSON.parse]: [None] when it throws. *)
Variable A : Type.
Variable parse : string -> option A.

(** What one [reader.read()] of the response hands to [onMessage]. *)
Definition received (chunk : string) : list A :=
  omap (fun line : chars =>
          if startsWith (str "data: ") line then parse (text (drop 6 line))
          else None)
       (split [newline; newline] (str chunk)).

(** The calls of [onMessage] over the reads of a response. *)
Definition processInstructionStream (reads : list string) : list A :=
  concat (map received reads).

End Client.

End AgentAPI.

(** * Properties *)

Local Open Scope nat_scope.

Import AgentCommunicationProtocol AgentService.

(** ** The matcher on the shapes the two expressions meet *)

Section MatcherLemmas.

Implicit Types (s l cs : chars) (c : captures) (k : cont) (x : found).

Lemma str_text l : str (text l) = l.
Proof. apply list_ascii_of_string_of_list_ascii. Qed.

Lemma take_consumed l s : take (length (l ++ s) - length s) (l ++ s) = l.
Proof.
  rewrite length_app.
  replace (length l + length s - length s) with (length l) by lia.
  by rewrite take_app_length.
Qed.

Lemma exec_lit l s c k : exec (lit l) (l ++ s) c k = k s c.
Proof.
  induction l as [|a l IH]; simpl; [done|].
  unfold isChar. by rewrite Ascii.eqb_refl.
Qed.

Lemma starLoop_class p k cs : forall n s c x,
  forallb p cs = true -> stopsAt p s -> length (cs ++ s) <= n ->
  k s c = Some x ->
  starLoop (exec (Char p)) k n (cs ++ s) c = Some x.
Proof.
  induction cs as [|a cs IH]; intros n s c x Hall Hstop Hn Hk.
  - destruct n as [|n]; simpl; [done|].
    destruct s as [|b s]; simpl in *; [by rewrite Hk|].
    by rewrite Hstop, Hk.
  - simpl in Hall. apply andb_prop in Hall as [Ha Hall].
    destruct n as [|n]; simpl in Hn; [lia|].
    simpl. rewrite Ha.
    destruct (Nat.ltb_spec (length (cs ++ s)) (S (length (cs ++ s)))); [|lia].
    pose proof (IH n s c x Hall Hstop ltac:(lia) Hk) as E. simpl in E.
    by rewrite E.
Qed.

Lemma exec_star_class p k cs s c x :
  forallb p cs = true -> stopsAt p s -> k s c = Some x ->
  exec (Star (Char p)) (cs ++ s) c k = Some x.
Proof. intros. simpl. by apply starLoop_class. Qed.

Lemma exec_plus_class p k a cs s c x :
  p a = true -> forallb p cs = true -> stopsAt p s -> k s c = Some x ->
  exec (plus (Char p)) (a :: cs ++ s) c k = Some x.
Proof.
  intros Ha Hall Hstop Hk. unfold plus.
  change (exec (Cat (Char p) (Star (Char p))) (a :: cs ++ s) c k)
    with (if p a then exec (Star (Char p)) (cs ++ s) c k else None).
  rewrite Ha. by apply exec_star_class.
Qed.

Lemma exec_Cat r1 r2 s c k :
  exec (Cat r1 r2) s c k = exec r1 s c (fun s' c' => exec r2 s' c' k).
Proof. done. Qed.

Lemma exec_Group i r s c k :
  exec (Group i r) s c k =
  exec r s c (fun s' c' => k s' (<[i := take (length s - length s') s]> c')).
Proof. done. Qed.

Lemma exec_Char_hit p a s c k : p a = true -> exec (Char p) (a :: s) c k = k s c.
Proof. intros H. simpl. by rewrite H. Qed.

Lemma exec_Char_miss p a s c k : p a = false -> exec (Char p) (a :: s) c k = None.
Proof. intros H. simpl. by rewrite H. Qed.

Lemma exec_is a s c k : exec (Char (isChar a)) (a :: s) c k = k s c.
Proof. apply exec_Char_hit. unfold isChar. apply Ascii.eqb_refl. Qed.

Lemma valueItem_quote s c k : exec valueItem (dquote :: s) c k = None.
Proof. done. Qed.

Lemma starLoop_value k m : forall e n s c x,
  length e <= m -> wellEscaped e = true ->
  length (e ++ dquote :: s) <= n ->
  k (dquote :: s) c = Some x ->
  starLoop (exec valueItem) k n (e ++ dquote :: s) c = Some x.
Proof.
  induction m as [|m IH]; intros e n s c x Hm He Hn Hk.
  - destruct e; [|simpl in Hm; lia].
    destruct n as [|n]; [simpl in Hn; lia|].
    cbn [starLoop app]. by rewrite valueItem_quote.
  - destruct e as [|a e].
    { destruct n as [|n]; [simpl in Hn; lia|].
      cbn [starLoop app]. by rewrite valueItem_quote. }
    destruct n as [|n]; [simpl in Hn; lia|].
    cbn [wellEscaped] in He.
    destruct (Ascii.eqb_spec a backslash) as [->|Hne].
    + destruct e as [|b e]; [done|].
      apply andb_prop in He as [Hb He].
      assert (E : starLoop (exec valueItem) k n (e ++ dquote :: s) c = Some x).
      { apply IH; simpl in *; try done; lia. }
      cbn [starLoop app]. unfold valueItem at 1. cbn [exec].
      change (isNeither dquote backslash backslash) with false. cbv iota.
      change (isChar backslash backslash) with true. cbv iota.
      rewrite Hb.
      destruct (Nat.ltb_spec (length (e ++ dquote :: s))
                  (length (backslash :: b :: e ++ dquote :: s))) as [_|Hlt];
        [|simpl in Hlt; lia].
      by rewrite E.
    + apply andb_prop in He as [Ha He].
      assert (E : starLoop (exec valueItem) k n (e ++ dquote :: s) c = Some x).
      { apply IH; simpl in *; try done; lia. }
      cbn [starLoop app]. unfold valueItem at 1. cbn [exec].
      assert (Hn' : isNeither dquote backslash a = true).
      { unfold isNeither. rewrite (Ascii.eqb_sym backslash a).
        apply Ascii.eqb_neq in Hne. rewrite Hne.
        rewrite (Ascii.eqb_sym dquote a). by rewrite Ha. }
      rewrite Hn'.
      destruct (Nat.ltb_spec (length (e ++ dquote :: s))
                  (length (a :: e ++ dquote :: s))) as [_|Hlt];
        [|simpl in Hlt; lia].
      by rewrite E.
Qed.

Lemma exec_Star r s c k : exec (Star r) s c k = starLoop (exec r) k (length s) s c.
Proof. done. Qed.

Lemma exec_Empty s c k : exec Empty s c k = k s c.
Proof. done. Qed.

Lemma matchAt_paramRe key e tail :
  isIdentifier key = true -> wellEscaped e = true ->
  matchAt paramRe (key ++ "="%char :: dquote :: e ++ dquote :: tail)
  = Some (tail, paramCaptures key e).
Proof.
  intros Hk He. destruct key as [|a key]; [done|].
  simpl in Hk. apply andb_prop in Hk as [Ha Hk].
  unfold matchAt, paramRe. cbn [seq].
  rewrite exec_Group, exec_Cat, exec_Group.
  change ((a :: key) ++ "="%char :: dquote :: e ++ dquote :: tail)
    with (a :: key ++ "="%char :: dquote :: e ++ dquote :: tail).
  apply exec_plus_class; [done..|].
  rewrite exec_Cat, exec_is, exec_Cat, exec_is, exec_Cat, exec_Group, exec_Star.
  apply (starLoop_value _ (length e)); [done..|].
  rewrite exec_Cat, exec_is, exec_Empty.
  do 2 f_equal. unfold paramCaptures.
  rewrite (take_consumed e (dquote :: tail)).
  change (a :: key ++ "="%char :: dquote :: e ++ dquote :: tail)
    with ((a :: key) ++ "="%char :: dquote :: e ++ dquote :: tail).
  rewrite (take_consumed (a :: key)).
  replace ((a :: key) ++ "="%char :: dquote :: e ++ dquote :: tail)
    with (((a :: key) ++ "="%char :: dquote :: e ++ [dquote]) ++ tail).
  2:{ rewrite <- !app_assoc. simpl. do 3 f_equal. by rewrite <- app_assoc. }
  by rewrite take_consumed.
Qed.

Lemma matchAt_paramRe_noWord a s : isWord a = false -> matchAt paramRe (a :: s) = None.
Proof.
  intros Ha. unfold matchAt, paramRe. cbn [seq].
  rewrite exec_Group, exec_Cat, exec_Group. unfold plus.
  rewrite exec_Cat. by rewrite exec_Char_miss.
Qed.

Lemma matchAt_paramRe_nil : matchAt paramRe [] = None.
Proof. done. Qed.

Lemma search_paramRe_skip sep s :
  noWord sep = true -> search paramRe (sep ++ s) = search paramRe s.
Proof.
  induction sep as [|a sep IH]; intros H; [done|].
  simpl in H. apply andb_prop in H as [Ha H].
  cbn [app search]. rewrite matchAt_paramRe_noWord; [|by destruct (isWord a)].
  by apply IH.
Qed.

Lemma search_paramRe_none sep : noWord sep = true -> search paramRe sep = None.
Proof.
  induction sep as [|a sep IH]; intros H; [done|].
  simpl in H. apply andb_prop in H as [Ha H].
  cbn [search]. rewrite matchAt_paramRe_noWord; [|by destruct (isWord a)].
  by apply IH.
Qed.

Lemma search_paramRe_hit key e tail :
  isIdentifier key = true -> wellEscaped e = true ->
  search paramRe (key ++ "="%char :: dquote :: e ++ dquote :: tail)
  = Some (tail, paramCaptures key e).
Proof.
  intros Hk He.
  destruct (key ++ "="%char :: dquote :: e ++ dquote :: tail) eqn:E;
    cbn [search]; rewrite <- E; by rewrite matchAt_paramRe.
Qed.

Lemma matchAllFrom_params ps : forall fuel leading,
  length ps < fuel -> noWord leading = true ->
  forallb wellFormedParam ps = true ->
  matchAllFrom fuel paramRe (renderArgs leading ps)
  = map (fun p => paramCaptures (key p) (raw p)) ps.
Proof.
  induction ps as [|p ps IH]; intros fuel leading Hf Hl Hps.
  - destruct fuel; [simpl in Hf; lia|].
    unfold renderArgs. simpl. rewrite app_nil_r.
    by rewrite search_paramRe_none.
  - destruct fuel; [simpl in Hf; lia|].
    simpl in Hps. apply andb_prop in Hps as [Hp Hps].
    unfold wellFormedParam in Hp.
    repeat (apply andb_prop in Hp as [Hp ?]).
    unfold renderArgs. cbn [map concat matchAllFrom].
    rewrite search_paramRe_skip by done.
    unfold renderParam. rewrite <- !app_assoc. cbn [app].
    rewrite <- app_assoc. cbn [app].
    rewrite search_paramRe_hit by done.
    unfold paramCaptures at 1. rewrite lookup_insert_eq.
    destruct (key p) as [|a kp] eqn:Ek; [done|]. cbn [app].
    rewrite <- Ek. f_equal.
    apply (IH fuel (separator p)); [simpl in Hf; lia|done..].
Qed.

Lemma matchAll_params leading ps :
  noWord leading = true -> forallb wellFormedParam ps = true ->
  matchAll paramRe (renderArgs leading ps)
  = map (fun p => paramCaptures (key p) (raw p)) ps.
Proof.
  intros Hl Hps. unfold matchAll. apply matchAllFrom_params; [|done..].
  clear Hl. unfold renderArgs. rewrite length_app.
  induction ps as [|p ps IH]; simpl; [lia|].
  simpl in Hps. apply andb_prop in Hps as [_ Hps]. specialize (IH Hps).
  rewrite length_app. unfold renderParam at 1. rewrite length_app. simpl. lia.
Qed.

Lemma group_paramCaptures_1 (ky e : chars) : group 1 (paramCaptures ky e) = ky.
Proof. done. Qed.

Lemma group_paramCaptures_2 (ky e : chars) : group 2 (paramCaptures ky e) = e.
Proof. done. Qed.

Lemma foldl_params ps (o : gmap string string) :
  foldl (fun params m =>
           setProperty params (text (group 1 m))
                       (text (unescapeQuotes (group 2 m))))
        o (map (fun p => paramCaptures (key p) (raw p)) ps)
  = foldl (fun o p => setProperty o (text (key p)) (text (unescapeQuotes (raw p))))
          o ps.
Proof.
  revert o. induction ps as [|p ps IH]; intros o; [done|].
  simpl. by rewrite IH.
Qed.

Lemma exec_lit_miss l : forall s c k, startsWith l s = false -> exec (lit l) s c k = None.
Proof.
  induction l as [|a l IH]; intros s c k H; [done|].
  destruct s as [|b s]; [done|].
  cbn [lit]. rewrite exec_Cat. simpl in H.
  unfold isChar at 1. simpl.
  destruct (Ascii.eqb a b); [|done]. by apply IH.
Qed.

Lemma matchAt_actionRe_miss s :
  startsWith (str "Action:") s = false -> matchAt actionRe s = None.
Proof.
  intros H. unfold matchAt, actionRe. cbn [seq].
  rewrite exec_Group, exec_Cat. by apply exec_lit_miss.
Qed.

Lemma noMatchBefore_cons r a s n :
  noMatchBefore r (a :: s) (S n)
  = match matchAt r (a :: s) with None => true | Some _ => false end
    && noMatchBefore r s n.
Proof.
  unfold noMatchBefore. cbn [List.seq forallb drop]. f_equal.
  rewrite <- seq_shift. generalize (List.seq 0 n). intros l.
  induction l as [|i l IH]; [done|]. cbn [map forallb drop]. by rewrite IH.
Qed.

Lemma search_skip r pre : forall s,
  noMatchBefore r (pre ++ s) (length pre) = true ->
  search r (pre ++ s) = search r s.
Proof.
  induction pre as [|a pre IH]; intros s H; [done|].
  cbn [app length] in H. rewrite noMatchBefore_cons in H.
  apply andb_prop in H as [H1 H2].
  cbn [app search]. destruct (matchAt r (a :: pre ++ s)); [done|].
  by apply IH.
Qed.

Lemma noMatchBefore_first_occurrence pre : forall s,
  indexOf (str "Action:") (pre ++ s) = Some (length pre) ->
  noMatchBefore actionRe (pre ++ s) (length pre) = true.
Proof.
  induction pre as [|a pre IH]; intros s H; [done|].
  cbn [app indexOf] in H.
  destruct (startsWith (str "Action:") (a :: pre ++ s)) eqn:E; [done|].
  cbn [app length]. rewrite noMatchBefore_cons.
  rewrite matchAt_actionRe_miss by done. cbn [andb].
  apply IH. destruct (indexOf (str "Action:") (pre ++ s)); simpl in H; [|done].
  simpl. congruence.
Qed.

Lemma noParen_app s1 s2 : noParen (s1 ++ s2) = noParen s1 && noParen s2.
Proof. unfold noParen. apply forallb_app. Qed.

Lemma isWord_noParen s : forallb isWord s = true -> noParen s = true.
Proof.
  induction s as [|a s IH]; [done|]. simpl. intros H.
  apply andb_prop in H as [Ha H]. rewrite IH by done.
  rewrite andb_true_r. unfold isNot.
  destruct (Ascii.eqb_spec ")"%char a) as [<-|]; done.
Qed.

Lemma isIdentifier_words s : isIdentifier s = true -> forallb isWord s = true.
Proof. by destruct s. Qed.

Lemma noParen_renderArgs leading ps :
  noParen leading = true -> forallb wellFormedParam ps = true ->
  noParen (renderArgs leading ps) = true.
Proof.
  intros Hl Hps. unfold renderArgs. rewrite noParen_app, Hl. simpl.
  induction ps as [|p ps IH]; [done|].
  simpl in Hps. apply andb_prop in Hps as [Hp Hps].
  unfold wellFormedParam in Hp. repeat (apply andb_prop in Hp as [Hp ?]).
  cbn [map concat]. rewrite noParen_app, IH by done.
  rewrite andb_true_r. unfold renderParam.
  rewrite noParen_app, isWord_noParen by (by apply isIdentifier_words).
  cbn. rewrite noParen_app. cbn. fold (noParen (separator p)).
  by rewrite H1, H.
Qed.

Lemma isWord_not_space a : isWord a = true -> isSpace a = false.
Proof. destruct a as [[] [] [] [] [] [] [] []]; vm_compute; congruence. Qed.

Lemma take_consumed' l s (whole : chars) :
  whole = l ++ s -> take (length whole - length s) whole = l.
Proof. intros ->. apply take_consumed. Qed.

Lemma exec_Alt_left r1 r2 s c k x :
  exec r1 s c k = Some x -> exec (Alt r1 r2) s c k = Some x.
Proof. intros H. simpl. by rewrite H. Qed.

Lemma exec_Alt_right r1 r2 s c k :
  exec r1 s c k = None -> exec (Alt r1 r2) s c k = exec r2 s c k.
Proof. intros H. simpl. by rewrite H. Qed.

Lemma tail_of_action (args post : chars) c k x :
  noParen args = true ->
  k post (<[3 := args]> c) = Some x ->
  exec (seq [Char (isChar "("%char); Group 3 (Star (Char (isNot ")"%char)));
             Char (isChar ")"%char)])
       ("("%char :: args ++ ")"%char :: post) c k = Some x.
Proof.
  intros Hargs Hk. cbn [seq].
  rewrite exec_Cat, exec_is, exec_Cat, exec_Group.
  apply exec_star_class; [done..|].
  rewrite exec_Cat, exec_is, exec_Empty.
  by rewrite (take_consumed args (")"%char :: post)).
Qed.

Lemma matchAt_actionRe ws first second args post :
  forallb isSpace ws = true -> wellFormedName first second = true ->
  noParen args = true ->
  exists c,
    matchAt actionRe (str "Action:" ++ ws ++ renderName first second ++
                      "("%char :: args ++ ")"%char :: post) = Some (post, c) /\
    group 1 c = renderName first second /\ group 3 c = args.
Proof.
  intros Hws Hname Hargs.
  unfold wellFormedName in Hname. apply andb_prop in Hname as [Hf Hs].
  destruct first as [|a first]; [done|].
  simpl in Hf. apply andb_prop in Hf as [Ha Hf].
  unfold matchAt, actionRe.
  change (seq [lit (str "Action:"); Star (Char isSpace);
     Group 1 (seq [plus (Char isWord);
        opt (Group 2 (seq [Char (isChar "."%char); plus (Char isWord)]))]);
     Char (isChar "("%char); Group 3 (Star (Char (isNot ")"%char)));
     Char (isChar ")"%char)])
    with (Cat (lit (str "Action:")) (Cat (Star (Char isSpace))
      (Cat (Group 1 (Cat (plus (Char isWord))
              (Cat (opt (Group 2 (Cat (Char (isChar "."%char))
                                    (Cat (plus (Char isWord)) Empty)))) Empty)))
         (seq [Char (isChar "("%char); Group 3 (Star (Char (isNot ")"%char)));
               Char (isChar ")"%char)])))).
  destruct second as [second|].
  - destruct second as [|b second]; [done|].
    simpl in Hs. apply andb_prop in Hs as [Hb Hs].
    eexists. split.
    + rewrite exec_Group, exec_Cat, exec_lit, exec_Cat.
      apply exec_star_class; [done| by apply isWord_not_space |].
      rewrite exec_Cat, exec_Group, exec_Cat.
      unfold renderName. rewrite <- app_assoc. cbn [app].
      apply exec_plus_class; [done..|].
      rewrite exec_Cat. unfold opt. apply exec_Alt_left.
      rewrite exec_Group, exec_Cat, exec_is, exec_Cat.
      apply exec_plus_class; [done..|].
      rewrite exec_Empty, exec_Empty.
      apply tail_of_action; [done|]. reflexivity.
    + unfold group.
      rewrite lookup_insert_ne, lookup_insert_ne, lookup_insert_eq by done.
      rewrite lookup_insert_ne, lookup_insert_eq by done.
      split; [|done]. cbn [default].
      apply take_consumed'. unfold renderName.
      by rewrite <- app_assoc.
  - eexists. split.
    + rewrite exec_Group, exec_Cat, exec_lit, exec_Cat.
      apply exec_star_class; [done| by apply isWord_not_space |].
      rewrite exec_Cat, exec_Group, exec_Cat.
      unfold renderName. rewrite app_nil_r. cbn [app].
      apply exec_plus_class; [done..|].
      rewrite exec_Cat. unfold opt. rewrite exec_Alt_right by done.
      rewrite exec_Empty, exec_Empty.
      apply tail_of_action; [done|]. reflexivity.
    + unfold group.
      rewrite lookup_insert_ne, lookup_insert_ne, lookup_insert_eq by done.
      rewrite lookup_insert_ne, lookup_insert_eq by done.
      split; [|done]. cbn [default].
      apply take_consumed'. unfold renderName.
      by rewrite app_nil_r.
Qed.

Lemma search_hit r s x : matchAt r s = Some x -> search r s = Some x.
Proof. intros H. destruct s; simpl; by rewrite H. Qed.

End MatcherLemmas.

(** ** The bound of [matchAll] is never reached *)

Section Fuel.

Implicit Types (s : chars) (c : captures) (k : cont) (x : found).

(** A successful match hands to its continuation a suffix no longer than
    the input. *)
Lemma starLoop_consumes body k :
  (forall s c k' x, body s c k' = Some x ->
     exists s' c', k' s' c' = Some x /\ length s' <= length s) ->
  forall n s c x, starLoop body k n s c = Some x ->
  exists s' c', k s' c' = Some x /\ length s' <= length s.
Proof.
  intros Hbody. induction n as [|n IH]; intros s c x H; simpl in H.
  - eauto.
  - destruct (body s c _) as [y|] eqn:E.
    + injection H as ->. apply Hbody in E as (s1 & c1 & E & Hle).
      cbv beta in E. destruct (Nat.ltb_spec (length s1) (length s)); [|done].
      apply IH in E as (s2 & c2 & E & Hle2). exists s2, c2. split; [done|lia].
    + eauto.
Qed.

Lemma exec_consumes r : forall s c k x,
  exec r s c k = Some x ->
  exists s' c', k s' c' = Some x /\ length s' <= length s.
Proof.
  induction r as [p| |r1 IH1 r2 IH2|r1 IH1 r2 IH2|r IH|i r IH];
    intros s c k x H.
  - destruct s as [|a s]; [done|]. simpl in H.
    destruct (p a); [|done]. exists s, c. split; [done|simpl; lia].
  - eauto.
  - rewrite exec_Cat in H. apply IH1 in H as (s1 & c1 & H & Hle1).
    cbv beta in H. apply IH2 in H as (s2 & c2 & H & Hle2). exists s2, c2. split; [done|lia].
  - simpl in H. destruct (exec r1 s c k) as [y|] eqn:E.
    + injection H as ->. by apply (IH1 _ _ _ _ E).
    + by apply (IH2 _ _ _ _ H).
  - rewrite exec_Star in H. by apply (starLoop_consumes _ _ IH _ _ _ _ H).
  - rewrite exec_Group in H. apply IH in H as (s1 & c1 & H & Hle).
    cbv beta in H. eauto.
Qed.

Lemma matchAt_consumes r s rest c :
  matchAt r s = Some (rest, c) ->
  length rest <= length s /\
  (c !! 0 = Some [] \/ (length rest < length s /\ c !! 0 <> Some [])).
Proof.
  unfold matchAt. rewrite exec_Group. intros H.
  apply exec_consumes in H as (s' & c' & [= <- <-] & Hle).
  split; [done|]. rewrite lookup_insert_eq.
  destruct (decide (length s' = length s)) as [E|E].
  - left. rewrite E, Nat.sub_diag. by rewrite take_0.
  - right. split; [lia|]. intros [= H].
    apply (f_equal length) in H. rewrite length_take in H. simpl in H. lia.
Qed.

Lemma search_consumes r : forall s rest c,
  search r s = Some (rest, c) ->
  length rest <= length s /\
  (c !! 0 = Some [] \/ (length rest < length s /\ c !! 0 <> Some [])).
Proof.
  induction s as [|a s IH]; intros rest c H; cbn [search] in H.
  - destruct (matchAt r []) as [[rest' c']|] eqn:E; [|done].
    injection H as -> ->. by apply matchAt_consumes in E.
  - destruct (matchAt r (a :: s)) as [[rest' c']|] eqn:E.
    + injection H as -> ->. by apply matchAt_consumes in E.
    + apply IH in H as [Hle [H|[Hlt H]]]; simpl; (split; [lia|]);
        [by left | right; split; [lia|done]].
Qed.

(** [matchAll] never stops for lack of fuel: any larger bound gives the same
    matches. *)
Lemma matchAllFrom_fuel r : forall fuel1 fuel2 s,
  length s < fuel1 -> length s < fuel2 ->
  matchAllFrom fuel1 r s = matchAllFrom fuel2 r s.
Proof.
  induction fuel1 as [|fuel1 IH]; intros fuel2 s H1 H2; [lia|].
  destruct fuel2 as [|fuel2]; [lia|]. cbn [matchAllFrom].
  destruct (search r s) as [[rest c]|] eqn:E; [|done].
  apply search_consumes in E as [Hle Hcase].
  destruct (c !! 0) as [[|a m]|] eqn:E0.
  - destruct rest as [|b rest]; [done|]. f_equal.
    apply IH; simpl in Hle; lia.
  - destruct Hcase as [|[Hlt _]]; [done|]. f_equal. apply IH; lia.
  - destruct Hcase as [|[Hlt _]]; [done|]. f_equal. apply IH; lia.
Qed.

Lemma matchAll_fuel r s fuel :
  length s < fuel -> matchAllFrom fuel r s = matchAll r s.
Proof. intros H. unfold matchAll. apply matchAllFrom_fuel; lia. Qed.

End Fuel.

(** ** The parameter object *)

Lemma text_inj (l1 l2 : chars) : text l1 = text l2 -> l1 = l2.
Proof. intros H. by rewrite <- (str_text l1), <- (str_text l2), H. Qed.

Lemma find_snoc {A : Type} (f : A -> bool) (l : list A) (x : A) :
  List.find f (l ++ [x])
  = match List.find f l with
    | Some y => Some y
    | None => if f x then Some x else None
    end.
Proof. induction l as [|a l IH]; simpl; [done|]. by destruct (f a). Qed.

Lemma expectedParams_snoc ps p :
  expectedParams (ps ++ [p])
  = setProperty (expectedParams ps) (text (key p)) (text (unescapeQuotes (raw p))).
Proof. unfold expectedParams. by rewrite foldl_app. Qed.

(** When the keys are pairwise distinct and none is [__proto__], the object
    holds exactly the pairs: each key with its unescaped value, nothing
    else. *)
Lemma expectedParams_lookup ps :
  NoDup (map key ps) ->
  Forall (fun p => text (key p) <> "__proto__") ps ->
  forall name,
    expectedParams ps !! name
    = (fun p => text (unescapeQuotes (raw p)))
        <$> List.find (fun p => String.eqb (text (key p)) name) ps.
Proof.
  induction ps as [|p ps IH] using rev_ind; intros Hnd Hproto name; [done|].
  rewrite map_app in Hnd. apply NoDup_app in Hnd as (Hnd & Hfresh & _).
  apply Forall_app in Hproto as [Hproto Hp]. apply Forall_cons in Hp as [Hp _].
  rewrite expectedParams_snoc. unfold setProperty.
  destruct (String.eqb_spec (text (key p)) "__proto__"); [done|].
  rewrite find_snoc.
  destruct (String.eqb_spec (text (key p)) name) as [<-|Hne].
  - rewrite lookup_insert_eq.
    destruct (List.find _ ps) as [p'|] eqn:E.
    + apply find_some in E as [Hin E]. apply String.eqb_eq, text_inj in E.
      exfalso. apply (Hfresh (key p)).
      * rewrite <- E. apply list_elem_of_In, in_map, Hin.
      * simpl. left.
    + done.
  - rewrite lookup_insert_ne by done. rewrite IH by done.
    by destruct (List.find _ ps).
Qed.

(** ** The two loops: totality, counting, derivations *)

Section LoopLemmas.

Context {client : FireworksClient} {runtime : Runtime}.
Variable registry : ToolRegistry.

Lemma assoc_In {V : Type} key (l : list (string * V)) v :
  assoc key l = Some v -> In (key, v) l.
Proof.
  induction l as [|[k x] l IH]; [done|]. cbn [assoc].
  destruct (String.eqb_spec k key) as [->|]; [|by right; auto].
  intros [= ->]. by left.
Qed.

Lemma objectPrototype_settles name tool ps reason :
  assoc name objectPrototype = Some tool -> tool ps <> Rejected reason.
Proof.
  unfold objectPrototype. cbn [assoc].
  repeat (destruct (String.eqb _ name); [by intros [= <-]|]). done.
Qed.

Lemma getProperty_settles name tool ps reason :
  settlesWithMessage registry ->
  getProperty registry name = Some tool -> tool ps <> Rejected reason.
Proof.
  intros Hreg. unfold getProperty.
  destruct (assoc name registry) as [entry|] eqn:E.
  - intros [= <-]. apply assoc_In in E.
    apply list_elem_of_In in E.
    eapply Forall_forall in Hreg; [|exact E]. apply Hreg.
  - apply objectPrototype_settles.
Qed.

(** The call throws only when the tool rejects with [null] or
    [undefined]. *)
Lemma executeToolCall_throws toolCall invoked e :
  executeToolCall registry toolCall = (invoked, Throw e) ->
  exists tool reason,
    getProperty registry (toolName toolCall) = Some tool /\
    tool (params toolCall) = Rejected reason /\
    e = cannotReadMessage reason /\
    invoked = [ToolInvoked (toolName toolCall) (params toolCall)].
Proof.
  unfold executeToolCall.
  destruct (getProperty registry (toolName toolCall)) as [tool|]; [|done].
  destruct (tool (params toolCall)) as [result|message|reason] eqn:E; try done.
  intros [= <- <-]. by exists tool, reason.
Qed.

Lemma executeToolCall_recovers toolCall invoked e :
  settlesWithMessage registry ->
  executeToolCall registry toolCall <> (invoked, Throw e).
Proof.
  intros Hreg Hexec.
  apply executeToolCall_throws in Hexec as (tool & reason & Hget & Hcall & _).
  by eapply getProperty_settles.
Qed.

Lemma executeToolCall_settles toolCall :
  settlesWithMessage registry ->
  exists observation, snd (executeToolCall registry toolCall) = Ok observation.
Proof.
  intros Hreg.
  destruct (executeToolCall registry toolCall) as [invoked [obs|e]] eqn:E;
    [by eexists|].
  by apply executeToolCall_recovers in E.
Qed.

Lemma executeToolCall_effects toolCall :
  fst (executeToolCall registry toolCall) = [] \/
  fst (executeToolCall registry toolCall)
    = [ToolInvoked (toolName toolCall) (params toolCall)].
Proof.
  unfold executeToolCall. destruct (getProperty registry (toolName toolCall)); auto.
Qed.

Lemma modelCalls_app es1 es2 : modelCalls (es1 ++ es2) = modelCalls es1 + modelCalls es2.
Proof. unfold modelCalls. by rewrite List.filter_app, length_app. Qed.

Lemma modelCalls_invoked toolCall : modelCalls (fst (executeToolCall registry toolCall)) = 0.
Proof. destruct (executeToolCall_effects toolCall) as [-> | ->]; done. Qed.

Lemma conversationLoop_total fuel : forall maxTurns turns finalResponse h,
  maxTurns - turns <= fuel ->
  exists r, conversationLoop registry fuel maxTurns turns finalResponse h = Some r.
Proof.
  induction fuel as [|fuel IH]; intros maxTurns turns fr h Hfuel.
  - simpl. destruct (negb (truthy fr)); simpl; eauto.
    destruct (Nat.ltb_spec turns maxTurns); [lia|eauto].
  - cbn [conversationLoop].
    destruct (negb (truthy fr) && (turns <? maxTurns)) eqn:G; [|eauto].
    apply andb_prop in G as [_ G]. apply Nat.ltb_lt in G.
    destruct (createChatCompletion h) as [t|e]; [|by eexists].
    destruct (parseToolCall t) as [tc|].
    + destruct (executeToolCall registry tc) as [invoked [obs|e]]; [|by eexists].
      edestruct (IH maxTurns (S turns) fr) as [r ->]; [lia|]. by eexists.
    + edestruct (IH maxTurns (S turns) (Some t)) as [r ->]; [lia|]. by eexists.
Qed.

Lemma modelCalls_cons e es :
  modelCalls (e :: es) = (if isModelCall e then 1 else 0) + modelCalls es.
Proof. unfold modelCalls. simpl. destruct e; done. Qed.

Lemma conversationLoop_calls fuel : forall maxTurns turns finalResponse h r,
  conversationLoop registry fuel maxTurns turns finalResponse h = Some r ->
  turns + modelCalls (effects r) <= Nat.max turns maxTurns /\
  forall t fr, settled r = Ok (t, fr) -> t = turns + modelCalls (effects r).
Proof.
  induction fuel as [|fuel IH]; intros maxTurns turns fr h r.
  - simpl. destruct (negb (truthy fr) && (turns <? maxTurns)); [done|].
    intros [= <-]. cbn. split; [lia|]. intros t fr' [= <- _]. lia.
  - cbn [conversationLoop].
    destruct (negb (truthy fr) && (turns <? maxTurns)) eqn:G.
    2:{ intros [= <-]. cbn. split; [lia|]. intros t fr' [= <- _]. lia. }
    apply andb_prop in G as [_ G]. apply Nat.ltb_lt in G.
    destruct (createChatCompletion h) as [t|e].
    2:{ intros [= <-]. cbn. split; [lia|done]. }
    destruct (parseToolCall t) as [tc|].
    + pose proof (modelCalls_invoked tc) as Hinv.
      destruct (executeToolCall registry tc) as [invoked [obs|e]]; simpl in Hinv.
      2:{ intros [= <-]. cbn [effects settled]. rewrite modelCalls_cons, Hinv.
          cbn. split; [lia|done]. }
      destruct (conversationLoop registry fuel maxTurns (S turns) fr _) as [r'|] eqn:E; [|done].
      intros [= <-]. apply IH in E as [E1 E2]. cbn [before effects settled app].
      rewrite modelCalls_cons, !modelCalls_app, Hinv, modelCalls_cons. cbn [isModelCall].
      change (modelCalls []) with 0. split; [lia|]. intros t' fr' Hs. apply E2 in Hs. lia.
    + destruct (conversationLoop registry fuel maxTurns (S turns) (Some t) _) as [r'|] eqn:E; [|done].
      intros [= <-]. apply IH in E as [E1 E2]. cbn [before effects settled app].
      rewrite !modelCalls_cons. cbn [isModelCall].
      split; [lia|]. intros t' fr' Hs. apply E2 in Hs. lia.
Qed.


Lemma lastAssistantMessage_observed h t o :
  lastAssistantMessage ((h ++ [mkMessage assistant t]) ++ [observationMessage o])
  = Some (mkMessage assistant t).
Proof.
  unfold lastAssistantMessage. rewrite !List.filter_app. simpl.
  rewrite app_nil_r. apply last_snoc.
Qed.

Lemma conversationLoop_run fuel : forall maxTurns turns finalResponse h r,
  conversationLoop registry fuel maxTurns turns finalResponse h = Some r ->
  ConversationRun registry maxTurns turns finalResponse h r.
Proof.
  induction fuel as [|fuel IH]; intros maxTurns turns fr h r.
  - simpl. destruct (negb (truthy fr) && (turns <? maxTurns)) eqn:G; [done|].
    intros [= <-]. by constructor.
  - cbn [conversationLoop].
    destruct (negb (truthy fr) && (turns <? maxTurns)) eqn:G.
    2:{ intros [= <-]. by constructor. }
    destruct (createChatCompletion h) as [t|e] eqn:Ht.
    2:{ intros [= <-]. by constructor. }
    destruct (parseToolCall t) as [tc|] eqn:Htc.
    + destruct (executeToolCall registry tc) as [invoked [obs|e]] eqn:Hexec.
      2:{ intros [= <-]. by eapply conv_tool_throws. }
      destruct (conversationLoop registry fuel maxTurns (S turns) fr _)
        as [r'|] eqn:E; [|done].
      intros [= <-]. apply IH in E. by eapply conv_tool.
    + destruct (conversationLoop registry fuel maxTurns (S turns) (Some t) _)
        as [r'|] eqn:E; [|done].
      intros [= <-]. apply IH in E. by eapply conv_answer.
Qed.

Lemma streamLoop_total fuel : forall maxTurns turns h,
  maxTurns - turns <= fuel ->
  exists r, streamLoop registry fuel maxTurns turns h = Some r.
Proof.
  induction fuel as [|fuel IH]; intros maxTurns turns h Hfuel.
  - simpl. destruct (Nat.ltb_spec turns maxTurns); [lia|by eexists].
  - cbn [streamLoop].
    destruct (Nat.ltb_spec turns maxTurns) as [G|]; [|by eexists].
    destruct (createChatCompletionStream h) as [chunks [e|]]; [by eexists|].
    destruct (parseToolCall _) as [tc|]; [|by eexists].
    destruct (executeToolCall registry tc) as [invoked [obs|e]].
    + edestruct (IH maxTurns (S turns)) as [r ->]; [lia|]. by eexists.
    + edestruct (IH maxTurns (S turns)) as [r ->]; [lia|]. by eexists.
Qed.

Lemma streamLoop_run fuel : forall maxTurns turns h r,
  streamLoop registry fuel maxTurns turns h = Some r ->
  StreamRun registry maxTurns turns h r.
Proof.
  induction fuel as [|fuel IH]; intros maxTurns turns h r.
  - simpl. destruct (turns <? maxTurns) eqn:G; [done|].
    intros [= <-]. by constructor.
  - cbn [streamLoop].
    destruct (turns <? maxTurns) eqn:G.
    2:{ intros [= <-]. by constructor. }
    destruct (createChatCompletionStream h) as [chunks [e|]] eqn:Hs.
    { intros [= <-]. by eapply stream_provider_fails. }
    destruct (parseToolCall _) as [tc|] eqn:Htc.
    + destruct (executeToolCall registry tc) as [invoked [obs|e]] eqn:Hexec.
      * destruct (streamLoop registry fuel maxTurns (S turns) _) as [r'|] eqn:E;
          [|done].
        intros [= <-]. apply IH in E. by eapply stream_tool.
      * destruct (streamLoop registry fuel maxTurns (S turns) _) as [r'|] eqn:E;
          [|done].
        intros [= <-]. apply IH in E. by eapply stream_tool_throws.
    + intros [= <-]. by eapply stream_answer.
Qed.

End LoopLemmas.

Lemma split_after_block (block rest pre post : list Effect) (x : Effect) :
  Forall (fun e => isModelCall e = false) block ->
  isModelCall x = true ->
  block ++ rest = pre ++ x :: post ->
  exists pre', pre = block ++ pre' /\ rest = pre' ++ x :: post.
Proof.
  revert pre. induction block as [|e block IH]; intros pre Hblock Hx E.
  - by exists pre.
  - apply Forall_cons in Hblock as [He Hblock].
    destruct pre as [|e' pre]; simplify_eq/=; [congruence|].
    destruct (IH pre Hblock Hx) as (pre' & -> & ->); [done|]. by exists pre'.
Qed.

(** ** Properties of every run, by induction on its derivation *)

Section RunLemmas.

Context {client : FireworksClient} {runtime : Runtime}.
Variable registry : ToolRegistry.





Lemma invoked_only toolCall invoked outcome e :
  executeToolCall registry toolCall = (invoked, outcome) ->
  In e invoked -> e = ToolInvoked (toolName toolCall) (params toolCall).
Proof.
  intros H. pose proof (executeToolCall_effects registry toolCall) as [E|E];
    rewrite H in E; simpl in E; subst invoked; simpl; intuition.
Qed.

Lemma streamed_only h chunks e :
  In e (streamed h chunks) ->
  e = ModelCalled h \/ exists c, e = Yielded (EvAssistant c).
Proof.
  unfold streamed. intros [<-|H]; [by left|]. right.
  apply in_map_iff in H as (c & <- & _). eauto.
Qed.






Lemma modelCalls_streamed h chunks : modelCalls (streamed h chunks) = 1.
Proof.
  unfold streamed. rewrite modelCalls_cons. cbn [isModelCall].
  induction (chunkContents chunks) as [|c cs IH]; [done|].
  cbn [map]. by rewrite modelCalls_cons.
Qed.


Lemma conversation_history maxTurns turns finalResponse h r :
  ConversationRun registry maxTurns turns finalResponse h r ->
  exists later, history r = h ++ later.
Proof.
  intros Hrun.
  induction Hrun as [turns fr h G | turns fr h e G Ht
                 | turns fr h t tc invoked obs r G Ht Htc Hexec Hr IH
                 | turns fr h t tc invoked ex G Ht Htc Hexec
                 | turns fr h t r G Ht Htc Hr IH]; cbn [before history].
  - exists []. by rewrite app_nil_r.
  - exists []. by rewrite app_nil_r.
  - destruct IH as [later ->]. rewrite <- !app_assoc. eauto.
  - eauto.
  - destruct IH as [later ->]. rewrite <- !app_assoc. eauto.
Qed.

Lemma stream_history maxTurns turns h r :
  StreamRun registry maxTurns turns h r ->
  exists later, history r = h ++ later.
Proof.
  intros Hrun.
  induction Hrun as [turns h G | turns h chunks e G Hs
                 | turns h chunks tc invoked obs r G Hs Htc Hexec Hr IH
                 | turns h chunks tc invoked ex r G Hs Htc Hexec Hr IH
                 | turns h chunks G Hs Htc];
    cbn [before history afterStreamLoop].
  - exists []. by rewrite app_nil_r.
  - exists []. by rewrite app_nil_r.
  - destruct IH as [later ->]. rewrite <- !app_assoc. eauto.
  - destruct IH as [later ->]. rewrite <- !app_assoc. eauto.
  - eauto.
Qed.

Lemma terminalEvents_app es1 es2 :
  terminalEvents (es1 ++ es2) = terminalEvents es1 ++ terminalEvents es2.
Proof. unfold terminalEvents, events. by rewrite omap_app, List.filter_app. Qed.

Lemma terminalEvents_streamed h chunks : terminalEvents (streamed h chunks) = [].
Proof.
  unfold streamed, terminalEvents, events. cbn [omap list_omap].
  induction (chunkContents chunks) as [|c cs IH]; [done|]. by simpl.
Qed.

Lemma terminalEvents_invoked toolCall :
  terminalEvents (fst (executeToolCall registry toolCall)) = [].
Proof. destruct (executeToolCall_effects registry toolCall) as [-> | ->]; done. Qed.

(** The terminal events of a stream that ends normally: one [complete] when
    the answer comes before the last turn, [complete] and then [error] when
    it comes on the last turn, one [error] when no answer comes. *)
Lemma stream_terminal_events maxTurns turns h r :
  settlesWithMessage registry ->
  StreamRun registry maxTurns turns h r ->
  turns <= maxTurns -> settled r = Ok tt ->
  (terminalEvents (effects r) = [EvError streamMaxTurns] /\
   turns + modelCalls (effects r) = maxTurns) \/
  (exists c, terminalEvents (effects r) = [EvComplete c] /\
             turns + modelCalls (effects r) < maxTurns) \/
  (exists c, terminalEvents (effects r) = [EvComplete c; EvError streamMaxTurns] /\
             turns + modelCalls (effects r) = maxTurns).
Proof.
  intros Hreg Hrun.
  induction Hrun as [turns h G | turns h chunks e G Hs
                 | turns h chunks tc invoked obs r G Hs Htc Hexec Hr IH
                 | turns h chunks tc invoked ex r G Hs Htc Hexec Hr IH
                 | turns h chunks G Hs Htc]; intros Hle Hok;
    cbn [before effects settled afterStreamLoop] in *.
  - apply Nat.ltb_ge in G. left.
    destruct (Nat.leb_spec maxTurns turns); [|lia]. split; [done|]. cbn. lia.
  - done.
  - apply Nat.ltb_lt in G.
    assert (Hinv : modelCalls invoked = 0).
    { pose proof (modelCalls_invoked registry tc) as E. by rewrite Hexec in E. }
    assert (Hterm : terminalEvents invoked = []).
    { pose proof (terminalEvents_invoked tc) as E. by rewrite Hexec in E. }
    rewrite !terminalEvents_app, terminalEvents_streamed, Hterm.
    rewrite !modelCalls_app, modelCalls_streamed, Hinv.
    change (terminalEvents [_]) with (@nil StreamEvent).
    change (terminalEvents [_; _]) with (@nil StreamEvent).
    change (modelCalls [_]) with 0. change (modelCalls [_; _]) with 0.
    cbn [app].
    destruct (IH ltac:(lia) Hok) as [[? ?]|[(c & ? & ?)|(c & ? & ?)]].
    + left. split; [done|lia].
    + right. left. exists c. split; [done|lia].
    + right. right. exists c. split; [done|lia].
  - exfalso. by eapply executeToolCall_recovers.
  - apply Nat.ltb_lt in G.
    rewrite !terminalEvents_app, terminalEvents_streamed.
    rewrite !modelCalls_app, modelCalls_streamed.
    right.
    destruct (Nat.leb_spec maxTurns (S turns)).
    + right. eexists. split; [reflexivity|]. cbn. lia.
    + left. eexists. split; [reflexivity|]. cbn. lia.
Qed.








Lemma assistantYields_plain (contents : list string) :
  Forall (fun e => isModelCall e = false)
         (map (fun c => Yielded (EvAssistant c)) contents).
Proof. induction contents; by constructor. Qed.

Lemma invoked_plain toolCall invoked outcome :
  executeToolCall registry toolCall = (invoked, outcome) ->
  Forall (fun e => isModelCall e = false) invoked.
Proof.
  intros H. pose proof (executeToolCall_effects registry toolCall) as [E|E];
    rewrite H in E; simpl in E; subst invoked; by repeat constructor.
Qed.


End RunLemmas.

(** ** The order of the effects inside the groups *)





(** * The claims *)

(** ** C1: a second instruction on the same session *)

Lemma resolveAgent_existing (svc : AgentService) (sid : string) (agent : Agent)
    (freshId : string) :
  sid <> "" -> sessions svc !! sid = Some agent ->
  resolveAgent svc (Some sid) freshId = (agent, sid, svc, false).
Proof.
  intros Hsid Hagent. unfold resolveAgent. simpl.
  destruct (String.eqb_spec sid ""); [done|]. simpl. by rewrite Hagent.
Qed.

(** C1, as the code has it.  A second instruction with the id of a stored
    session reuses that session's agent: no session is created, no
    [session] event is emitted and the same id is returned.  Its
    Conversation State is started again: after the call the stored history
    is the one of a conversation begun from the system message and the new
    instruction, whatever the history was before. *)
Theorem session_reuse_restarts_history {client : FireworksClient}
    {runtime : Runtime} (svc : AgentService) (sid : string) (agent : Agent)
    (instruction : string) (freshId : string) :
  sid <> "" -> instruction <> "" ->
  sessions svc !! sid = Some agent ->
  let registry := toolRegistry svc in
  (exists r run,
     processInstruction svc (Some sid) (Some instruction) freshId = Some r /\
     continueConversation registry (initialHistory registry instruction)
       maxTurnsDefault = Some run /\
     sessions (service r)
       = <[sid := mkAgent (history run) (sessionId agent)]> (sessions svc) /\
     produced r = effects run /\
     (forall response, settled run = Ok response ->
                       answer r = Ok (sid, response)) /\
     exists later, history run = initialHistory registry instruction ++ later) /\
  (exists r run,
     processInstructionStream svc (Some sid) (Some instruction) freshId = Some r /\
     streamLoop registry maxTurnsDefault maxTurnsDefault 0
       (initialHistory registry instruction) = Some run /\
     sessions (service r)
       = <[sid := mkAgent (history run) (sessionId agent)]> (sessions svc) /\
     produced r = effects run /\
     exists later, history run = initialHistory registry instruction ++ later).
Proof.
  intros Hsid Hinstr Hagent registry.
  assert (Htruthy : truthy (Some instruction) = true).
  { cbn [truthy]. by destruct (String.eqb_spec instruction ""). }
  assert (Hresolve : resolveAgent (ensureInitialized svc) (Some sid) freshId
                     = (agent, sid, ensureInitialized svc, false)).
  { by apply resolveAgent_existing. }
  split.
  - unfold processInstruction. rewrite Htruthy, Hresolve. cbn [negb].
    unfold ACP.processUserInstruction.
    destruct instruction as [|a i]; [done|].
    unfold continueConversation. cbn [toolRegistry ensureInitialized].
    fold registry.
    destruct (conversationLoop_total registry maxTurnsDefault maxTurnsDefault
                0 None (initialHistory registry (String a i)))
      as [r0 Hr0]; [lia|].
    rewrite Hr0. eexists _, _. split; [reflexivity|]. split; [reflexivity|].
    cbn [service produced answer history effects settled storeHistory
         setSession sessions ensureInitialized].
    split; [done|]. split; [done|]. split.
    + by intros response ->.
    + apply conversationLoop_run in Hr0.
      by eapply conversation_history.
  - unfold processInstructionStream. rewrite Htruthy, Hresolve. cbn [negb].
    unfold ACP.processInstructionStream.
    destruct instruction as [|a i]; [done|].
    cbn [toolRegistry ensureInitialized]. fold registry.
    destruct (streamLoop_total registry maxTurnsDefault maxTurnsDefault 0
                (initialHistory registry (String a i))) as [r0 Hr0]; [lia|].
    rewrite Hr0. eexists _, _. split; [reflexivity|]. split; [reflexivity|].
    cbn [service produced answer history effects settled storeHistory
         setSession sessions ensureInitialized app].
    split; [done|]. split; [done|].
    apply streamLoop_run in Hr0. by eapply stream_history.
Qed.

Lemma session_reuse_restarts_history_witness :
  exists r,
    processInstruction (client := Stubs.always "Answer: done")
      (runtime := Stubs.engine) Stubs.oneSession (Some "session-1")
      (Some "second") "session-2" = Some r /\
    answer r = Ok ("session-1", "Answer: done") /\
    getSessionInfo (service r) (Some "session-1")
      = Ok ("session-1",
            initialHistory Stubs.noTools "second" ++
            [mkMessage assistant "Answer: done"]).
Proof.
  destruct (session_reuse_restarts_history
              (client := Stubs.always "Answer: done") (runtime := Stubs.engine)
              Stubs.oneSession "session-1"
              (mkAgent (initialHistory Stubs.noTools "first" ++
                        [mkMessage assistant "Answer: done"]) "session-1")
              "second" "session-2")
    as [(r & run & Hr & Hrun & Hsessions & _ & Hanswer & _) _].
  - discriminate.
  - discriminate.
  - vm_compute. reflexivity.
  - exists r. split; [exact Hr|].
    assert (Erun : run = mkRun
              [ModelCalled (initialHistory Stubs.noTools "second");
               TurnCompleted (initialHistory Stubs.noTools "second" ++
                              [mkMessage assistant "Answer: done"])]
              (initialHistory Stubs.noTools "second" ++
               [mkMessage assistant "Answer: done"])
              (Ok "Answer: done")).
    { vm_compute in Hrun. injection Hrun as <-. vm_compute. reflexivity. }
    subst run. split; [by apply Hanswer|].
    unfold getSessionInfo. cbn [truthy String.eqb Ascii.eqb Bool.eqb negb default from_option id].
    rewrite Hsessions. by rewrite lookup_insert_eq.
Defined.

(** C1 as stated fails: the second call on a session replaces its history.
    After the first instruction the session holds three messages; after
    the second it holds three messages again, and the first instruction is
    gone. *)
Lemma session_reuse_replaces_history :
  exists r1 r2 h1 h2,
    processInstruction (client := Stubs.always "Answer: done")
      (runtime := Stubs.engine) Stubs.emptyService None (Some "first")
      "session-1" = Some r1 /\
    answer r1 = Ok ("session-1", "Answer: done") /\
    processInstruction (client := Stubs.always "Answer: done")
      (runtime := Stubs.engine) (service r1) (Some "session-1")
      (Some "second") "session-2" = Some r2 /\
    getSessionInfo (service r1) (Some "session-1") = Ok ("session-1", h1) /\
    getSessionInfo (service r2) (Some "session-1") = Ok ("session-1", h2) /\
    ~ (length h1 < length h2) /\
    ~ (h1 `prefix_of` h2).
Proof.
  eexists _, _, _, _.
  split; [vm_compute; reflexivity|].
  split; [vm_compute; reflexivity|].
  split; [vm_compute; reflexivity|].
  split; [vm_compute; reflexivity|].
  split; [vm_compute; reflexivity|].
  split; [simpl; lia|].
  intros [k Hk]. discriminate Hk.
Qed.

(** ** C2: the terminal events of a stream *)

(** Every stream that ends normally, on a registry none of whose tools
    rejects with [null] or [undefined], has one terminal event, except when
    the answer arrives on the last turn: then it has two. *)
Lemma processInstructionStream_terminal_events {client : FireworksClient}
    {runtime : Runtime} (registry : ToolRegistry) (h0 : list Message)
    (instruction : option string) (r : Run unit) :
  settlesWithMessage registry ->
  ACP.processInstructionStream registry h0 instruction = Some r ->
  settled r = Ok tt ->
  (terminalEvents (effects r) = [EvError streamMaxTurns] /\
   modelCalls (effects r) = maxTurnsDefault) \/
  (exists c, terminalEvents (effects r) = [EvComplete c] /\
             modelCalls (effects r) < maxTurnsDefault) \/
  (exists c, terminalEvents (effects r) = [EvComplete c; EvError streamMaxTurns] /\
             modelCalls (effects r) = maxTurnsDefault).
Proof.
  intros Hreg Hr Hok. unfold ACP.processInstructionStream in Hr.
  destruct instruction as [[|a i]|]; try (by injection Hr as <-).
  apply streamLoop_run in Hr.
  by apply (stream_terminal_events registry _ _ _ _ Hreg Hr ltac:(lia) Hok).
Qed.

(** C2 fails on the code when the answer arrives on the last turn: after
    fourteen tool calls and an answer on the fifteenth turn the drained
    generator has yielded [complete] and then [error]. *)
Theorem stream_answer_on_last_turn :
  exists r,
    ACP.processInstructionStream
      (client := Stubs.scripted 30 "Action: t()" "Answer: done")
      (runtime := Stubs.engine) Stubs.noTools [] (Some "go") = Some r /\
    settled r = Ok tt /\
    modelCalls (effects r) = 15 /\
    terminalEvents (effects r)
      = [EvComplete "Answer: done"; EvError "Maximum conversation turns reached."].
Proof.
  eexists. split; [vm_compute; reflexivity|].
  repeat split; vm_compute; reflexivity.
Qed.

(** ** C3: the action parser on a well-formed action line *)

(** C3, as the code has it.  Let the response hold [Action:] followed by
    white space, a name (an identifier or two identifiers joined by a dot),
    an opening parenthesis, a list of [key="value"] pairs and a closing
    parenthesis, where each key is an identifier, each value has no bare
    quote, no closing parenthesis and no backslash before a line terminator
    or the closing quote, and the characters around the pairs are neither
    word characters nor closing parentheses; and let the action expression
    match at no earlier position (as when this is the first occurrence of
    [Action:], lemma [noMatchBefore_first_occurrence]).  Then
    [parseToolCall] returns that name and the object the pairs build when
    assigned in order, each value with every backslash-quote replaced by a
    quote (an assignment to the key [__proto__] leaves the object
    unchanged). *)
Theorem parseToolCall_wellFormed pre ws first second leading ps post :
  noMatchBefore actionRe (renderAction pre ws first second leading ps post)
    (length pre) = true ->
  forallb isSpace ws = true ->
  wellFormedName first second = true ->
  noWord leading = true -> noParen leading = true ->
  forallb wellFormedParam ps = true ->
  parseToolCall (text (renderAction pre ws first second leading ps post))
  = Some (mkToolCall (text (renderName first second)) (expectedParams ps)).
Proof.
  intros Hfirst Hws Hname Hlw Hlp Hps.
  unfold parseToolCall, jsMatch. rewrite str_text.
  unfold renderAction in *. rewrite search_skip by done.
  destruct (matchAt_actionRe ws first second (renderArgs leading ps) post)
    as (c & Hc & H1 & H3); [done.. | by apply noParen_renderArgs |].
  rewrite (search_hit _ _ _ Hc). cbn [fmap option_fmap option_map snd].
  rewrite H1, H3, matchAll_params by done.
  by rewrite foldl_params.
Qed.

(** The sample of the specification, after an [Action:] that is no action
    line, with a second value that holds an escaped quote. *)
Lemma parseToolCall_wellFormed_witness :
  parseToolCall
    (text (renderAction (str ("Thought: no Action: yet" +:+ nl)) (str " ")
             (str "browser") (Some (str "search")) []
             [mkParam (str "query") (str "artificial intelligence news")
                      (str ", ");
              mkParam (str "note") (str ("a\" +:+ q +:+ "b")) []] []))
  = Some (mkToolCall "browser.search"
            (<["note" := "a" +:+ q +:+ "b"]>
               (<["query" := "artificial intelligence news"]> ∅))).
Proof.
  apply (parseToolCall_wellFormed (str ("Thought: no Action: yet" +:+ nl)) (str " ")
           (str "browser") (Some (str "search")) []
           [mkParam (str "query") (str "artificial intelligence news")
                    (str ", ");
            mkParam (str "note") (str ("a\" +:+ q +:+ "b")) []] []);
    vm_compute; reflexivity.
Defined.

(** An occurrence of [Action:] that the expression does not match is passed
    over: the later, well-formed one is honored. *)
Lemma parseToolCall_skips_unmatched_action :
  parseToolCall "Action: none yet. Action: g()" = Some (mkToolCall "g" ∅).
Proof. vm_compute. reflexivity. Qed.

(** C3 as stated fails: a value that contains a closing parenthesis ends the
    argument list early, and no parameter is recovered. *)
Lemma parseToolCall_paren_in_value :
  parseToolCall ("Action: f(k=" +:+ q +:+ "a)b" +:+ q +:+ ")")
    = Some (mkToolCall "f" ∅) /\
  parseToolCall ("Action: f(k=" +:+ q +:+ "a)b" +:+ q +:+ ")")
    <> Some (mkToolCall "f" {[ "k" := "a)b" ]}).
Proof.
  assert (E : parseToolCall ("Action: f(k=" +:+ q +:+ "a)b" +:+ q +:+ ")")
              = Some (mkToolCall "f" ∅)) by (vm_compute; reflexivity).
  split; [exact E|]. rewrite E. intros H.
  apply (f_equal (fun o => tc ← o; params tc !! "k")) in H.
  cbn [mbind option_bind params] in H.
  by rewrite lookup_empty, lookup_singleton_eq in H.
Qed.

(** ** C4: the turn budget of the buffered loop *)

(** C4 fails on the code when a tool rejects with [null]: the [catch]
    clause of [executeToolCall] reads [error.message], which throws, and
    [continueConversation] calls [executeToolCall] outside any [try].  With
    a model that asks for such a tool on every turn the call throws after
    one request; with a model that asks for a tool on each of the fifteen
    turns, and for such a tool on the last, it throws after fifteen requests
    instead of returning the last assistant text with the note. *)
Theorem continueConversation_aborts_on_rejected_tool :
  exists r1 r15,
    continueConversation (client := Stubs.always "Action: browser.close()")
      (runtime := Stubs.engine) Examples.crashing
      (initialHistory Examples.crashing "go") 15 = Some r1 /\
    modelCalls (effects r1) = 1 /\
    settled r1 = Throw "Cannot read properties of null (reading 'message')" /\
    continueConversation
      (client := Stubs.scripted 30 "Action: browser.open()"
                   "Action: browser.close()")
      (runtime := Stubs.engine) Examples.crashing
      (initialHistory Examples.crashing "go") 15 = Some r15 /\
    modelCalls (effects r15) = 15 /\
    (forall h', In (ModelCalled h') (effects r15) ->
       exists t toolCall,
         createChatCompletion
           (FireworksClient := Stubs.scripted 30 "Action: browser.open()"
                                 "Action: browser.close()") h' = Ok t /\
         parseToolCall t = Some toolCall) /\
    settled r15 = Throw "Cannot read properties of null (reading 'message')".
Proof.
  eexists _, _.
  split; [vm_compute; reflexivity|]. split; [vm_compute; reflexivity|].
  split; [vm_compute; reflexivity|]. split; [vm_compute; reflexivity|].
  split; [vm_compute; reflexivity|]. split; [|vm_compute; reflexivity].
  intros h' _. cbn [createChatCompletion Stubs.scripted].
  destruct (length h' <? 30); eexists _, _;
    (split; [reflexivity | vm_compute; reflexivity]).
Qed.

(** ** C5: the buffered answer and the [complete] event *)

(** C5 fails on the code when the model's answer is the empty text: the
    stream completes with it on the first turn, the buffered loop takes it
    for no answer yet, asks the model fifteen times and returns the note. *)
Theorem buffered_and_streamed_differ_on_empty_answer :
  exists rb rs,
    ACP.processUserInstruction (client := Stubs.always "")
      (runtime := Stubs.engine) Stubs.noTools [] (Some "go") = Some rb /\
    ACP.processInstructionStream (client := Stubs.always "")
      (runtime := Stubs.engine) Stubs.noTools [] (Some "go") = Some rs /\
    events (effects rs) = [EvComplete ""] /\
    modelCalls (effects rs) = 1 /\
    settled rb = Ok noteMaxTurns /\
    modelCalls (effects rb) = 15.
Proof.
  eexists _, _. split; [vm_compute; reflexivity|].
  split; [vm_compute; reflexivity|].
  repeat split; vm_compute; reflexivity.
Qed.

(** ** C6: a tool name that is not registered *)

(** When the name is neither a key of the registry nor a member inherited
    from [Object.prototype], no tool is invoked and the observation names
    the requested tool and lists the registered names in registry order. *)
Lemma executeToolCall_unknown {runtime : Runtime} (registry : ToolRegistry)
    (toolCall : ToolCall) :
  assoc (toolName toolCall) registry = None ->
  assoc (toolName toolCall) objectPrototype = None ->
  executeToolCall registry toolCall
  = ([], Ok ("Error: Tool " +:+ q +:+ toolName toolCall +:+ q +:+
             " not found. Available tools are: " +:+
             join ", " (map fst registry))).
Proof.
  intros Hown Hinherited. unfold executeToolCall, getProperty.
  by rewrite Hown, Hinherited.
Qed.

(** C6 fails on the code for the names a plain object inherits: [toString]
    is not a key of the registry, yet the lookup finds the inherited member,
    calls it, and the observation names neither the requested tool nor the
    registered ones. *)
Theorem executeToolCall_inherited_name (runtime : Runtime) :
  assoc "toString" Stubs.twoTools = None /\
  parseToolCall "Action: toString()" = Some (mkToolCall "toString" ∅) /\
  executeToolCall Stubs.twoTools (mkToolCall "toString" ∅)
  = ([ToolInvoked "toString" ∅], Ok "[object Undefined]").
Proof. split; [done|]. split; [vm_compute; reflexivity|done]. Qed.

(** ** C7: a tool that raises *)

Lemma conversationLoop_starts {client : FireworksClient} {runtime : Runtime}
    registry fuel maxTurns turns finalResponse h r :
  truthy finalResponse = false -> turns < maxTurns ->
  conversationLoop registry fuel maxTurns turns finalResponse h = Some r ->
  exists rest, effects r = ModelCalled h :: rest.
Proof.
  intros Hfr Hlt. apply Nat.ltb_lt in Hlt.
  destruct fuel as [|fuel]; cbn [conversationLoop]; rewrite Hfr, Hlt;
    cbn [negb andb]; [done|].
  destruct (createChatCompletion h) as [t|e]; [|intros [= <-]; by eexists].
  destruct (parseToolCall t) as [tc|].
  - destruct (executeToolCall registry tc) as [invoked [obs|e]];
      [|intros [= <-]; by eexists].
    destruct (conversationLoop _ _ _ _ _ _) as [r'|]; [|done].
    intros [= <-]. by eexists.
  - destruct (conversationLoop _ _ _ _ _ _) as [r'|]; [|done].
    intros [= <-]. by eexists.
Qed.

Lemma streamLoop_starts {client : FireworksClient} {runtime : Runtime}
    registry fuel maxTurns turns h r :
  turns < maxTurns ->
  streamLoop registry fuel maxTurns turns h = Some r ->
  exists rest, effects r = ModelCalled h :: rest.
Proof.
  intros Hlt. apply Nat.ltb_lt in Hlt.
  destruct fuel as [|fuel]; cbn [streamLoop]; rewrite Hlt; [done|].
  destruct (createChatCompletionStream h) as [chunks [e|]];
    [intros [= <-]; by eexists|].
  destruct (parseToolCall _) as [tc|]; [|intros [= <-]; by eexists].
  destruct (executeToolCall registry tc) as [invoked [obs|e]];
    (destruct (streamLoop _ _ _ _ _) as [r'|]; [|done]);
    intros [= <-]; by eexists.
Qed.

(** C7.  When the registered tool of a tool call raises an error with
    message [m], [executeToolCall] invokes it once and returns the text
    [Error executing tool <name>: <m>].  In both modes the loop does not
    abort there: the iteration appends the assistant text and that
    observation as a user message, and the run of the loop is these effects
    (in streaming mode with a [toolCall] and an [observation] event)
    followed by the run of the loop from the next turn on that state, which
    exists; when the budget is not used up the next turn starts by sending
    the state, observation included, to the model. *)
Theorem tool_failure_becomes_observation {client : FireworksClient}
    {runtime : Runtime} (registry : ToolRegistry) (name : string) (tool : Tool)
    (ps : gmap string string) (m : string) :
  assoc name registry = Some tool ->
  call tool ps = Raised m ->
  let observation := "Error executing tool " +:+ name +:+ ": " +:+ m in
  executeToolCall registry (mkToolCall name ps)
    = ([ToolInvoked name ps], Ok observation) /\
  (forall fuel maxTurns turns finalResponse h t,
     truthy finalResponse = false -> turns < maxTurns ->
     maxTurns - S turns <= fuel ->
     createChatCompletion h = Ok t ->
     parseToolCall t = Some (mkToolCall name ps) ->
     let h2 := (h ++ [mkMessage assistant t]) ++
               [mkMessage user ("Observation: " +:+ observation)] in
     exists next,
       conversationLoop registry fuel maxTurns (S turns) finalResponse h2
         = Some next /\
       conversationLoop registry (S fuel) maxTurns turns finalResponse h
         = Some (before [ModelCalled h; ToolInvoked name ps; TurnCompleted h2]
                        next) /\
       (S turns < maxTurns ->
        exists rest, effects next = ModelCalled h2 :: rest)) /\
  (forall fuel maxTurns turns h chunks,
     turns < maxTurns ->
     maxTurns - S turns <= fuel ->
     createChatCompletionStream h = (chunks, None) ->
     parseToolCall (concatStrings (chunkContents chunks))
       = Some (mkToolCall name ps) ->
     let h2 := (h ++ [mkMessage assistant
                        (concatStrings (chunkContents chunks))]) ++
               [mkMessage user ("Observation: " +:+ observation)] in
     exists next,
       streamLoop registry fuel maxTurns (S turns) h2 = Some next /\
       streamLoop registry (S fuel) maxTurns turns h
         = Some (before (streamed h chunks ++
                         [Yielded (EvToolCall name ps); ToolInvoked name ps;
                          Yielded (EvObservation observation);
                          TurnCompleted h2]) next) /\
       (S turns < maxTurns ->
        exists rest, effects next = ModelCalled h2 :: rest)).
Proof.
  intros Hreg Hcall observation.
  assert (Hexec : executeToolCall registry (mkToolCall name ps)
                  = ([ToolInvoked name ps], Ok observation)).
  { unfold executeToolCall, getProperty. cbn [toolName params].
    by rewrite Hreg, Hcall. }
  split; [exact Hexec|]. split.
  - intros fuel maxTurns turns fr h t Hfr Hlt Hfuel Ht Htc h2.
    destruct (conversationLoop_total registry fuel maxTurns (S turns) fr h2
                Hfuel) as [next Hnext].
    exists next. split; [exact Hnext|]. split.
    + cbn [conversationLoop]. rewrite Hfr.
      destruct (Nat.ltb_spec turns maxTurns); [|lia].
      cbn [negb andb]. rewrite Ht, Htc, Hexec.
      subst h2. unfold observationMessage. by rewrite Hnext.
    + intros Hmore. by eapply conversationLoop_starts.
  - intros fuel maxTurns turns h chunks Hlt Hfuel Hs Htc h2.
    destruct (streamLoop_total registry fuel maxTurns (S turns) h2 Hfuel)
      as [next Hnext].
    exists next. split; [exact Hnext|]. split.
    + cbn [streamLoop].
      destruct (Nat.ltb_spec turns maxTurns); [|lia].
      rewrite Hs, Htc, Hexec. cbn [toolName params].
      subst h2. unfold observationMessage. rewrite Hnext.
      cbn [fmap option_fmap option_map].
      do 2 f_equal. by rewrite <- app_assoc.
    + intros Hmore. by eapply streamLoop_starts.
Qed.

(** The run of the examples: the tool raises on the first turn, the model
    answers on the second. *)
Lemma tool_failure_becomes_observation_witness :
  executeToolCall (runtime := Stubs.engine) Stubs.twoTools
    (mkToolCall "browser.search" ∅)
  = ([ToolInvoked "browser.search" ∅],
     Ok "Error executing tool browser.search: network down") /\
  (exists next,
     conversationLoop
       (client := Stubs.scripted 4 "Action: browser.search()" "Answer: none")
       (runtime := Stubs.engine) Stubs.twoTools 14 15 1 None
       Stubs.twoTurnState = Some next /\
     conversationLoop
       (client := Stubs.scripted 4 "Action: browser.search()" "Answer: none")
       (runtime := Stubs.engine) Stubs.twoTools 15 15 0 None
       (initialHistory Stubs.twoTools "find it")
     = Some (before [ModelCalled (initialHistory Stubs.twoTools "find it");
                     ToolInvoked "browser.search" ∅;
                     TurnCompleted Stubs.twoTurnState] next) /\
     (1 < 15 -> exists rest,
        effects next = ModelCalled Stubs.twoTurnState :: rest)) /\
  (exists next,
     streamLoop
       (client := Stubs.scripted 4 "Action: browser.search()" "Answer: none")
       (runtime := Stubs.engine) Stubs.twoTools 14 15 1 Stubs.twoTurnState
     = Some next /\
     streamLoop
       (client := Stubs.scripted 4 "Action: browser.search()" "Answer: none")
       (runtime := Stubs.engine) Stubs.twoTools 15 15 0
       (initialHistory Stubs.twoTools "find it")
     = Some (before
               [ModelCalled (initialHistory Stubs.twoTools "find it");
                Yielded (EvAssistant "Action: browser.search()");
                Yielded (EvToolCall "browser.search" ∅);
                ToolInvoked "browser.search" ∅;
                Yielded (EvObservation
                           "Error executing tool browser.search: network down");
                TurnCompleted Stubs.twoTurnState] next) /\
     (1 < 15 -> exists rest,
        effects next = ModelCalled Stubs.twoTurnState :: rest)).
Proof.
  pose proof (tool_failure_becomes_observation
                (client := Stubs.scripted 4 "Action: browser.search()"
                             "Answer: none")
                (runtime := Stubs.engine) Stubs.twoTools "browser.search"
                (mkTool "" (fun _ => Raised "network down")) ∅
                "network down" eq_refl eq_refl) as (Hexec & Hb & Hs).
  split; [exact Hexec|]. split.
  - apply (Hb 14 15 0 None (initialHistory Stubs.twoTools "find it")
              "Action: browser.search()");
      [reflexivity | lia | lia | reflexivity | vm_compute; reflexivity].
  - apply (Hs 14 15 0 (initialHistory Stubs.twoTools "find it")
              [Some "Action: browser.search()"]);
      [lia | lia | reflexivity | vm_compute; reflexivity].
Defined.

(** ** C8: an empty or absent instruction *)

(** C8.  With an empty or absent instruction both operations of the service
    throw [Instruction is required] before anything else happens: no model
    call, no event, and the session store is the one before the call. *)
Theorem empty_instruction_rejected {client : FireworksClient}
    {runtime : Runtime} (svc : AgentService) (requested : option string)
    (instruction : option string) (freshId : string) :
  truthy instruction = false ->
  (exists r, processInstruction svc requested instruction freshId = Some r /\
             answer r = Throw "Instruction is required" /\
             produced r = [] /\ sessions (service r) = sessions svc) /\
  (exists r, processInstructionStream svc requested instruction freshId = Some r /\
             answer r = Throw "Instruction is required" /\
             produced r = [] /\ sessions (service r) = sessions svc).
Proof.
  intros H. unfold processInstruction, processInstructionStream.
  rewrite H. cbn [negb]. split; by eexists.
Qed.

Lemma empty_instruction_rejected_witness :
  exists r,
    processInstructionStream (client := Stubs.always "Answer: done")
      (runtime := Stubs.engine) Stubs.emptyService None (Some "") "session-1"
      = Some r /\
    answer r = Throw "Instruction is required" /\
    produced r = [] /\ sessions (service r) = ∅.
Proof.
  exact (proj2 (empty_instruction_rejected
                  (client := Stubs.always "Answer: done")
                  (runtime := Stubs.engine) Stubs.emptyService None (Some "")
                  "session-1" eq_refl)).
Defined.

(** ** C9: the state after every completed turn *)

(** C9 fails on the code in buffered mode when the model's answer is the
    empty text.  The state after the first turn ends in an assistant
    message that holds no tool call, yet it is not terminal: the loop sends
    it to the model again, and so on for fifteen turns; the state left holds
    fifteen assistant messages in a row, and what is returned is the note,
    not the text of that message alone. *)
Theorem empty_answer_state_is_not_terminal :
  exists r rest,
    let h := initialHistory Stubs.noTools "go" in
    let h1 := h ++ [mkMessage assistant ""] in
    ACP.processUserInstruction (client := Stubs.always "")
      (runtime := Stubs.engine) Stubs.noTools [] (Some "go") = Some r /\
    parseToolCall "" = None /\
    effects r = ModelCalled h :: TurnCompleted h1 :: ModelCalled h1 :: rest /\
    modelCalls (effects r) = 15 /\
    history r = h ++ repeat (mkMessage assistant "") 15 /\
    settled r = Ok noteMaxTurns.
Proof.
  eexists _, _. cbv zeta.
  split; [vm_compute; reflexivity|]. split; [vm_compute; reflexivity|].
  split; [vm_compute; reflexivity|]. split; [vm_compute; reflexivity|].
  split; vm_compute; reflexivity.
Qed.

(** ** C10: the events around a tool call *)

(** C10 fails on the code when a tool rejects with [null]: the [catch]
    clause of [executeToolCall] reads [error.message], which throws, and the
    generator's own [catch] turns that into an [error] event.  The
    [toolCall] event is followed by the invocation and by an [error] event
    in the middle of the run; there is no [observation] event, and the run
    goes on to its answer. *)
Theorem rejected_tool_yields_error_event :
  exists r rest,
    ACP.processInstructionStream
      (client := Stubs.scripted 4 "Action: browser.close()" "Answer: done")
      (runtime := Stubs.engine) Examples.crashing [] (Some "go") = Some r /\
    settled r = Ok tt /\
    modelCalls (effects r) = 2 /\
    effects r
      = ModelCalled (initialHistory Examples.crashing "go") ::
        Yielded (EvAssistant "Action: browser.close()") ::
        Yielded (EvToolCall "browser.close" ∅) ::
        ToolInvoked "browser.close" ∅ ::
        Yielded
          (EvError ("Error executing tool browser.close: " +:+
                    "Cannot read properties of null (reading 'message')")) ::
        rest /\
    events (effects r)
      = [ EvAssistant "Action: browser.close()";
          EvToolCall "browser.close" ∅;
          EvError ("Error executing tool browser.close: " +:+
                   "Cannot read properties of null (reading 'message')");
          EvAssistant "Answer: done";
          EvComplete "Answer: done" ].
Proof.
  eexists _, _. split; [vm_compute; reflexivity|].
  split; [vm_compute; reflexivity|]. split; [vm_compute; reflexivity|].
  split; vm_compute; reflexivity.
Qed.

(** * Further properties of the code *)

(** ** Every match the code finds is a declarative match *)

Section Soundness.

Implicit Types (s l : chars) (c : captures) (k : cont) (x : found).

Lemma starLoop_sound r k :
  (forall s c k' x, exec r s c k' = Some x ->
     exists s' c', Matches r s c s' c' /\ k' s' c' = Some x) ->
  forall n s c x, starLoop (exec r) k n s c = Some x ->
  exists s' c', Matches (Star r) s c s' c' /\ k s' c' = Some x.
Proof.
  intros Hbody. induction n as [|n IH]; intros s c x H; simpl in H.
  - exists s, c. split; [constructor|done].
  - destruct (exec r s c _) as [y|] eqn:E.
    + injection H as ->. apply Hbody in E as (s1 & c1 & Hm & E).
      cbv beta in E. destruct (length s1 <? length s); [|done].
      apply IH in E as (s2 & c2 & Hstar & E). exists s2, c2.
      split; [by eapply matches_star_more|done].
    + exists s, c. split; [constructor|done].
Qed.

Lemma exec_sound r : forall s c k x,
  exec r s c k = Some x ->
  exists s' c', Matches r s c s' c' /\ k s' c' = Some x.
Proof.
  induction r as [p| |r1 IH1 r2 IH2|r1 IH1 r2 IH2|r IH|i r IH];
    intros s c k x H.
  - destruct s as [|a s]; [done|]. simpl in H.
    destruct (p a) eqn:Hp; [|done]. exists s, c. split; [by constructor|done].
  - exists s, c. split; [constructor|done].
  - rewrite exec_Cat in H. apply IH1 in H as (s1 & c1 & H1 & H).
    cbv beta in H. apply IH2 in H as (s2 & c2 & H2 & H). exists s2, c2.
    split; [by econstructor|done].
  - simpl in H. destruct (exec r1 s c k) as [y|] eqn:E.
    + injection H as ->. apply IH1 in E as (s' & c' & Hm & Hk).
      exists s', c'. split; [by apply matches_left|done].
    + apply IH2 in H as (s' & c' & Hm & Hk).
      exists s', c'. split; [by apply matches_right|done].
  - rewrite exec_Star in H. by apply (starLoop_sound _ _ IH _ _ _ _ H).
  - rewrite exec_Group in H. apply IH in H as (s1 & c1 & Hm & H).
    cbv beta in H. eexists _, _. split; [by constructor|done].
Qed.

Lemma Matches_consumes r s c s' c' :
  Matches r s c s' c' -> exists l, s = l ++ s'.
Proof.
  induction 1 as [p a s c Hp|s c|r1 r2 s c s1 c1 s2 c2 _ [l1 ->] _ [l2 ->]
                 |r1 r2 s c s' c' _ IH|r1 r2 s c s' c' _ IH|r s c
                 |r s c s1 c1 s2 c2 _ [l1 ->] _ [l2 ->]|i r s c s' c' _ IH].
  - by exists [a].
  - by exists [].
  - exists (l1 ++ l2). by rewrite app_assoc.
  - done.
  - done.
  - by exists [].
  - exists (l1 ++ l2). by rewrite app_assoc.
  - done.
Qed.

Lemma Matches_Char p s c s' c' :
  Matches (Char p) s c s' c' -> exists a, s = a :: s' /\ p a = true /\ c' = c.
Proof. inversion 1; subst. by eexists. Qed.

Lemma Matches_Empty s c s' c' : Matches Empty s c s' c' -> s' = s /\ c' = c.
Proof. by inversion 1. Qed.

Lemma Matches_Cat r1 r2 s c s' c' :
  Matches (Cat r1 r2) s c s' c' ->
  exists s1 c1, Matches r1 s c s1 c1 /\ Matches r2 s1 c1 s' c'.
Proof. inversion 1; subst. by eexists _, _. Qed.

Lemma Matches_Group i r s c s' c' :
  Matches (Group i r) s c s' c' ->
  exists c0, Matches r s c s' c0 /\
             c' = <[i := take (length s - length s') s]> c0.
Proof. inversion 1; subst. by eexists. Qed.

Lemma Matches_class p s c s' c' :
  Matches (Star (Char p)) s c s' c' ->
  exists l, s = l ++ s' /\ forallb p l = true /\ c' = c.
Proof.
  intros H. remember (Star (Char p)) as r eqn:Er.
  induction H as [| | | | |r s c|r s c s1 c1 s2 c2 H1 _ H2 IH|]; try done.
  - by exists [].
  - injection Er as ->. apply Matches_Char in H1 as (a & -> & Hp & ->).
    destruct IH as (l & -> & Hl & ->); [done|].
    exists (a :: l). simpl. by rewrite Hp, Hl.
Qed.

Lemma Matches_words s c s' c' :
  Matches (plus (Char isWord)) s c s' c' ->
  exists l, s = l ++ s' /\ isIdentifier l = true /\ c' = c.
Proof.
  intros H. apply Matches_Cat in H as (s1 & c1 & H1 & H2).
  apply Matches_Char in H1 as (a & -> & Ha & ->).
  apply Matches_class in H2 as (l & -> & Hl & ->).
  exists (a :: l). simpl. by rewrite Ha, Hl.
Qed.

Lemma Matches_lit l : forall s c s' c',
  Matches (lit l) s c s' c' -> s = l ++ s' /\ c' = c.
Proof.
  induction l as [|a l IH]; intros s c s' c' H; simpl in H.
  - by apply Matches_Empty in H as [-> ->].
  - apply Matches_Cat in H as (s1 & c1 & H1 & H2).
    apply Matches_Char in H1 as (b & -> & Hb & ->).
    apply IH in H2 as [-> ->]. unfold isChar in Hb.
    apply Ascii.eqb_eq in Hb as ->. done.
Qed.

Lemma matchAt_sound r s rest m :
  matchAt r s = Some (rest, m) ->
  exists l c, s = l ++ rest /\ Matches r s ∅ rest c /\ m = <[0 := l]> c.
Proof.
  unfold matchAt. intros H. apply exec_sound in H as (s' & c' & H & [= <- <-]).
  apply Matches_Group in H as (c0 & H & ->).
  destruct (Matches_consumes _ _ _ _ _ H) as [l ->].
  exists l, c0. by rewrite take_consumed.
Qed.

Lemma search_sound r : forall s x,
  search r s = Some x -> exists pre s0, s = pre ++ s0 /\ matchAt r s0 = Some x.
Proof.
  induction s as [|a s IH]; intros x H; cbn [search] in H.
  - destruct (matchAt r []) eqn:E; [|done]. injection H as ->. by exists [], [].
  - destruct (matchAt r (a :: s)) eqn:E.
    + injection H as ->. by exists [], (a :: s).
    + apply IH in H as (pre & s0 & -> & H). by exists (a :: pre), s0.
Qed.

(** What a match of the action expression looks like. *)
Lemma matchAt_actionRe_sound s rest m :
  matchAt actionRe s = Some (rest, m) ->
  exists ws first second args,
    s = str "Action:" ++ ws ++ renderName first second ++
        "("%char :: args ++ ")"%char :: rest /\
    forallb isSpace ws = true /\ wellFormedName first second = true /\
    noParen args = true /\
    group 1 m = renderName first second /\ group 3 m = args.
Proof.
  intros H. apply matchAt_sound in H as (l & c & _ & H & ->).
  unfold actionRe in H. cbn [seq] in H.
  apply Matches_Cat in H as (s1 & c1 & H1 & H).
  apply Matches_lit in H1 as [-> ->].
  apply Matches_Cat in H as (s2 & c2 & H2 & H).
  apply Matches_class in H2 as (ws & -> & Hws & ->).
  apply Matches_Cat in H as (s3 & c3 & H3 & H).
  apply Matches_Group in H3 as (c3' & H3 & ->).
  apply Matches_Cat in H3 as (s4 & c4 & Hfirst & H3).
  apply Matches_words in Hfirst as (first & -> & Hfirst & ->).
  apply Matches_Cat in H3 as (s5 & c5 & Hopt & H3).
  apply Matches_Empty in H3 as [-> ->].
  apply Matches_Cat in H as (s6 & c6 & Hopen & H).
  apply Matches_Char in Hopen as (a & E & Ha & ->).
  apply Ascii.eqb_eq in Ha as <-.
  apply Matches_Cat in H as (s7 & c7 & Hargs & H).
  apply Matches_Group in Hargs as (c7' & Hargs & ->).
  apply Matches_class in Hargs as (args & -> & Hargs & ->).
  apply Matches_Cat in H as (s8 & c8 & Hclose & H).
  apply Matches_Char in Hclose as (b & -> & Hb & ->).
  apply Ascii.eqb_eq in Hb as <-.
  apply Matches_Empty in H as [-> ->].
  assert (Hname : exists second,
            s4 = match second with
                 | Some w => "."%char :: w
                 | None => []
                 end ++ s5 /\
            match second with Some w => isIdentifier w | None => true end = true).
  { inversion Hopt; subst.
    - match goal with Hg : Matches (Group 2 _) _ _ _ _ |- _ =>
        apply Matches_Group in Hg as (c0 & Hg & _);
        apply Matches_Cat in Hg as (t1 & d1 & Hdot & Hg);
        apply Matches_Char in Hdot as (d & -> & Hd & ->);
        apply Ascii.eqb_eq in Hd as <-;
        apply Matches_Cat in Hg as (t2 & d2 & Hw & Hg);
        apply Matches_words in Hw as (w & -> & Hw & ->);
        apply Matches_Empty in Hg as [-> _]
      end.
      by exists (Some w).
    - match goal with Hg : Matches Empty _ _ _ _ |- _ =>
        apply Matches_Empty in Hg as [-> _]
      end.
      by exists None. }
  destruct Hname as (second & -> & Hsecond). subst s5.
  exists ws, first, second, args.
  split; [unfold renderName; by rewrite <- app_assoc|].
  split; [done|]. split; [unfold wellFormedName; by rewrite Hfirst, Hsecond|].
  split; [done|].
  unfold group. split.
  - rewrite !lookup_insert_ne by done. rewrite lookup_insert_eq.
    cbn [from_option id]. unfold renderName. rewrite app_assoc.
    apply take_consumed.
  - rewrite lookup_insert_ne by done. rewrite lookup_insert_eq.
    cbn [from_option id]. apply (take_consumed args (_ :: _)).
Qed.

Lemma wellEscaped_plain a l :
  isNeither dquote backslash a = true -> wellEscaped (a :: l) = wellEscaped l.
Proof.
  unfold isNeither. intros H. apply andb_prop in H as [Hq Hb].
  apply negb_true_iff in Hq, Hb. cbn [wellEscaped].
  rewrite (Ascii.eqb_sym a backslash), Hb, (Ascii.eqb_sym a dquote), Hq. done.
Qed.

Lemma wellEscaped_escape b l :
  isDot b = true -> wellEscaped (backslash :: b :: l) = wellEscaped l.
Proof. intros H. cbn [wellEscaped]. by rewrite Ascii.eqb_refl, H. Qed.

Lemma Matches_value s c s' c' :
  Matches (Star valueItem) s c s' c' ->
  exists raw, s = raw ++ s' /\ wellEscaped raw = true /\ c' = c.
Proof.
  intros H. remember (Star valueItem) as r eqn:Er.
  induction H as [| | | | |r s c|r s c s1 c1 s2 c2 H1 _ H2 IH|]; try done.
  - by exists [].
  - injection Er as ->. destruct IH as (raw & -> & Hraw & ->); [done|].
    unfold valueItem in H1. inversion H1; subst.
    + match goal with Hg : Matches (Char _) _ _ _ _ |- _ =>
        apply Matches_Char in Hg as (a & -> & Ha & ->) end.
      exists (a :: raw). by rewrite wellEscaped_plain.
    + match goal with Hg : Matches (Cat _ _) _ _ _ _ |- _ =>
        apply Matches_Cat in Hg as (t & d & Hb & Hd) end.
      apply Matches_Char in Hb as (a & -> & Ha & ->).
      apply Ascii.eqb_eq in Ha as <-.
      apply Matches_Char in Hd as (b & -> & Hb & ->).
      exists (backslash :: b :: raw). by rewrite wellEscaped_escape.
Qed.

(** What a match of the parameter expression looks like. *)
Lemma matchAt_paramRe_sound s rest m :
  matchAt paramRe s = Some (rest, m) ->
  exists key raw,
    s = key ++ "="%char :: dquote :: raw ++ dquote :: rest /\
    isIdentifier key = true /\ wellEscaped raw = true /\
    group 1 m = key /\ group 2 m = raw.
Proof.
  intros H. apply matchAt_sound in H as (l & c & _ & H & ->).
  unfold paramRe in H. cbn [seq] in H.
  apply Matches_Cat in H as (s1 & c1 & Hkey & H).
  apply Matches_Group in Hkey as (c1' & Hkey & ->).
  apply Matches_words in Hkey as (key & -> & Hkey & ->).
  apply Matches_Cat in H as (s2 & c2 & Heq & H).
  apply Matches_Char in Heq as (a & -> & Ha & ->).
  apply Ascii.eqb_eq in Ha as <-.
  apply Matches_Cat in H as (s3 & c3 & Hopen & H).
  apply Matches_Char in Hopen as (b & -> & Hb & ->).
  apply Ascii.eqb_eq in Hb as <-.
  apply Matches_Cat in H as (s4 & c4 & Hraw & H).
  apply Matches_Group in Hraw as (c4' & Hraw & ->).
  change (Star _) with (Star valueItem) in Hraw.
  apply Matches_value in Hraw as (raw & -> & Hraw & ->).
  apply Matches_Cat in H as (s5 & c5 & Hclose & H).
  apply Matches_Char in Hclose as (d & -> & Hd & ->).
  apply Ascii.eqb_eq in Hd as <-.
  apply Matches_Empty in H as [-> ->].
  exists key, raw. split; [done|]. split; [done|]. split; [done|].
  unfold group. split.
  - rewrite !lookup_insert_ne by done. rewrite lookup_insert_eq.
    cbn [from_option id]. apply (take_consumed key (_ :: _)).
  - rewrite lookup_insert_ne by done. rewrite lookup_insert_eq.
    cbn [from_option id]. apply (take_consumed raw (_ :: _)).
Qed.

(** Every element of [matchAll] is a match at some position of the
    string. *)
Lemma matchAllFrom_sound r : forall fuel s,
  Forall (fun m => exists pre s0 rest,
            s = pre ++ s0 /\ matchAt r s0 = Some (rest, m))
         (matchAllFrom fuel r s).
Proof.
  induction fuel as [|fuel IH]; intros s; cbn [matchAllFrom]; [constructor|].
  destruct (search r s) as [[rest c]|] eqn:E; [|constructor].
  apply search_sound in E as (pre & s0 & -> & E).
  destruct (matchAt_sound _ _ _ _ E) as (l & c0 & -> & _ & _).
  assert (Hhead : exists pre0 s1 rest0,
            pre ++ l ++ rest = pre0 ++ s1 /\ matchAt r s1 = Some (rest0, c))
    by by exists pre, (l ++ rest), rest.
  assert (Htail : forall rest' extra, rest = extra ++ rest' ->
            Forall (fun m => exists pre0 s1 rest0,
                      pre ++ l ++ rest = pre0 ++ s1 /\
                      matchAt r s1 = Some (rest0, m))
                   (matchAllFrom fuel r rest')).
  { intros rest' extra ->. eapply Forall_impl; [apply IH|].
    intros m (pre0 & s1 & rest0 & -> & Hm). simpl.
    exists (pre ++ l ++ extra ++ pre0), s1, rest0.
    split; [by rewrite <- !app_assoc|done]. }
  destruct (c !! 0) as [[|a w]|].
  - destruct rest as [|b rest'].
    + constructor; [done|constructor].
    + constructor; [done|]. by apply (Htail rest' [b]).
  - constructor; [done|]. by apply (Htail rest []).
  - constructor; [done|]. by apply (Htail rest []).
Qed.

Lemma forallb_unescapeQuotes (p : ascii -> bool) :
  p dquote = true ->
  forall n s, length s <= n -> forallb p s = true ->
              forallb p (unescapeQuotes s) = true.
Proof.
  intros Hq. induction n as [|n IH]; intros s Hn H.
  - destruct s; [done|simpl in Hn; lia].
  - destruct s as [|a [|b s]]; [done..|].
    cbn [unescapeQuotes]. simpl in Hn.
    cbn [forallb] in H. apply andb_prop in H as [Ha H].
    destruct (Ascii.eqb a backslash && Ascii.eqb b dquote).
    + apply andb_prop in H as [Hb H].
      change (p dquote && forallb p (unescapeQuotes s) = true).
      rewrite Hq. apply IH; [lia|done].
    + change (p a && forallb p (unescapeQuotes (b :: s)) = true).
      rewrite Ha. apply IH; [simpl; lia|done].
Qed.

Lemma noParen_unescapeQuotes s :
  noParen s = true -> noParen (unescapeQuotes s) = true.
Proof. by apply (forallb_unescapeQuotes _ eq_refl (length s)). Qed.

Lemma foldl_paramsShape args ms : forall o,
  noParen args = true ->
  Forall (fun m => exists pre s0 rest,
            args = pre ++ s0 /\ matchAt paramRe s0 = Some (rest, m)) ms ->
  paramsShape o ->
  paramsShape
    (foldl (fun params m =>
              setProperty params (text (group 1 m))
                (text (unescapeQuotes (group 2 m)))) o ms).
Proof.
  induction ms as [|m ms IH]; intros o Hargs Hms Ho; [done|].
  apply Forall_cons in Hms as [(pre & s0 & rest & -> & Hm) Hms].
  cbn [foldl]. apply IH; [done..|].
  apply matchAt_paramRe_sound in Hm as (key & raw & -> & Hkey & _ & -> & ->).
  unfold setProperty.
  destruct (String.eqb_spec (text key) "__proto__") as [|Hproto]; [done|].
  intros name v. destruct (decide (name = text key)) as [->|Hne].
  - rewrite lookup_insert_eq. intros [= <-]. unfold str, text.
    rewrite !list_ascii_of_string_of_list_ascii.
    split; [done|]. split; [done|].
    apply noParen_unescapeQuotes.
    rewrite !noParen_app in Hargs. cbn [noParen forallb] in Hargs.
    fold (noParen (raw ++ dquote :: rest)) in Hargs.
    rewrite noParen_app in Hargs.
    by repeat (apply andb_prop in Hargs as [? Hargs] || destruct_and?).
  - rewrite lookup_insert_ne by done. apply Ho.
Qed.

End Soundness.

(** ** The conversation a run builds *)

Section Conversations.

Context {client : FireworksClient} {runtime : Runtime}.
Variable registry : ToolRegistry.

Ltac split_mem :=
  repeat match goal with
  | H : In _ (_ ++ _) |- _ => apply in_app_or in H
  | H : In _ (_ :: _) |- _ => destruct H
  | H : In _ [] |- _ => destruct H
  | H : _ \/ _ |- _ => destruct H
  end.

Lemma invoked_no_call toolCall invoked outcome h :
  executeToolCall registry toolCall = (invoked, outcome) ->
  ~ In (ModelCalled h) invoked.
Proof. intros Hexec Hin. by apply (invoked_only _ _ _ _ _ Hexec) in Hin. Qed.

Lemma streamed_call h chunks h' :
  In (ModelCalled h') (streamed h chunks) -> h' = h.
Proof. intros H. apply streamed_only in H as [[= ->]|[c H]]; done. Qed.

(** Every request of a run carries the history the run started from. *)
Lemma conversation_calls_extend maxTurns turns finalResponse h r :
  ConversationRun registry maxTurns turns finalResponse h r ->
  forall h', In (ModelCalled h') (effects r) -> exists later, h' = h ++ later.
Proof.
  intros Hrun.
  induction Hrun as [turns fr h G | turns fr h e G Ht
                 | turns fr h t tc invoked obs r G Ht Htc Hexec Hr IH
                 | turns fr h t tc invoked ex G Ht Htc Hexec
                 | turns fr h t r G Ht Htc Hr IH]; intros h' Hin;
    cbn [before effects] in Hin; split_mem; try done.
  - injection H as <-. exists []. by rewrite app_nil_r.
  - injection H as <-. exists []. by rewrite app_nil_r.
  - by apply (invoked_no_call _ _ _ _ Hexec) in H.
  - apply IH in H as [later ->]. rewrite <- !app_assoc. eauto.
  - injection H as <-. exists []. by rewrite app_nil_r.
  - by apply (invoked_no_call _ _ _ _ Hexec) in H.
  - injection H as <-. exists []. by rewrite app_nil_r.
  - apply IH in H as [later ->]. rewrite <- !app_assoc. eauto.
Qed.

Lemma stream_calls_extend maxTurns turns h r :
  StreamRun registry maxTurns turns h r ->
  forall h', In (ModelCalled h') (effects r) -> exists later, h' = h ++ later.
Proof.
  intros Hrun.
  induction Hrun as [turns h G | turns h chunks e G Hs
                 | turns h chunks tc invoked obs r G Hs Htc Hexec Hr IH
                 | turns h chunks tc invoked ex r G Hs Htc Hexec Hr IH
                 | turns h chunks G Hs Htc]; intros h' Hin;
    cbn [before effects afterStreamLoop] in Hin.
  - by destruct (maxTurns <=? turns); split_mem.
  - apply streamed_call in Hin as ->. exists []. by rewrite app_nil_r.
  - split_mem; try done.
    + apply streamed_call in H as ->. exists []. by rewrite app_nil_r.
    + by apply (invoked_no_call _ _ _ _ Hexec) in H.
    + apply IH in H as [later ->]. rewrite <- !app_assoc. eauto.
  - split_mem; try done.
    + apply streamed_call in H as ->. exists []. by rewrite app_nil_r.
    + by apply (invoked_no_call _ _ _ _ Hexec) in H.
    + apply IH in H as [later ->]. rewrite <- !app_assoc. eauto.
  - destruct (maxTurns <=? S turns); split_mem; try done.
    all: apply streamed_call in H as ->; exists []; by rewrite app_nil_r.
Qed.

Lemma streamed_block h chunks :
  streamed h chunks
  = ModelCalled h :: map (fun c => Yielded (EvAssistant c)) (chunkContents chunks).
Proof. done. Qed.

(** The requests of a run grow: a later one carries the messages of an
    earlier one, and more. *)
Lemma conversation_calls_grow maxTurns turns finalResponse h r :
  ConversationRun registry maxTurns turns finalResponse h r ->
  forall pre h1 post, effects r = pre ++ ModelCalled h1 :: post ->
  forall h2, In (ModelCalled h2) post ->
  exists grown, grown <> [] /\ h2 = h1 ++ grown.
Proof.
  intros Hrun.
  induction Hrun as [turns fr h G | turns fr h e G Ht
                 | turns fr h t tc invoked obs r G Ht Htc Hexec Hr IH
                 | turns fr h t tc invoked ex G Ht Htc Hexec
                 | turns fr h t r G Ht Htc Hr IH]; intros pre h1 post E h2 Hin;
    cbn [before effects] in E.
  - by destruct pre.
  - destruct pre as [|e0 [|e1 pre]]; simplify_eq/=. done.
  - destruct pre as [|e0 pre]; cbn [app] in E.
    + injection E as <- <-. split_mem; try done.
      * by apply (invoked_no_call _ _ _ _ Hexec) in H.
      * apply (conversation_calls_extend _ _ _ _ _ Hr) in H as [later ->].
        exists ([mkMessage assistant t; observationMessage obs] ++ later).
        split; [done|]. by rewrite <- !app_assoc.
    + injection E as _ E.
      eapply split_after_block in E as (pre' & _ & E'); [|..|done].
      * by eapply IH.
      * apply Forall_app. split; [by eapply invoked_plain|by repeat constructor].
  - destruct pre as [|e0 pre]; cbn [app] in E.
    + injection E as <- <-. by apply (invoked_no_call _ _ _ _ Hexec) in Hin.
    + injection E as _ E. exfalso.
      apply (invoked_no_call _ _ _ h1 Hexec). rewrite E. apply in_elt.
  - destruct pre as [|e0 pre]; cbn [app] in E.
    + injection E as <- <-. split_mem; try done.
      apply (conversation_calls_extend _ _ _ _ _ Hr) in H as [later ->].
      exists ([mkMessage assistant t] ++ later).
      split; [done|]. by rewrite <- !app_assoc.
    + injection E as _ E.
      eapply (split_after_block [_]) in E as (pre' & _ & E'); [|..|done].
      * by eapply IH.
      * by repeat constructor.
Qed.

Lemma stream_calls_grow maxTurns turns h r :
  StreamRun registry maxTurns turns h r ->
  forall pre h1 post, effects r = pre ++ ModelCalled h1 :: post ->
  forall h2, In (ModelCalled h2) post ->
  exists grown, grown <> [] /\ h2 = h1 ++ grown.
Proof.
  assert (Hyields : forall contents h2,
            ~ In (ModelCalled h2)
                 (map (fun c => Yielded (EvAssistant c)) contents)).
  { intros contents h2 H. apply in_map_iff in H as (c & H & _). done. }
  intros Hrun.
  induction Hrun as [turns h G | turns h chunks e G Hs
                 | turns h chunks tc invoked obs r G Hs Htc Hexec Hr IH
                 | turns h chunks tc invoked ex r G Hs Htc Hexec Hr IH
                 | turns h chunks G Hs Htc]; intros pre h1 post E h2 Hin;
    cbn [before effects afterStreamLoop] in E.
  - destruct (maxTurns <=? turns); destruct pre as [|e0 [|e1 pre]];
      simplify_eq/=.
  - rewrite streamed_block in E. destruct pre as [|e0 pre]; cbn [app] in E.
    + injection E as <- <-. by apply Hyields in Hin.
    + injection E as _ E. exfalso.
      assert (Hx : In (ModelCalled h1) (pre ++ ModelCalled h1 :: post))
        by apply in_elt.
      rewrite <- E in Hx. by apply Hyields in Hx.
  - rewrite streamed_block in E. cbn [app] in E.
    destruct pre as [|e0 pre]; cbn [app] in E.
    + injection E as <- <-. split_mem; try done.
      * by apply Hyields in H.
      * by apply (invoked_no_call _ _ _ _ Hexec) in H.
      * apply (stream_calls_extend _ _ _ _ Hr) in H as [later ->].
        exists ([mkMessage assistant (concatStrings (chunkContents chunks));
                 observationMessage obs] ++ later).
        split; [done|]. by rewrite <- !app_assoc.
    + injection E as _ E. rewrite <- !app_assoc in E. rewrite !app_assoc in E.
      eapply split_after_block in E as (pre' & _ & E'); [|..|done].
      * by eapply IH.
      * repeat (apply Forall_app; split); try by repeat constructor.
        -- apply assistantYields_plain.
        -- by eapply invoked_plain.
  - rewrite streamed_block in E. cbn [app] in E.
    destruct pre as [|e0 pre]; cbn [app] in E.
    + injection E as <- <-. split_mem; try done.
      * by apply Hyields in H.
      * by apply (invoked_no_call _ _ _ _ Hexec) in H.
      * apply (stream_calls_extend _ _ _ _ Hr) in H as [later ->].
        exists ([mkMessage assistant (concatStrings (chunkContents chunks));
                 observationMessage (toolErrorMessage tc ex)] ++ later).
        split; [done|]. by rewrite <- !app_assoc.
    + injection E as _ E. rewrite <- !app_assoc in E. rewrite !app_assoc in E.
      eapply split_after_block in E as (pre' & _ & E'); [|..|done].
      * by eapply IH.
      * repeat (apply Forall_app; split); try by repeat constructor.
        -- apply assistantYields_plain.
        -- by eapply invoked_plain.
  - rewrite streamed_block in E. cbn [app] in E.
    destruct pre as [|e0 pre]; cbn [app] in E.
    + injection E as <- <-. exfalso.
      destruct (maxTurns <=? S turns); split_mem; try done.
      all: by apply Hyields in H.
    + injection E as _ E. exfalso.
      assert (Hx : In (ModelCalled h1) (pre ++ ModelCalled h1 :: post))
        by apply in_elt.
      rewrite <- E in Hx.
      destruct (maxTurns <=? S turns); split_mem; try done.
      all: by apply Hyields in H.
Qed.

(** How a run that ends normally leaves the loop: without an iteration, on
    an answer, or on an observation with the budget used up. *)
Lemma conversation_ends maxTurns turns finalResponse h r n fr' :
  ConversationRun registry maxTurns turns finalResponse h r ->
  settled r = Ok (n, fr') ->
  negb (truthy fr') && (n <? maxTurns) = false /\
  ((effects r = [] /\ history r = h /\ fr' = finalResponse /\ n = turns) \/
   (exists earlier t,
      history r = earlier ++ [mkMessage assistant t] /\ fr' = Some t /\
      parseToolCall t = None /\ createChatCompletion earlier = Ok t) \/
   (exists earlier t o,
      history r = earlier ++ [mkMessage assistant t; observationMessage o] /\
      truthy fr' = false /\ createChatCompletion earlier = Ok t)).
Proof.
  intros Hrun. revert n fr'.
  induction Hrun as [turns fr h G | turns fr h e G Ht
                 | turns fr h t tc invoked obs r G Ht Htc Hexec Hr IH
                 | turns fr h t tc invoked ex G Ht Htc Hexec
                 | turns fr h t r G Ht Htc Hr IH]; intros n fr' Hok;
    cbn [before effects settled history] in *.
  - injection Hok as <- <-. split; [done|]. by left.
  - done.
  - destruct (IH _ _ Hok) as [Hexit [(_ & -> & -> & ->)|[H|H]]].
    + split; [done|]. right. right. exists h, t, obs.
      rewrite <- app_assoc. split; [done|]. split; [|done].
      apply andb_prop in G as [G _]. by apply negb_true_iff in G.
    + split; [done|]. by right; left.
    + split; [done|]. by right; right.
  - done.
  - destruct (IH _ _ Hok) as [Hexit [(_ & -> & -> & ->)|[H|H]]].
    + split; [done|]. right. left. by exists h, t.
    + split; [done|]. by right; left.
    + split; [done|]. by right; right.
Qed.

Lemma lastAssistantMessage_answer h t :
  lastAssistantMessage (h ++ [mkMessage assistant t])
  = Some (mkMessage assistant t).
Proof.
  unfold lastAssistantMessage. rewrite List.filter_app. simpl.
  apply last_snoc.
Qed.

(** A request on which the provider fails ends the run: the call throws
    the provider's error, the request is its last effect, and the history
    is the one the request carried. *)
Lemma conversation_provider_failure maxTurns turns finalResponse h r :
  ConversationRun registry maxTurns turns finalResponse h r ->
  forall h' e,
    In (ModelCalled h') (effects r) -> createChatCompletion h' = Throw e ->
    settled r = Throw e /\
    (exists pre, effects r = pre ++ [ModelCalled h']) /\ history r = h'.
Proof.
  intros Hrun.
  induction Hrun as [turns fr h G | turns fr h e0 G Ht
                 | turns fr h t tc invoked obs r G Ht Htc Hexec Hr IH
                 | turns fr h t tc invoked ex G Ht Htc Hexec
                 | turns fr h t r G Ht Htc Hr IH]; intros h' e Hin Hfail;
    cbn [before effects settled history] in *; split_mem; try done;
    try (simplify_eq; congruence).
  - injection H as <-. split; [congruence|]. split; [by exists []|done].
  - by apply (invoked_no_call _ _ _ _ Hexec) in H.
  - destruct (IH _ _ H Hfail) as (Hs & [pre ->] & Hh).
    split; [done|]. split; [|done]. rewrite app_assoc. eauto.
  - by apply (invoked_no_call _ _ _ _ Hexec) in H.
  - destruct (IH _ _ H Hfail) as (Hs & [pre ->] & Hh).
    split; [done|]. split; [|done]. rewrite app_assoc. eauto.
Qed.



(** The generator throws only when the provider fails; the failing request
    is the last one. *)
Lemma stream_throws maxTurns turns h r e :
  StreamRun registry maxTurns turns h r ->
  settled r = Throw e ->
  exists h' chunks,
    In (ModelCalled h') (effects r) /\
    createChatCompletionStream h' = (chunks, Some e).
Proof.
  intros Hrun.
  induction Hrun as [turns h G | turns h chunks e0 G Hs
                 | turns h chunks tc invoked obs r G Hs Htc Hexec Hr IH
                 | turns h chunks tc invoked ex r G Hs Htc Hexec Hr IH
                 | turns h chunks G Hs Htc]; intros Hthrow;
    cbn [before effects settled history afterStreamLoop] in *; try done.
  - injection Hthrow as ->. exists h, chunks. split; [by left|done].
  - destruct (IH Hthrow) as (h' & chunks' & Hin & Hfail).
    exists h', chunks'. split; [|done]. apply in_or_app. by right.
  - destruct (IH Hthrow) as (h' & chunks' & Hin & Hfail).
    exists h', chunks'. split; [|done]. apply in_or_app. by right.
Qed.

(** A stream that ends normally has a terminal event. *)
Lemma stream_terminates maxTurns turns h r :
  StreamRun registry maxTurns turns h r ->
  turns <= maxTurns -> settled r = Ok tt ->
  existsb isTerminal (events (effects r)) = true.
Proof.
  assert (Happ : forall es1 es2,
            existsb isTerminal (events (es1 ++ es2))
            = existsb isTerminal (events es1)
              || existsb isTerminal (events es2)).
  { intros es1 es2. unfold events. by rewrite omap_app, existsb_app. }
  intros Hrun.
  induction Hrun as [turns h G | turns h chunks e G Hs
                 | turns h chunks tc invoked obs r G Hs Htc Hexec Hr IH
                 | turns h chunks tc invoked ex r G Hs Htc Hexec Hr IH
                 | turns h chunks G Hs Htc]; intros Hle Hok;
    cbn [before effects settled afterStreamLoop] in *.
  - apply Nat.ltb_ge in G. by destruct (Nat.leb_spec maxTurns turns); [|lia].
  - done.
  - apply Nat.ltb_lt in G. rewrite Happ, IH by (done || lia).
    apply orb_true_r.
  - apply Nat.ltb_lt in G. rewrite Happ, IH by (done || lia).
    apply orb_true_r.
  - rewrite !Happ. cbn. by rewrite !orb_true_r.
Qed.




Lemma truthy_empty t : truthy (Some t) = false -> t = "".
Proof. cbn [truthy]. by destruct (String.eqb_spec t ""). Qed.


(** Leaving the loop at once. *)
Lemma conversationLoop_answered fuel maxTurns turns t h :
  t <> "" ->
  conversationLoop registry fuel maxTurns turns (Some t) h
  = Some (mkRun [] h (Ok (turns, Some t))).
Proof.
  intros Ht.
  assert (E : truthy (Some t) = true).
  { cbn [truthy]. by destruct (String.eqb_spec t ""). }
  destruct fuel; cbn [conversationLoop]; by rewrite E.
Qed.

End Conversations.

(** ** A generator left at its first terminal event *)

Lemma events_app es1 es2 : events (es1 ++ es2) = events es1 ++ events es2.
Proof. unfold events. by rewrite omap_app. Qed.

Lemma events_cons_yield ev es : events (Yielded ev :: es) = ev :: events es.
Proof. done. Qed.

(** What the consumer receives: the events before the first terminal one,
    and that one; every event when there is none. *)
Lemma untilTerminal_events es :
  (existsb isTerminal (events es) = true /\
   exists evs ev later,
     events (untilTerminal es) = evs ++ [ev] /\
     events es = evs ++ ev :: later /\
     isTerminal ev = true /\ forallb (fun e => negb (isTerminal e)) evs = true) \/
  (existsb isTerminal (events es) = false /\ untilTerminal es = es).
Proof.
  induction es as [|e es IH]; [by right|].
  destruct e as [h|name ps|ev|h]; cbn [untilTerminal].
  1,2,4: destruct IH as [(Hex & evs & ev & later & E1 & E2 & Hev & Hevs)|[Hex E]];
    [left; split; [done|]; by exists evs, ev, later
    |right; split; [done|]; by rewrite E].
  rewrite events_cons_yield. cbn [existsb].
  destruct (isTerminal ev) eqn:Hterm.
  - left. split; [done|]. by exists [], ev, (events es).
  - destruct IH as [(Hex & evs & ev' & later & E1 & E2 & Hev & Hevs)|[Hex E]].
    + left. split; [done|]. exists (ev :: evs), ev', later.
      rewrite events_cons_yield, E1, E2. cbn [forallb].
      by rewrite Hterm, Hevs.
    + right. split; [done|]. by rewrite E.
Qed.

Lemma abandonedAt_app es1 es2 final :
  terminalEvents es1 = [] ->
  abandonedAt (es1 ++ es2) final = abandonedAt es2 final.
Proof.
  induction es1 as [|e es1 IH]; intros H; [done|].
  destruct e as [h|name ps|ev|h]; cbn [app abandonedAt]; try by apply IH.
  unfold terminalEvents in H. rewrite events_cons_yield in H.
  cbn [List.filter] in H. destruct (isTerminal ev); [done|]. by apply IH.
Qed.

Section Abandoned.

Context {client : FireworksClient} {runtime : Runtime}.
Variable registry : ToolRegistry.

(** When no tool rejects with [null] or [undefined], leaving the generator
    of the agent at its first terminal event leaves the history it has when
    drained. *)
Lemma stream_abandoned maxTurns turns h r :
  settlesWithMessage registry ->
  StreamRun registry maxTurns turns h r ->
  abandonedAt (effects r) (history r) = history r.
Proof.
  intros Hreg Hrun.
  induction Hrun as [turns h G | turns h chunks e G Hs
                 | turns h chunks tc invoked obs r G Hs Htc Hexec Hr IH
                 | turns h chunks tc invoked ex r G Hs Htc Hexec Hr IH
                 | turns h chunks G Hs Htc];
    cbn [before effects history afterStreamLoop].
  - by destruct (maxTurns <=? turns).
  - rewrite <- (app_nil_r (streamed h chunks)).
    by rewrite abandonedAt_app by apply terminalEvents_streamed.
  - rewrite abandonedAt_app; [done|].
    assert (Hterm : terminalEvents invoked = []).
    { pose proof (terminalEvents_invoked registry tc) as E.
      by rewrite Hexec in E. }
    by rewrite !terminalEvents_app, terminalEvents_streamed, Hterm.
  - exfalso. by eapply executeToolCall_recovers.
  - rewrite <- !app_assoc.
    by rewrite abandonedAt_app by apply terminalEvents_streamed.
Qed.

Lemma processInstructionStream_abandoned h0 instruction r :
  settlesWithMessage registry ->
  ACP.processInstructionStream registry h0 instruction = Some r ->
  abandonedAt (effects r) (history r) = history r.
Proof.
  intros Hreg. unfold ACP.processInstructionStream.
  destruct instruction as [[|a i]|]; [by intros [= <-]| |by intros [= <-]].
  intros H. apply streamLoop_run in H. by eapply stream_abandoned.
Qed.

(** A drained generator of the agent that has yielded no terminal event
    has thrown. *)
Lemma processInstructionStream_ends h0 instruction r :
  truthy instruction = true ->
  ACP.processInstructionStream registry h0 instruction = Some r ->
  existsb isTerminal (events (effects r)) = false ->
  exists e, settled r = Throw e.
Proof.
  unfold ACP.processInstructionStream.
  destruct instruction as [[|a i]|]; [done| |done]. intros _ H Hnone.
  apply streamLoop_run in H.
  destruct (settled r) as [[]|e] eqn:E; [|by eexists].
  rewrite (stream_terminates registry _ _ _ _ H) in Hnone; [done|lia|done].
Qed.

Lemma processInstructionStream_total h0 instruction :
  exists r, ACP.processInstructionStream registry h0 instruction = Some r.
Proof.
  unfold ACP.processInstructionStream.
  destruct instruction as [[|a i]|]; [by eexists| |by eexists].
  apply streamLoop_total. lia.
Qed.


(** The two operations on a non-empty instruction, as derivations. *)
Lemma processUserInstruction_run h0 instruction r :
  instruction <> "" ->
  ACP.processUserInstruction registry h0 (Some instruction) = Some r ->
  exists r0,
    conversationLoop registry maxTurnsDefault maxTurnsDefault 0 None
      (initialHistory registry instruction) = Some r0 /\
    ConversationRun registry maxTurnsDefault 0 None
      (initialHistory registry instruction) r0 /\
    effects r = effects r0 /\ history r = history r0 /\
    settled r
    = match settled r0 with
      | Throw e => Throw e
      | Ok (_, finalResponse) =>
          if truthy finalResponse then Ok (default "" finalResponse)
          else
            match lastAssistantMessage (history r0) with
            | Some msg => Ok (content msg +:+ noteMaxTurns)
            | None => Ok fallbackMaxTurns
            end
      end.
Proof.
  intros Hi Hr. unfold ACP.processUserInstruction in Hr.
  destruct instruction as [|a i]; [done|].
  unfold continueConversation in Hr.
  destruct (conversationLoop _ _ _ _ _ _) as [r0|] eqn:E; [|done].
  injection Hr as <-. exists r0. split; [done|].
  split; [by eapply conversationLoop_run|done].
Qed.

Lemma processInstructionStream_run h0 instruction r :
  instruction <> "" ->
  ACP.processInstructionStream registry h0 (Some instruction) = Some r ->
  StreamRun registry maxTurnsDefault 0 (initialHistory registry instruction) r.
Proof.
  intros Hi Hr. unfold ACP.processInstructionStream in Hr.
  destruct instruction as [|a i]; [done|]. by eapply streamLoop_run.
Qed.

End Abandoned.

(** ** The session store *)

Lemma truthy_Some s : s <> "" -> truthy (Some s) = true.
Proof. intros H. cbn [truthy]. by destruct (String.eqb_spec s ""). Qed.

Lemma truthy_inv v : truthy v = true -> exists s, v = Some s /\ s <> "".
Proof.
  destruct v as [s|]; [|done]. cbn [truthy].
  destruct (String.eqb_spec s ""); [done|]. by exists s.
Qed.

(** The get-or-create step touches one key of the store. *)
Lemma resolveAgent_cases (svc : AgentService) requested freshId :
  (exists sid agent,
     requested = Some sid /\ sid <> "" /\ sessions svc !! sid = Some agent /\
     resolveAgent svc requested freshId = (agent, sid, svc, false)) \/
  ((forall sid, requested = Some sid -> sid <> "" -> sessions svc !! sid = None) /\
   resolveAgent svc requested freshId
   = (newAgent freshId, freshId, setSession svc freshId (newAgent freshId), true)).
Proof.
  unfold resolveAgent. destruct (truthy requested) eqn:Ht.
  - apply truthy_inv in Ht as (sid & -> & Hsid). cbn [default from_option id].
    destruct (sessions svc !! sid) as [agent|] eqn:E.
    + left. by exists sid, agent.
    + right. split; [|done]. by intros ? [= <-].
  - right. split; [|done]. intros sid -> Hsid.
    by rewrite truthy_Some in Ht.
Qed.

(** ** Strings and their characters *)

Lemma text_str s : text (str s) = s.
Proof. apply string_of_list_ascii_of_string. Qed.

Lemma str_app s1 s2 : str (s1 +:+ s2) = str s1 ++ str s2.
Proof.
  unfold str. induction s1 as [|a s1 IH]; [done|]. simpl. by rewrite IH.
Qed.

Lemma text_app l1 l2 : text (l1 ++ l2) = text l1 +:+ text l2.
Proof.
  unfold text. induction l1 as [|a l1 IH]; [done|]. simpl. by rewrite IH.
Qed.

Lemma concatStrings_text pieces :
  concatStrings (map text pieces) = text (concat pieces).
Proof.
  induction pieces as [|p ps IH]; [done|].
  cbn [map concat]. rewrite text_app, <- IH. done.
Qed.

Lemma text_nonempty l : l <> [] -> text l <> "".
Proof. by destruct l. Qed.

Lemma chunkContents_Some l :
  Forall (fun s => s <> "") l -> chunkContents (map Some l) = l.
Proof.
  induction 1 as [|s l Hs _ IH]; [done|].
  unfold chunkContents in *. cbn [map omap list_omap].
  destruct (String.eqb_spec s ""); [done|]. simpl. by rewrite IH.
Qed.

(** ** The mock provider *)

Section Mock.

Import Fireworks.

Lemma concat_splitAfterLineFeed s : concat (splitAfterLineFeed s) = s.
Proof.
  induction s as [|a s IH]; [done|]. cbn [splitAfterLineFeed].
  destruct s as [|b s]; [done|].
  destruct (Ascii.eqb a newline).
  - cbn [concat app]. by rewrite IH.
  - destruct (splitAfterLineFeed (b :: s)) as [|piece pieces]; [done|].
    cbn [concat app] in *. by rewrite IH.
Qed.

Lemma splitAfterLineFeed_nonempty s :
  s <> [] -> Forall (fun piece => piece <> []) (splitAfterLineFeed s).
Proof.
  induction s as [|a s IH]; [done|]. intros _. cbn [splitAfterLineFeed].
  destruct s as [|b s]; [by repeat constructor|].
  destruct (Ascii.eqb a newline).
  - constructor; [done|]. by apply IH.
  - destruct (splitAfterLineFeed (b :: s)) as [|piece pieces];
      [by repeat constructor|].
    specialize (IH ltac:(done)). apply Forall_cons in IH as [_ IH].
    by constructor.
Qed.

(** A line feed ends the piece it is in. *)
Lemma splitAfterLineFeed_lines s :
  Forall (fun piece => forallb (isNot newline) (removelast piece) = true)
         (splitAfterLineFeed s).
Proof.
  induction s as [|a s IH]; [by repeat constructor|]. cbn [splitAfterLineFeed].
  destruct s as [|b s]; [by repeat constructor|].
  destruct (Ascii.eqb a newline) eqn:Ha.
  - by constructor.
  - pose proof (splitAfterLineFeed_nonempty (b :: s) ltac:(done)) as Hne.
    destruct (splitAfterLineFeed (b :: s)) as [|piece pieces];
      [by repeat constructor|].
    apply Forall_cons in IH as [Hp IH]. apply Forall_cons in Hne as [Hne _].
    constructor; [|done]. destruct piece as [|c piece]; [done|].
    cbn [removelast forallb]. unfold isNot at 1.
    rewrite Ascii.eqb_sym, Ha. done.
Qed.


Lemma generateMockCompletion_nonempty messages :
  str (generateMockCompletion messages) <> [].
Proof.
  unfold generateMockCompletion.
  destruct (mentions messages "search"); [done|].
  destruct (mentions messages "navigate" || mentions messages "go to"); [done|].
  destruct (mentions messages "click"); [done|].
  destruct (mentions messages "type" || mentions messages "enter"); [done|].
  by destruct (mentions messages "screenshot").
Qed.

Lemma mock_stream messages :
  concatStrings (chunkContents (map Some (generateMockCompletionStream messages)))
  = generateMockCompletion messages.
Proof.
  unfold generateMockCompletionStream. rewrite chunkContents_Some.
  - by rewrite concatStrings_text, concat_splitAfterLineFeed, text_str.
  - apply Forall_map.
    eapply Forall_impl;
      [apply splitAfterLineFeed_nonempty, generateMockCompletion_nonempty|].
    intros piece. apply text_nonempty.
Qed.

(** The reply of the mock depends on the first user message alone. *)
Lemma userMessage_initial registry instruction later :
  userMessage (initialHistory registry instruction ++ later) = instruction.
Proof. done. Qed.


End Mock.

(** ** A stream in which every answer holds a tool call *)

Section Exhaustion.

Context {client : FireworksClient} {runtime : Runtime}.
Variable registry : ToolRegistry.



End Exhaustion.

(** ** The client of the event stream *)

Section Frames.

Import AgentAPI.

Lemma split_piece l rest :
  forallb (isNot newline) l = true ->
  split [newline; newline] (l ++ newline :: newline :: rest)
  = l :: split [newline; newline] rest.
Proof.
  unfold split. induction l as [|a l IH]; intros H.
  - cbn [app splitFrom startsWith length Nat.sub].
    by rewrite Ascii.eqb_refl.
  - cbn [forallb] in H. apply andb_prop in H as [Ha H].
    cbn [app splitFrom]. cbn [startsWith]. unfold isNot in Ha.
    apply negb_true_iff in Ha. rewrite Ha. cbn [andb].
    by rewrite IH.
Qed.

End Frames.

(** ** File signatures *)

Section Signatures.

Import Fireworks.

Lemma byteIs_lookup buffer i value :
  byteIs buffer i value = true <-> buffer !! i = Some value.
Proof.
  unfold byteIs. destruct (buffer !! i) as [b|]; [|done]. split.
  - intros H. by apply Byte.byte_dec_bl in H as ->.
  - intros [= ->]. by apply Byte.byte_dec_lb.
Qed.

End Signatures.

(** * Properties of the code beyond the claims *)

(** ** The action parser on any text *)

Lemma search_leftmost r : forall s x,
  search r s = Some x ->
  exists pre s0,
    s = pre ++ s0 /\ matchAt r s0 = Some x /\
    noMatchBefore r s (length pre) = true.
Proof.
  induction s as [|a s IH]; intros x H; cbn [search] in H.
  - destruct (matchAt r []) eqn:E; [|done]. injection H as ->. by exists [], [].
  - destruct (matchAt r (a :: s)) eqn:E.
    + injection H as ->. by exists [], (a :: s).
    + apply IH in H as (pre & s0 & -> & H & Hbefore).
      exists (a :: pre), s0. split; [done|]. split; [done|].
      cbn [length]. by rewrite noMatchBefore_cons, E.
Qed.

Lemma search_actionRe_none s :
  indexOf (str "Action:") s = None -> search actionRe s = None.
Proof.
  induction s as [|a s IH]; intros H; cbn [indexOf] in H.
  - destruct (startsWith (str "Action:") []) eqn:E; [done|].
    cbn [search]. by rewrite matchAt_actionRe_miss.
  - destruct (startsWith (str "Action:") (a :: s)) eqn:E; [done|].
    cbn [search]. rewrite matchAt_actionRe_miss by done.
    apply IH. by destruct (indexOf (str "Action:") s).
Qed.

Lemma parseToolCall_no_marker response :
  indexOf (str "Action:") (str response) = None ->
  parseToolCall response = None.
Proof.
  intros H. unfold parseToolCall, jsMatch.
  by rewrite search_actionRe_none.
Qed.

(** X1.  [parseToolCall] returns a tool call only for a text that holds a
    complete action, and reads the call off the leftmost one: the text is
    [Action:], white space, a name that is an identifier or two identifiers
    joined by a dot, and a parenthesised argument list without a closing
    parenthesis inside, with no match of the action expression at an
    earlier position; the tool name returned is that name. *)
Theorem parseToolCall_sound (response : string) (toolCall : ToolCall) :
  parseToolCall response = Some toolCall ->
  exists pre ws first second args post,
    str response = pre ++ str "Action:" ++ ws ++ renderName first second ++
                   "("%char :: args ++ ")"%char :: post /\
    noMatchBefore actionRe (str response) (length pre) = true /\
    forallb isSpace ws = true /\ wellFormedName first second = true /\
    noParen args = true /\
    toolName toolCall = text (renderName first second).
Proof.
  unfold parseToolCall, jsMatch. intros H.
  destruct (search actionRe (str response)) as [[post m]|] eqn:E; [|done].
  cbn [fmap option_fmap option_map snd] in H. injection H as <-.
  apply search_leftmost in E as (pre & s0 & E & Hm & Hbefore).
  apply matchAt_actionRe_sound in Hm
    as (ws & first & second & args & -> & Hws & Hname & Hargs & H1 & _).
  exists pre, ws, first, second, args, post.
  cbn [toolName]. by rewrite H1.
Qed.

Lemma parseToolCall_sound_witness :
  exists pre ws first second args post,
    str ("Thought: open it." +:+ nl +:+
         "Action: browser.open(url=" +:+ q +:+ "https://example.com" +:+ q +:+ ")")
      = pre ++ str "Action:" ++ ws ++ renderName first second ++
        "("%char :: args ++ ")"%char :: post /\
    noMatchBefore actionRe
      (str ("Thought: open it." +:+ nl +:+
            "Action: browser.open(url=" +:+ q +:+ "https://example.com" +:+ q +:+ ")"))
      (length pre) = true /\
    forallb isSpace ws = true /\ wellFormedName first second = true /\
    noParen args = true /\
    toolName (mkToolCall "browser.open" {[ "url" := "https://example.com" ]})
      = text (renderName first second).
Proof.
  apply (parseToolCall_sound
           ("Thought: open it." +:+ nl +:+
            "Action: browser.open(url=" +:+ q +:+ "https://example.com" +:+ q +:+ ")")
           (mkToolCall "browser.open" {[ "url" := "https://example.com" ]})).
  vm_compute. reflexivity.
Defined.

(** X2.  Whatever the text, the parameter object [parseToolCall] returns has
    identifiers as keys, never the key [__proto__], and no value with a
    closing parenthesis. *)
Theorem parseToolCall_params_shape (response : string) (toolCall : ToolCall) :
  parseToolCall response = Some toolCall -> paramsShape (params toolCall).
Proof.
  unfold parseToolCall, jsMatch. intros H.
  destruct (search actionRe (str response)) as [[post m]|] eqn:E; [|done].
  cbn [fmap option_fmap option_map snd] in H. injection H as <-.
  apply search_sound in E as (pre & s0 & E & Hm).
  apply matchAt_actionRe_sound in Hm
    as (ws & first & second & args & -> & Hws & Hname & Hargs & _ & ->).
  cbn [params]. apply (foldl_paramsShape args); [done| |done].
  apply matchAllFrom_sound.
Qed.

Lemma parseToolCall_params_shape_witness :
  paramsShape
    (params (mkToolCall "browser.type"
               {[ "selector" := "Email field"; "text" := "a" +:+ q +:+ "b" ]})).
Proof.
  apply (parseToolCall_params_shape
           ("Action: browser.type(selector=" +:+ q +:+ "Email field" +:+ q +:+
            ", text=" +:+ q +:+ "a\" +:+ q +:+ "b" +:+ q +:+ ", __proto__=" +:+
            q +:+ "x" +:+ q +:+ ")")).
  vm_compute. reflexivity.
Defined.

(** ** The buffered and the streaming operation of the agent *)

Lemma conversationLoop_first_answer {client : FireworksClient}
    {runtime : Runtime} registry fuel maxTurns turns h t :
  turns < maxTurns -> createChatCompletion h = Ok t ->
  parseToolCall t = None -> t <> "" ->
  conversationLoop registry (S fuel) maxTurns turns None h
  = Some (mkRun [ModelCalled h; TurnCompleted (h ++ [mkMessage assistant t])]
            (h ++ [mkMessage assistant t]) (Ok (S turns, Some t))).
Proof.
  intros Hlt Ht Htc Hne. cbn [conversationLoop truthy negb andb].
  apply Nat.ltb_lt in Hlt. rewrite Hlt, Ht, Htc.
  by rewrite conversationLoop_answered.
Qed.

(** X3.  A first reply of the model that is not empty and does not hold the
    text [Action:] is the final answer: the buffered operation makes one
    request, invokes no tool, returns the reply unchanged and leaves the
    system message, the instruction and the reply as the history. *)
Theorem reply_without_action_is_final {client : FireworksClient}
    {runtime : Runtime} (registry : ToolRegistry) (h0 : list Message)
    (instruction t : string) :
  instruction <> "" -> t <> "" ->
  createChatCompletion (initialHistory registry instruction) = Ok t ->
  indexOf (str "Action:") (str t) = None ->
  ACP.processUserInstruction registry h0 (Some instruction)
  = Some (mkRun
            [ModelCalled (initialHistory registry instruction);
             TurnCompleted (initialHistory registry instruction ++
                            [mkMessage assistant t])]
            (initialHistory registry instruction ++ [mkMessage assistant t])
            (Ok t)).
Proof.
  intros Hi Ht Hreply Hmarker. unfold ACP.processUserInstruction.
  destruct instruction as [|a i]; [done|].
  unfold continueConversation, maxTurnsDefault.
  rewrite (conversationLoop_first_answer registry _ _ _ _ t);
    [|lia|done|by apply parseToolCall_no_marker|done].
  cbn [effects history settled]. do 2 f_equal.
  cbn [truthy]. by destruct (String.eqb_spec t "").
Qed.

Lemma reply_without_action_is_final_witness :
  ACP.processUserInstruction (client := Stubs.always "Answer: 42")
    (runtime := Stubs.engine) Stubs.twoTools [] (Some "what is 6 x 7?")
  = Some (mkRun
            [ModelCalled (initialHistory Stubs.twoTools "what is 6 x 7?");
             TurnCompleted (initialHistory Stubs.twoTools "what is 6 x 7?" ++
                            [mkMessage assistant "Answer: 42"])]
            (initialHistory Stubs.twoTools "what is 6 x 7?" ++
             [mkMessage assistant "Answer: 42"])
            (Ok "Answer: 42")).
Proof.
  apply (reply_without_action_is_final (client := Stubs.always "Answer: 42")
           (runtime := Stubs.engine) Stubs.twoTools [] "what is 6 x 7?"
           "Answer: 42"); [discriminate|discriminate|reflexivity|reflexivity].
Defined.

Section Requests.

Context {client : FireworksClient} {runtime : Runtime}.
Variable registry : ToolRegistry.

Lemma conversation_growing maxTurns turns finalResponse h r :
  ConversationRun registry maxTurns turns finalResponse h r ->
  growing h (effects r).
Proof.
  intros Hrun pre h1 post E. split.
  - apply (conversation_calls_extend registry _ _ _ _ _ Hrun).
    rewrite E. apply in_elt.
  - by apply (conversation_calls_grow registry _ _ _ _ _ Hrun pre).
Qed.

Lemma stream_growing maxTurns turns h r :
  StreamRun registry maxTurns turns h r -> growing h (effects r).
Proof.
  intros Hrun pre h1 post E. split.
  - apply (stream_calls_extend registry _ _ _ _ Hrun).
    rewrite E. apply in_elt.
  - by apply (stream_calls_grow registry _ _ _ _ Hrun pre).
Qed.

Lemma conversation_first_call maxTurns turns h r :
  ConversationRun registry maxTurns turns None h r -> turns < maxTurns ->
  exists rest, effects r = ModelCalled h :: rest.
Proof.
  intros Hrun Hlt. apply Nat.ltb_lt in Hlt.
  inversion Hrun; subst; cbn [before effects app]; eauto.
  match goal with Hg : negb (truthy None) && _ = false |- _ =>
    by rewrite Hlt in Hg end.
Qed.

Lemma stream_first_call maxTurns turns h r :
  StreamRun registry maxTurns turns h r -> turns < maxTurns ->
  exists rest, effects r = ModelCalled h :: rest.
Proof.
  intros Hrun Hlt. apply Nat.ltb_lt in Hlt.
  inversion Hrun; subst; cbn [before effects app]; unfold streamed;
    cbn [app]; eauto.
  congruence.
Qed.

End Requests.

(** X4.  In both modes the first request to the provider carries exactly
    the system message and the instruction, every request carries them in
    front, and a later request carries all the messages of an earlier one
    followed by at least one more: within a run the conversation is only
    appended to. *)
Theorem requests_extend_the_conversation {client : FireworksClient}
    {runtime : Runtime} (registry : ToolRegistry) (h0 : list Message)
    (instruction : string) (rb : Run string) (rs : Run unit) :
  instruction <> "" ->
  ACP.processUserInstruction registry h0 (Some instruction) = Some rb ->
  ACP.processInstructionStream registry h0 (Some instruction) = Some rs ->
  (exists rest,
     effects rb = ModelCalled (initialHistory registry instruction) :: rest) /\
  growing (initialHistory registry instruction) (effects rb) /\
  (exists rest,
     effects rs = ModelCalled (initialHistory registry instruction) :: rest) /\
  growing (initialHistory registry instruction) (effects rs).
Proof.
  intros Hi Hb Hs.
  destruct (processUserInstruction_run registry _ _ _ Hi Hb)
    as (r0 & _ & E & -> & _).
  apply (processInstructionStream_run registry _ _ _ Hi) in Hs.
  split; [apply (conversation_first_call registry _ _ _ _ E);
          unfold maxTurnsDefault; lia|].
  split; [by eapply conversation_growing|].
  split; [apply (stream_first_call registry _ _ _ _ Hs);
          unfold maxTurnsDefault; lia|].
  by eapply stream_growing.
Qed.

Lemma requests_extend_the_conversation_witness :
  exists rb rs,
    ACP.processUserInstruction
      (client := Stubs.scripted 4 "Action: browser.open()" "Answer: done")
      (runtime := Stubs.engine) Stubs.twoTools [] (Some "open it") = Some rb /\
    ACP.processInstructionStream
      (client := Stubs.scripted 4 "Action: browser.open()" "Answer: done")
      (runtime := Stubs.engine) Stubs.twoTools [] (Some "open it") = Some rs /\
    modelCalls (effects rb) = 2 /\ modelCalls (effects rs) = 2 /\
    growing (initialHistory Stubs.twoTools "open it") (effects rb) /\
    growing (initialHistory Stubs.twoTools "open it") (effects rs).
Proof.
  eexists _, _.
  split; [vm_compute; reflexivity|]. split; [vm_compute; reflexivity|].
  split; [vm_compute; reflexivity|]. split; [vm_compute; reflexivity|].
  refine (let H := requests_extend_the_conversation
            (client := Stubs.scripted 4 "Action: browser.open()" "Answer: done")
            (runtime := Stubs.engine) Stubs.twoTools [] "open it" _ _ _ _ _
          in conj (proj1 (proj2 H)) (proj2 (proj2 (proj2 H))));
    [discriminate|vm_compute; reflexivity|vm_compute; reflexivity].
Defined.

(** Discharging the first premise of [H] by evaluation. *)
Ltac discharge H tac :=
  match type of H with
  | ?A -> _ =>
      let Hx := fresh in
      assert (Hx : A) by tac; specialize (H Hx)
  end.

Ltac by_computation H := discharge H ltac:(vm_compute; reflexivity).

(** X5.  What the buffered operation returns is the text of the last
    assistant message of the history it leaves: that text itself when the
    model gave a non-empty answer, that text followed by the note when the
    fifteen requests are used up.  The message is the last of the history
    or is followed by one observation, so the fallback for a history
    without assistant message is never taken. *)
Theorem response_is_last_assistant_message {client : FireworksClient}
    {runtime : Runtime} (registry : ToolRegistry) (h0 : list Message)
    (instruction response : string) (r : Run string) :
  instruction <> "" ->
  ACP.processUserInstruction registry h0 (Some instruction) = Some r ->
  settled r = Ok response ->
  exists earlier t trailing,
    history r = earlier ++ mkMessage assistant t :: trailing /\
    createChatCompletion earlier = Ok t /\
    lastAssistantMessage (history r) = Some (mkMessage assistant t) /\
    (trailing = [] /\ parseToolCall t = None \/
     exists o, trailing = [observationMessage o]) /\
    (response = t /\ t <> "" /\ trailing = [] \/
     response = t +:+ noteMaxTurns /\
     modelCalls (effects r) = maxTurnsDefault).
Proof.
  intros Hi Hr Hok.
  destruct (processUserInstruction_run registry _ _ _ Hi Hr)
    as (r0 & Hloop & E & -> & -> & Hsettled).
  rewrite Hsettled in Hok. clear Hsettled.
  destruct (conversationLoop_calls registry _ _ _ _ _ _ Hloop) as [Hbound Hn].
  destruct (settled r0) as [[n fr']|e] eqn:Hs; [|done].
  specialize (Hn _ _ eq_refl). simpl in Hn.
  destruct (conversation_ends registry _ _ _ _ _ _ _ E Hs)
    as [Hexit [(_ & _ & -> & ->)|[(earlier & t & Eh & -> & Htc & Ht)
                                 |(earlier & t & o & Eh & Hfr & Ht)]]].
  - done.
  - exists earlier, t, []. rewrite Eh in *.
    rewrite lastAssistantMessage_answer in *.
    split; [done|]. split; [done|]. split; [done|]. split; [by left|].
    destruct (truthy (Some t)) eqn:Htruthy;
      cbn [default from_option id content] in Hok; injection Hok as <-.
    + left. split; [done|]. split; [|done]. intros ->. done.
    + right. split; [done|].
      cbn [negb andb] in Hexit. apply Nat.ltb_ge in Hexit.
      unfold maxTurnsDefault in *. lia.
  - exists earlier, t, [observationMessage o]. rewrite Eh in *.
    change (earlier ++ [mkMessage assistant t; observationMessage o])
      with (earlier ++ [mkMessage assistant t] ++ [observationMessage o]) in *.
    rewrite app_assoc, lastAssistantMessage_observed in *.
    split; [by rewrite <- app_assoc|]. split; [done|]. split; [done|].
    split; [right; by exists o|].
    rewrite Hfr in Hok, Hexit. cbn [content] in Hok.
    right. injection Hok as <-. split; [done|].
    cbn [negb andb] in Hexit. apply Nat.ltb_ge in Hexit.
    unfold maxTurnsDefault in *. lia.
Qed.
Lemma response_is_last_assistant_message_witness :
  exists r,
    ACP.processUserInstruction
      (client := Stubs.scripted 4 "Action: browser.open()" "Answer: done")
      (runtime := Stubs.engine) Stubs.twoTools [] (Some "open it") = Some r /\
    settled r = Ok "Answer: done" /\
    exists earlier t trailing,
      history r = earlier ++ mkMessage assistant t :: trailing /\
      createChatCompletion
        (FireworksClient := Stubs.scripted 4 "Action: browser.open()" "Answer: done")
        earlier = Ok t /\
      lastAssistantMessage (history r) = Some (mkMessage assistant t) /\
      (trailing = [] /\ parseToolCall t = None \/
       exists o, trailing = [observationMessage o]) /\
      ("Answer: done" = t /\ t <> "" /\ trailing = [] \/
       "Answer: done" = t +:+ noteMaxTurns /\
       modelCalls (effects r) = maxTurnsDefault).
Proof.
  eexists. split; [vm_compute; reflexivity|].
  split; [vm_compute; reflexivity|].
  apply (response_is_last_assistant_message
           (client := Stubs.scripted 4 "Action: browser.open()" "Answer: done")
           (runtime := Stubs.engine) Stubs.twoTools [] "open it" "Answer: done");
    [discriminate|vm_compute; reflexivity|vm_compute; reflexivity].
Defined.





(** ** The system prompt *)

Lemma append_assoc (s1 s2 s3 : string) :
  (s1 +:+ s2) +:+ s3 = s1 +:+ (s2 +:+ s3).
Proof.
  induction s1 as [|a s1 IH]; [done|].
  change (String a ((s1 +:+ s2) +:+ s3) = String a (s1 +:+ s2 +:+ s3)).
  by rewrite IH.
Qed.

Lemma append_nil_r (s : string) : s +:+ "" = s.
Proof.
  induction s as [|a s IH]; [done|].
  change (String a (s +:+ "") = String a s). by rewrite IH.
Qed.

Lemma occurs_right (x a s : string) :
  (exists pre post, s = pre +:+ x +:+ post) ->
  exists pre post, a +:+ s = pre +:+ x +:+ post.
Proof.
  intros (pre & post & ->). exists (a +:+ pre), post.
  by rewrite append_assoc.
Qed.

Lemma occurs_left (x s b : string) :
  (exists pre post, s = pre +:+ x +:+ post) ->
  exists pre post, s +:+ b = pre +:+ x +:+ post.
Proof.
  intros (pre & post & ->). exists pre, (post +:+ b).
  by rewrite !append_assoc.
Qed.

Lemma join_contains sep (x : string) l :
  In x l -> exists pre post, join sep l = pre +:+ x +:+ post.
Proof.
  induction l as [|y l IH]; [done|]. intros [->|Hin].
  - destruct l as [|z l].
    + exists "", "". cbn [join]. by rewrite append_nil_r.
    + exists "", (sep +:+ join sep (z :: l)). done.
  - destruct (IH Hin) as (pre & post & E).
    destruct l as [|z l]; [done|].
    exists (y +:+ sep +:+ pre), post.
    change (join sep (y :: z :: l)) with (y +:+ sep +:+ join sep (z :: l)).
    by rewrite E, !append_assoc.
Qed.

(** X8.  The system prompt names every tool of the registry: for each
    entry it holds the line [Tool:] with the name, followed by the line
    [Description:] with the documentation text of the tool. *)
Theorem getSystemPrompt_lists_every_tool (registry : ToolRegistry)
    (name : string) (tool : Tool) :
  In (name, tool) registry ->
  exists pre post,
    getSystemPrompt registry
    = pre +:+ ("Tool: " +:+ name +:+ nl +:+ "Description: " +:+ docs tool) +:+
      post.
Proof.
  intros Hin. unfold getSystemPrompt. cbv zeta.
  do 9 apply occurs_right. apply occurs_left.
  apply join_contains. apply in_map_iff. by exists (name, tool).
Qed.

Lemma getSystemPrompt_lists_every_tool_witness :
  exists pre post,
    getSystemPrompt Stubs.twoTools
    = pre +:+ ("Tool: " +:+ "browser.search" +:+ nl +:+ "Description: " +:+
               docs (mkTool "" (fun _ => Raised "network down"))) +:+ post.
Proof.
  apply (getSystemPrompt_lists_every_tool Stubs.twoTools "browser.search"
           (mkTool "" (fun _ => Raised "network down"))).
  simpl. tauto.
Defined.

(** ** The session store under the two operations of the service *)

Section Store.

Context {client : FireworksClient} {runtime : Runtime}.

(** What an operation on a non-empty instruction does to the store: the
    agent it resolves gets the history of the run. *)
Lemma processInstruction_store svc requested instruction freshId run :
  truthy instruction = true ->
  processInstruction svc requested instruction freshId = Some run ->
  exists agent id svc1 created r,
    resolveAgent (ensureInitialized svc) requested freshId
    = (agent, id, svc1, created) /\
    ACP.processUserInstruction (toolRegistry svc1) (messageHistory agent)
      instruction = Some r /\
    service run = storeHistory svc1 id agent (history r) /\
    produced run = effects r /\
    answer run = match settled r with
                 | Ok response => Ok (id, response)
                 | Throw e => Throw e
                 end.
Proof.
  intros Ht H. unfold processInstruction in H. rewrite Ht in H. cbn [negb] in H.
  destruct (resolveAgent _ _ _) as [[[agent id] svc1] created].
  destruct (ACP.processUserInstruction _ _ _) as [r|] eqn:E; [|done].
  injection H as <-. by exists agent, id, svc1, created, r.
Qed.

Lemma processInstructionStream_store svc requested instruction freshId run :
  truthy instruction = true ->
  processInstructionStream svc requested instruction freshId = Some run ->
  exists agent id svc1 created r,
    resolveAgent (ensureInitialized svc) requested freshId
    = (agent, id, svc1, created) /\
    ACP.processInstructionStream (toolRegistry svc1) (messageHistory agent)
      instruction = Some r /\
    service run = storeHistory svc1 id agent (history r) /\
    produced run
    = (if created then [Yielded (EvSession id)] else []) ++ effects r /\
    answer run = settled r.
Proof.
  intros Ht H. unfold processInstructionStream in H. rewrite Ht in H.
  cbn [negb] in H.
  destruct (resolveAgent _ _ _) as [[[agent id] svc1] created].
  destruct (ACP.processInstructionStream _ _ _) as [r|] eqn:E; [|done].
  injection H as <-. by exists agent, id, svc1, created, r.
Qed.

Lemma resolveAgent_other svc requested freshId agent id svc1 created other :
  resolveAgent svc requested freshId = (agent, id, svc1, created) ->
  other <> freshId -> requested <> Some other ->
  other <> id /\ sessions svc1 !! other = sessions svc !! other /\
  toolRegistry svc1 = toolRegistry svc.
Proof.
  intros H Hfresh Hreq.
  destruct (resolveAgent_cases svc requested freshId)
    as [(sid & agent' & -> & Hsid & Hlook & E)|[Hnone E]];
    rewrite E in H; injection H as <- <- <- <-.
  - split; [congruence|done].
  - split; [done|]. split; [|done].
    cbn [setSession sessions newAgent]. by rewrite lookup_insert_ne.
Qed.

End Store.

(** X9.  An instruction touches one session only: after either operation
    every session other than the one the instruction ran in (the requested
    one, or the one created under the fresh id) is as it was, and so is the
    tool registry. *)
Theorem instruction_leaves_other_sessions {client : FireworksClient}
    {runtime : Runtime} (svc : AgentService)
    (requested instruction : option string) (freshId other : string)
    (rb : ServiceRun (string * string)) (rs : ServiceRun unit) :
  other <> freshId -> requested <> Some other ->
  processInstruction svc requested instruction freshId = Some rb ->
  processInstructionStream svc requested instruction freshId = Some rs ->
  sessions (service rb) !! other = sessions svc !! other /\
  sessions (service rs) !! other = sessions svc !! other /\
  toolRegistry (service rb) = toolRegistry svc /\
  toolRegistry (service rs) = toolRegistry svc.
Proof.
  intros Hfresh Hreq Hb Hs.
  destruct (truthy instruction) eqn:Ht.
  - destruct (processInstruction_store _ _ _ _ _ Ht Hb)
      as (agent & id & svc1 & created & r & Hres & _ & -> & _).
    destruct (processInstructionStream_store _ _ _ _ _ Ht Hs)
      as (agent' & id' & svc1' & created' & r' & Hres' & _ & -> & _).
    rewrite Hres in Hres'. injection Hres' as <- <- <- <-.
    destruct (resolveAgent_other _ _ _ _ _ _ _ other Hres Hfresh Hreq)
      as (Hid & Hlook & Hreg).
    cbn [storeHistory setSession sessions toolRegistry].
    assert (Hid' : id <> other) by congruence.
    rewrite !lookup_insert_ne by done. by rewrite Hlook, Hreg.
  - unfold processInstruction in Hb. unfold processInstructionStream in Hs.
    rewrite Ht in Hb, Hs. by injection Hb as <-; injection Hs as <-.
Qed.

Lemma instruction_leaves_other_sessions_witness :
  exists rb rs,
    processInstruction (client := Stubs.always "Answer: done")
      (runtime := Stubs.engine) Stubs.oneSession None (Some "second")
      "session-2" = Some rb /\
    processInstructionStream (client := Stubs.always "Answer: done")
      (runtime := Stubs.engine) Stubs.oneSession None (Some "second")
      "session-2" = Some rs /\
    sessions (service rb) !! "session-1"
      = sessions Stubs.oneSession !! "session-1" /\
    sessions (service rs) !! "session-1"
      = sessions Stubs.oneSession !! "session-1" /\
    toolRegistry (service rb) = toolRegistry Stubs.oneSession /\
    toolRegistry (service rs) = toolRegistry Stubs.oneSession.
Proof.
  eexists _, _.
  split; [vm_compute; reflexivity|]. split; [vm_compute; reflexivity|].
  apply (instruction_leaves_other_sessions
           (client := Stubs.always "Answer: done") (runtime := Stubs.engine)
           Stubs.oneSession None (Some "second") "session-2" "session-1");
    [discriminate|discriminate|vm_compute; reflexivity..].
Defined.

(** X10.  A session id the store does not hold is not adopted: the
    instruction runs in a new session under the fresh id, the requested id
    stays absent, the buffered result carries the fresh id and the stream
    starts with the [session] event of the fresh id. *)
Theorem unknown_session_id_starts_fresh_session {client : FireworksClient}
    {runtime : Runtime} (svc : AgentService) (sid instruction freshId : string)
    (rb : ServiceRun (string * string)) (rs : ServiceRun unit) :
  instruction <> "" -> sid <> freshId -> sessions svc !! sid = None ->
  processInstruction svc (Some sid) (Some instruction) freshId = Some rb ->
  processInstructionStream svc (Some sid) (Some instruction) freshId = Some rs ->
  sessions (service rb) !! sid = None /\
  (exists h, sessions (service rb) !! freshId = Some (mkAgent h freshId)) /\
  (forall id response, answer rb = Ok (id, response) -> id = freshId) /\
  sessions (service rs) !! sid = None /\
  (exists h, sessions (service rs) !! freshId = Some (mkAgent h freshId)) /\
  (exists rest, produced rs = Yielded (EvSession freshId) :: rest).
Proof.
  intros Hi Hsid Hnone Hb Hs.
  pose proof (truthy_Some _ Hi) as Ht.
  destruct (processInstruction_store _ _ _ _ _ Ht Hb)
    as (agent & id & svc1 & created & r & Hres & _ & -> & _ & Hanswer).
  destruct (processInstructionStream_store _ _ _ _ _ Ht Hs)
    as (agent' & id' & svc1' & created' & r' & Hres' & _ & -> & -> & _).
  rewrite Hres in Hres'. injection Hres' as <- <- <- <-.
  destruct (resolveAgent_cases (ensureInitialized svc) (Some sid) freshId)
    as [(sid' & agent' & [= <-] & _ & Hlook & _)|[_ E]].
  { cbn [ensureInitialized sessions] in Hlook. congruence. }
  rewrite E in Hres. injection Hres as <- <- <- <-.
  cbn [storeHistory setSession sessions ensureInitialized newAgent
       AgentService.sessionId app].
  assert (Hne : freshId <> sid) by congruence.
  split; [by rewrite !lookup_insert_ne|].
  split; [rewrite lookup_insert_eq; by eexists|]. split.
  { intros id response. rewrite Hanswer.
    destruct (settled r); [by intros [= <- _]|done]. }
  split; [by rewrite !lookup_insert_ne|].
  split; [rewrite lookup_insert_eq; by eexists|]. by eexists.
Qed.

Lemma unknown_session_id_starts_fresh_session_witness :
  exists rb rs,
    processInstruction (client := Stubs.always "Answer: done")
      (runtime := Stubs.engine) Stubs.oneSession (Some "session-9")
      (Some "second") "session-2" = Some rb /\
    processInstructionStream (client := Stubs.always "Answer: done")
      (runtime := Stubs.engine) Stubs.oneSession (Some "session-9")
      (Some "second") "session-2" = Some rs /\
    answer rb = Ok ("session-2", "Answer: done") /\
    sessions (service rb) !! "session-9" = None /\
    (exists h, sessions (service rb) !! "session-2"
               = Some (mkAgent h "session-2")) /\
    (forall id response, answer rb = Ok (id, response) -> id = "session-2") /\
    sessions (service rs) !! "session-9" = None /\
    (exists h, sessions (service rs) !! "session-2"
               = Some (mkAgent h "session-2")) /\
    (exists rest, produced rs = Yielded (EvSession "session-2") :: rest).
Proof.
  eexists _, _.
  split; [vm_compute; reflexivity|]. split; [vm_compute; reflexivity|].
  split; [vm_compute; reflexivity|].
  apply (unknown_session_id_starts_fresh_session
           (client := Stubs.always "Answer: done") (runtime := Stubs.engine)
           Stubs.oneSession "session-9" "second" "session-2");
    [discriminate|discriminate|vm_compute; reflexivity..].
Defined.

(** X11.  The id a buffered instruction returns gives access to its
    transcript: [getSessionInfo] with that id succeeds on the service the
    call leaves, with a history that starts with the system prompt and the
    instruction. *)
Theorem returned_id_retrieves_the_transcript {client : FireworksClient}
    {runtime : Runtime} (svc : AgentService) (requested : option string)
    (instruction freshId id response : string)
    (run : ServiceRun (string * string)) :
  freshId <> "" ->
  processInstruction svc requested (Some instruction) freshId = Some run ->
  answer run = Ok (id, response) ->
  exists later,
    getSessionInfo (service run) (Some id)
    = Ok (id, initialHistory (toolRegistry svc) instruction ++ later).
Proof.
  intros Hfresh Hrun Hanswer.
  destruct (decide (instruction = "")) as [->|Hi].
  { unfold processInstruction in Hrun. cbn in Hrun.
    injection Hrun as <-. done. }
  pose proof (truthy_Some _ Hi) as Ht.
  destruct (processInstruction_store _ _ _ _ _ Ht Hrun)
    as (agent & id' & svc1 & created & r & Hres & Hr & Hservice & _ & Hans).
  rewrite Hans in Hanswer.
  destruct (settled r) as [response'|] eqn:Hok; [|done].
  injection Hanswer as -> ->.
  assert (Hid : id <> "" /\ toolRegistry svc1 = toolRegistry svc).
  { destruct (resolveAgent_cases (ensureInitialized svc) requested freshId)
      as [(sid & agent' & -> & Hsid & Hlook & E)|[_ E]];
      rewrite E in Hres; by injection Hres as <- <- <- <-. }
  destruct Hid as [Hid Hreg].
  destruct (processUserInstruction_run _ _ _ _ Hi Hr)
    as (r0 & _ & Hconv & _ & Hh & _).
  destruct (conversation_history _ _ _ _ _ _ Hconv) as [later Hlater].
  exists later. unfold getSessionInfo.
  rewrite (truthy_Some _ Hid), Hservice.
  change (default "" (Some id)) with id.
  cbn [storeHistory setSession sessions]. rewrite lookup_insert_eq.
  cbn [messageHistory]. by rewrite Hh, Hlater, Hreg.
Qed.

Lemma returned_id_retrieves_the_transcript_witness :
  exists run,
    processInstruction (client := Stubs.always "Answer: done")
      (runtime := Stubs.engine) Stubs.emptyService None (Some "first")
      "session-1" = Some run /\
    answer run = Ok ("session-1", "Answer: done") /\
    exists later,
      getSessionInfo (service run) (Some "session-1")
      = Ok ("session-1",
            initialHistory (toolRegistry Stubs.emptyService) "first" ++ later).
Proof.
  eexists. split; [vm_compute; reflexivity|].
  split; [vm_compute; reflexivity|].
  apply (returned_id_retrieves_the_transcript
           (client := Stubs.always "Answer: done") (runtime := Stubs.engine)
           Stubs.emptyService None "first" "session-1" "session-1"
           "Answer: done");
    [discriminate|vm_compute; reflexivity..].
Defined.

(** ** The HTTP handlers *)

Lemma existsb_terminal_false evs :
  existsb isTerminal evs = false ->
  forallb (fun e => negb (isTerminal e)) evs = true.
Proof.
  induction evs as [|ev evs IH]; [done|]. cbn [existsb forallb].
  intros H. apply orb_false_elim in H as [-> H]. by rewrite IH.
Qed.

Lemma existsb_terminal_snoc evs ev :
  isTerminal ev = true -> existsb isTerminal (evs ++ [ev]) = true.
Proof.
  intros H. rewrite existsb_app. cbn [existsb]. rewrite H.
  by rewrite orb_true_r.
Qed.

Lemma events_announced (created : bool) id :
  events (if created then [Yielded (EvSession id)] else [])
  = if created then [EvSession id] else [].
Proof. by destruct created. Qed.

Lemma resolveAgent_registry svc requested freshId agent id svc1 created :
  resolveAgent svc requested freshId = (agent, id, svc1, created) ->
  toolRegistry svc1 = toolRegistry svc.
Proof.
  intros H.
  destruct (resolveAgent_cases svc requested freshId)
    as [(sid & agent' & -> & Hsid & Hlook & E)|[Hnone E]];
    rewrite E in H; by injection H as <- <- <- <-.
Qed.

(** X12.  The streaming handler closes every accepted request with exactly
    one terminal frame.  For a non-empty instruction it answers with status
    200 and an event stream that it ends; the frames it writes are the
    events of the service up to and including the first [complete] or
    [error] event, or, when the service throws before any such event, all
    its events followed by one [error] frame with the message thrown.  No
    frame but the last is terminal, also when the generator would yield
    [complete] and then [error].  When no tool of the registry rejects with
    [null] or [undefined] the service is left as the drained generator
    leaves it. *)
Theorem stream_handler_sends_one_terminal_frame {client : FireworksClient}
    {runtime : Runtime} (stringify : StreamEvent -> string)
    (svc : AgentService) (sessionId : option string)
    (instruction freshId : string) :
  instruction <> "" ->
  exists run svc' evs ev,
    processInstructionStream svc sessionId (Some instruction) freshId
      = Some run /\
    AgentController.processInstructionStream stringify svc sessionId
      (Some instruction) freshId
    = Some (svc',
            AgentController.EventStream 200
              (map (AgentController.frame stringify) (evs ++ [ev])) true) /\
    isTerminal ev = true /\
    forallb (fun e => negb (isTerminal e)) evs = true /\
    ((exists later, events (produced run) = evs ++ ev :: later) \/
     (exists e, answer run = Throw e /\
                evs = events (produced run) /\ ev = EvError e)) /\
    (settlesWithMessage (toolRegistry svc) -> svc' = service run).
Proof.
  intros Hi. pose proof (truthy_Some _ Hi) as Ht.
  unfold AgentController.processInstructionStream,
    AgentController.streamUntilTerminal, processInstructionStream.
  rewrite Ht. cbn [negb].
  change AgentController.Service.resolveAgent with resolveAgent.
  change AgentController.Service.ensureInitialized with ensureInitialized.
  destruct (resolveAgent _ _ _) as [[[agent id] svc1] created] eqn:Eres.
  apply resolveAgent_registry in Eres. cbn [ensureInitialized toolRegistry] in Eres.
  destruct (processInstructionStream_total (toolRegistry svc1)
              (messageHistory agent) (Some instruction)) as [r Hr].
  change AgentController.Service.toolRegistry with toolRegistry.
  change AgentController.Service.messageHistory with messageHistory.
  change AgentController.ACP.processInstructionStream
    with ACP.processInstructionStream.
  rewrite Hr.
  assert (Hsame : settlesWithMessage (toolRegistry svc) ->
                  abandonedAt (effects r) (history r) = history r).
  { intros Hreg. rewrite <- Eres in Hreg.
    by apply (processInstructionStream_abandoned _ _ _ _ Hreg Hr). }
  pose proof (processInstructionStream_ends _ _ _ _ Ht Hr) as Hends.
  cbn [AgentController.Service.service AgentController.Service.produced
       AgentController.Service.answer service produced answer].
  destruct (untilTerminal_events (effects r))
    as [(Hex & evs & ev & later & E1 & E2 & Hev & Hevs)|[Hex E]];
    rewrite Hex in *.
  - exists (mkServiceRun (storeHistory svc1 id agent (history r))
              ((if created then [Yielded (EvSession id)] else []) ++ effects r)
              (settled r)),
      (storeHistory svc1 id agent (abandonedAt (effects r) (history r))),
      ((if created then [EvSession id] else []) ++ evs), ev.
    split; [done|]. cbn [service produced answer].
    rewrite !events_app, events_announced, E1, E2, app_assoc.
    rewrite existsb_terminal_snoc by done.
    split; [done|]. split; [done|]. split.
    { rewrite forallb_app, Hevs. by destruct created. }
    split; [left; exists later; by rewrite <- app_assoc|].
    intros Hreg. by rewrite Hsame.
  - destruct (Hends eq_refl) as [e He]. rewrite He, E.
    exists (mkServiceRun (storeHistory svc1 id agent (history r))
              ((if created then [Yielded (EvSession id)] else []) ++ effects r)
              (Throw e)),
      (storeHistory svc1 id agent (abandonedAt (effects r) (history r))),
      (events ((if created then [Yielded (EvSession id)] else []) ++ effects r)),
      (EvError e).
    split; [done|]. cbn [service produced answer].
    rewrite map_app. split; [done|]. split; [done|]. split.
    { rewrite events_app, events_announced, forallb_app.
      rewrite (existsb_terminal_false _ Hex). by destruct created. }
    split; [right; by exists e|].
    intros Hreg. by rewrite Hsame.
Qed.

Lemma stream_handler_sends_one_terminal_frame_witness :
  exists run svc' evs ev,
    processInstructionStream
      (client := Stubs.scripted 30 "Action: t()" "Answer: done")
      (runtime := Stubs.engine) Stubs.emptyService None (Some "go")
      "session-1" = Some run /\
    AgentController.processInstructionStream
      (client := Stubs.scripted 30 "Action: t()" "Answer: done")
      (runtime := Stubs.engine) Examples.stringify Stubs.emptyService None
      (Some "go") "session-1"
    = Some (svc',
            AgentController.EventStream 200
              (map (AgentController.frame Examples.stringify) (evs ++ [ev]))
              true) /\
    isTerminal ev = true /\
    forallb (fun e => negb (isTerminal e)) evs = true /\
    ((exists later, events (produced run) = evs ++ ev :: later) \/
     (exists e, answer run = Throw e /\
                evs = events (produced run) /\ ev = EvError e)) /\
    (settlesWithMessage (toolRegistry Stubs.emptyService) ->
     svc' = service run).
Proof.
  apply (stream_handler_sends_one_terminal_frame
           (client := Stubs.scripted 30 "Action: t()" "Answer: done")
           (runtime := Stubs.engine) Examples.stringify Stubs.emptyService
           None "go" "session-1").
  discriminate.
Defined.

(** X13.  The buffered handler answers an empty or absent instruction with
    status 400 without touching the service.  When the provider fails on a
    request of the run, on whichever turn, it answers with status 500 and
    the provider's message, and the session the instruction ran in (the
    requested one when the store holds it, else the one created under the
    fresh id) stays in the store with the conversation as the failing
    request carried it, although the reply does not carry its id. *)
Theorem failed_instruction_leaves_its_session {client : FireworksClient}
    {runtime : Runtime} (svc : AgentService) (requested : option string)
    (instruction freshId : string) (run : ServiceRun (string * string)) :
  instruction <> "" ->
  processInstruction svc requested (Some instruction) freshId = Some run ->
  AgentController.processInstruction svc requested None freshId
    = Some (svc, AgentController.JsonReply 400
                   (AgentController.Failure "Instruction is required")) /\
  AgentController.processInstruction svc requested (Some "") freshId
    = Some (svc, AgentController.JsonReply 400
                   (AgentController.Failure "Instruction is required")) /\
  forall h e,
    In (ModelCalled h) (produced run) -> createChatCompletion h = Throw e ->
    AgentController.processInstruction svc requested (Some instruction) freshId
      = Some (service run,
              AgentController.JsonReply 500 (AgentController.Failure e)) /\
    initialized (service run) = true /\
    (forall sid agent,
       requested = Some sid -> sid <> "" -> sessions svc !! sid = Some agent ->
       sessions (service run) !! sid = Some (mkAgent h (sessionId agent))) /\
    ((forall sid, requested = Some sid -> sid <> "" ->
                  sessions svc !! sid = None) ->
     sessions (service run) !! freshId = Some (mkAgent h freshId)).
Proof.
  intros Hi Hrun. split; [done|]. split; [done|]. intros h e Hin Hfail.
  pose proof (truthy_Some _ Hi) as Ht.
  unfold AgentController.processInstruction.
  change AgentController.Service.processInstruction with processInstruction.
  rewrite Ht, Hrun. cbn [negb].
  change AgentController.Service.service with (@service (string * string)).
  change AgentController.Service.answer with (@answer (string * string)).
  destruct (processInstruction_store _ _ _ _ _ Ht Hrun)
    as (agent & id & svc1 & created & r & Eres & Hr & -> & Ep & ->).
  rewrite Ep in Hin.
  destruct (processUserInstruction_run _ _ _ _ Hi Hr)
    as (r0 & _ & Hconv & Ee & Eh & Es).
  rewrite Ee in Hin.
  destruct (conversation_provider_failure _ _ _ _ _ _ Hconv h e Hin Hfail)
    as (Hthrow & _ & Hh).
  rewrite Es, Hthrow, Eh, Hh.
  split; [done|].
  destruct (resolveAgent_cases (ensureInitialized svc) requested freshId)
    as [(sid' & agent' & -> & Hsid & Hlook & E)|[Hnone E]];
    rewrite E in Eres; injection Eres as <- <- <- <-;
    cbn [ensureInitialized sessions] in *.
  - split; [done|]. split.
    + intros sid agent [= <-] _ Hagent.
      assert (agent = agent') as -> by congruence.
      cbn [storeHistory setSession sessions]. by rewrite lookup_insert_eq.
    + intros Hnone. rewrite (Hnone sid') in Hlook; done.
  - split; [done|]. split.
    + intros sid agent -> Hsid Hagent. by rewrite (Hnone sid) in Hagent.
    + intros _. cbn [storeHistory setSession sessions newAgent sessionId].
      by rewrite lookup_insert_eq.
Qed.

Lemma failed_instruction_leaves_its_session_witness :
  exists run,
    processInstruction
      (client := Examples.failing 4 "Action: browser.open()" "quota exceeded")
      (runtime := Stubs.engine) Stubs.emptyService None (Some "go")
      "session-1" = Some run /\
    AgentController.processInstruction
      (client := Examples.failing 4 "Action: browser.open()" "quota exceeded")
      (runtime := Stubs.engine) Stubs.emptyService None (Some "go")
      "session-1"
    = Some (service run,
            AgentController.JsonReply 500
              (AgentController.Failure "quota exceeded")) /\
    sessions (service run) !! "session-1"
    = Some (mkAgent
              (initialHistory Stubs.noTools "go" ++
               [mkMessage assistant "Action: browser.open()";
                observationMessage
                  ("Error: Tool " +:+ q +:+ "browser.open" +:+ q +:+
                   " not found. Available tools are: ")])
              "session-1").
Proof.
  eexists. split; [vm_compute; reflexivity|].
  match goal with
  | |- _ = Some (service ?run, _) /\ _ =>
      pose proof (failed_instruction_leaves_its_session
                    (client := Examples.failing 4 "Action: browser.open()"
                                 "quota exceeded")
                    (runtime := Stubs.engine) Stubs.emptyService None "go"
                    "session-1" run ltac:(discriminate)) as H
  end.
  by_computation H. destruct H as (_ & _ & H).
  specialize (H (initialHistory Stubs.noTools "go" ++
                 [mkMessage assistant "Action: browser.open()";
                  observationMessage
                    ("Error: Tool " +:+ q +:+ "browser.open" +:+ q +:+
                     " not found. Available tools are: ")])
                "quota exceeded").
  discharge H ltac:(vm_compute; do 2 right; left; reflexivity).
  by_computation H. destruct H as (Hreply & _ & _ & Hnew).
  split; [exact Hreply|]. apply Hnew. intros sid [=].
Defined.

(** X14.  The life of a session over HTTP.  Creating a session answers 200
    with the fresh id, and the session can be read at once, with an empty
    history.  Cleaning it up answers 200; afterwards reading it answers 500
    with [Session <id> not found], and cleaning it up again still answers
    200 and changes nothing.  No other session is touched. *)
Theorem session_lifecycle_over_http (svc : AgentService) (freshId : string) :
  freshId <> "" ->
  exists svc1 svc2,
    AgentController.createSession svc freshId
      = (svc1, AgentController.JsonReply 200
                 (AgentController.SessionCreated freshId)) /\
    AgentController.getSessionInfo svc1 (Some freshId)
      = AgentController.JsonReply 200
          (AgentController.SessionInformation freshId []) /\
    AgentController.cleanupSession svc1 (Some freshId)
      = (svc2, AgentController.JsonReply 200
                 (AgentController.SessionCleaned
                    ("Session " +:+ freshId +:+ " cleaned up"))) /\
    AgentController.getSessionInfo svc2 (Some freshId)
      = AgentController.JsonReply 500
          (AgentController.Failure
             ("Session " +:+ freshId +:+ " not found")) /\
    AgentController.cleanupSession svc2 (Some freshId)
      = (svc2, AgentController.JsonReply 200
                 (AgentController.SessionCleaned
                    ("Session " +:+ freshId +:+ " cleaned up"))) /\
    forall other, other <> freshId ->
      sessions svc1 !! other = sessions svc !! other /\
      sessions svc2 !! other = sessions svc !! other.
Proof.
  intros Hfresh. pose proof (truthy_Some _ Hfresh) as Ht.
  eexists _, _. split; [reflexivity|].
  unfold AgentController.getSessionInfo, AgentController.cleanupSession,
    AgentController.Service.getSessionInfo,
    AgentController.Service.cleanupSession.
  rewrite !Ht. cbn [negb default from_option id].
  cbn [createSession newAgent setSession ensureInitialized sessions sessionId
       toolRegistry initialized AgentController.Service.createSession
       AgentController.Service.ensureInitialized
       AgentController.Service.newAgent AgentController.Service.setSession
       AgentController.Service.sessions AgentController.Service.sessionId
       AgentController.Service.toolRegistry
       AgentController.Service.initialized
       AgentController.Service.messageHistory].
  rewrite lookup_insert_eq. split; [done|]. split; [reflexivity|].
  cbn [sessions toolRegistry initialized].
  rewrite lookup_delete_eq. split; [done|]. split.
  - by rewrite delete_delete_eq.
  - intros other Hother.
    rewrite lookup_delete_ne, !lookup_insert_ne by done. done.
Qed.

Lemma session_lifecycle_over_http_witness :
  exists svc1 svc2,
    AgentController.createSession Stubs.oneSession "session-2"
      = (svc1, AgentController.JsonReply 200
                 (AgentController.SessionCreated "session-2")) /\
    AgentController.getSessionInfo svc1 (Some "session-2")
      = AgentController.JsonReply 200
          (AgentController.SessionInformation "session-2" []) /\
    AgentController.cleanupSession svc1 (Some "session-2")
      = (svc2, AgentController.JsonReply 200
                 (AgentController.SessionCleaned
                    ("Session " +:+ "session-2" +:+ " cleaned up"))) /\
    AgentController.getSessionInfo svc2 (Some "session-2")
      = AgentController.JsonReply 500
          (AgentController.Failure
             ("Session " +:+ "session-2" +:+ " not found")) /\
    AgentController.cleanupSession svc2 (Some "session-2")
      = (svc2, AgentController.JsonReply 200
                 (AgentController.SessionCleaned
                    ("Session " +:+ "session-2" +:+ " cleaned up"))) /\
    forall other, other <> "session-2" ->
      sessions svc1 !! other = sessions Stubs.oneSession !! other /\
      sessions svc2 !! other = sessions Stubs.oneSession !! other.
Proof.
  apply (session_lifecycle_over_http Stubs.oneSession "session-2").
  discriminate.
Defined.

(** ** The provider in mock mode *)

(** X15.  The chunks of the mock stream are the mock completion cut after
    its line feeds: for every text the pieces concatenate to the text, a
    line feed is always the last character of its piece, and no piece of a
    non-empty text is empty.  So the fragments the agent collects from the
    mock stream are the text the mock completion gives for the same
    messages: the mock is a pair of stubs that agree. *)
Theorem mock_stream_is_the_mock_completion (s : chars)
    (messages : list Message) :
  concat (Fireworks.splitAfterLineFeed s) = s /\
  Forall (fun piece => forallb (isNot newline) (removelast piece) = true)
         (Fireworks.splitAfterLineFeed s) /\
  (s <> [] -> Forall (fun piece => piece <> []) (Fireworks.splitAfterLineFeed s)) /\
  concatStrings
    (chunkContents
       (fst (createChatCompletionStream (FireworksClient := Fireworks.mock)
               messages)))
  = Fireworks.generateMockCompletion messages /\
  consistentStubs (client := Fireworks.mock).
Proof.
  split; [apply concat_splitAfterLineFeed|].
  split; [apply splitAfterLineFeed_lines|].
  split; [apply splitAfterLineFeed_nonempty|].
  split; [apply mock_stream|].
  intros h. eexists _, _. split; [reflexivity|]. split; [reflexivity|].
  apply mock_stream.
Qed.



(** ** File signatures *)

Lemma prefix_lookup2 (x y : Byte.byte) buffer :
  [x; y] `prefix_of` buffer <-> buffer !! 0 = Some x /\ buffer !! 1 = Some y.
Proof.
  split.
  - intros [k ->]. done.
  - destruct buffer as [|a [|b buffer]]; intros [[= ->] H]; try done.
    injection H as ->. by exists buffer.
Qed.

Lemma prefix_lookup4 (x y z w : Byte.byte) buffer :
  [x; y; z; w] `prefix_of` buffer <->
  buffer !! 0 = Some x /\ buffer !! 1 = Some y /\
  buffer !! 2 = Some z /\ buffer !! 3 = Some w.
Proof.
  split.
  - intros [k ->]. done.
  - destruct buffer as [|a [|b [|c [|d buffer]]]];
      intros ([= ->] & H1 & H2 & H3); try done.
    injection H1 as ->. injection H2 as ->. injection H3 as ->.
    by exists buffer.
Qed.

(** X17.  [detectMimeType] classifies a buffer by its first bytes and by
    them alone: JPEG exactly when it starts with FF D8, PNG exactly when it
    starts with 89 50 4E 47, PDF exactly when it starts with 25 50 44 46,
    and [application/octet-stream] in every other case, among them every
    buffer too short to hold a signature. *)
Theorem detectMimeType_reads_the_signature (buffer : list Byte.byte) :
  (Fireworks.detectMimeType buffer = "image/jpeg" <->
   [Byte.xff; Byte.xd8] `prefix_of` buffer) /\
  (Fireworks.detectMimeType buffer = "image/png" <->
   [Byte.x89; Byte.x50; Byte.x4e; Byte.x47] `prefix_of` buffer) /\
  (Fireworks.detectMimeType buffer = "application/pdf" <->
   [Byte.x25; Byte.x50; Byte.x44; Byte.x46] `prefix_of` buffer) /\
  (Fireworks.detectMimeType buffer = "application/octet-stream" <->
   ~ [Byte.xff; Byte.xd8] `prefix_of` buffer /\
   ~ [Byte.x89; Byte.x50; Byte.x4e; Byte.x47] `prefix_of` buffer /\
   ~ [Byte.x25; Byte.x50; Byte.x44; Byte.x46] `prefix_of` buffer).
Proof.
  rewrite prefix_lookup2, !prefix_lookup4. unfold Fireworks.detectMimeType.
  destruct (Fireworks.byteIs buffer 0 Byte.xff) eqn:J0;
    destruct (Fireworks.byteIs buffer 1 Byte.xd8) eqn:J1;
    destruct (Fireworks.byteIs buffer 0 Byte.x89) eqn:P0;
    destruct (Fireworks.byteIs buffer 1 Byte.x50) eqn:P1;
    destruct (Fireworks.byteIs buffer 2 Byte.x4e) eqn:P2;
    destruct (Fireworks.byteIs buffer 3 Byte.x47) eqn:P3;
    destruct (Fireworks.byteIs buffer 0 Byte.x25) eqn:D0;
    destruct (Fireworks.byteIs buffer 2 Byte.x44) eqn:D2;
    destruct (Fireworks.byteIs buffer 3 Byte.x46) eqn:D3;
    cbn [andb];
    repeat match goal with
    | H : Fireworks.byteIs _ _ _ = true |- _ => apply byteIs_lookup in H
    | H : Fireworks.byteIs _ _ _ = false |- _ =>
        apply not_true_iff_false in H; rewrite byteIs_lookup in H
    end;
    try congruence;
    repeat split; intros; try done; try tauto; try congruence;
    repeat match goal with H : _ /\ _ |- _ => destruct H end; congruence.
Qed.

(** ** The document tools, reached through the agent *)

Section Documents.

Import Fireworks DocumentInliner.

Context {runtime : Runtime}.
Variable complete : list Message -> Outcome (list string).
Variable external : ExternalTools.

(** A parameter of a tool call is never a buffer, so its reference does not
    depend on the encoder. *)
Lemma prepareDocumentInlining_argument base64 base64' params name :
  prepareDocumentInlining base64 (argument params name)
  = prepareDocumentInlining base64' (argument params name).
Proof. unfold argument. by destruct (params !! name). Qed.

Lemma documentAnalyze_encoder base64 base64' params :
  documentAnalyze base64 complete params
  = documentAnalyze base64' complete params.
Proof.
  unfold documentAnalyze, analyzeDocument.
  by rewrite (prepareDocumentInlining_argument base64 base64').
Qed.

Lemma documentAnalyzeMultiple_fails base64 params :
  documentAnalyzeMultiple base64 complete params
  = Raised "At least one document is required for multi-document analysis".
Proof.
  unfold documentAnalyzeMultiple, analyzeMultipleDocuments, argument.
  by destruct (params !! "documents").
Qed.

Lemma documentCompare_encoder base64 base64' params :
  documentCompare base64 complete params
  = documentCompare base64' complete params.
Proof.
  unfold documentCompare, compareDocuments.
  rewrite (prepareDocumentInlining_argument base64 base64' params "documentA").
  by rewrite (prepareDocumentInlining_argument base64 base64' params "documentB").
Qed.

(** Registries with the same names and the same behaviour of each tool are
    the same to [executeToolCall]. *)
Lemma getProperty_ext (registry registry' : ToolRegistry) name :
  Forall2 (fun entry entry' =>
             fst entry = fst entry' /\
             forall params, call (snd entry) params = call (snd entry') params)
          registry registry' ->
  match getProperty registry name, getProperty registry' name with
  | Some tool, Some tool' => forall params, tool params = tool' params
  | None, None => True
  | _, _ => False
  end.
Proof.
  unfold getProperty.
  induction 1 as [|[n t] [n' t'] l l' [Hn Hcall] _ IH].
  - cbn [assoc]. by destruct (assoc name objectPrototype).
  - simpl in Hn. subst n'. cbn [assoc].
    by destruct (String.eqb n name).
Qed.

Lemma executeToolCall_ext (registry registry' : ToolRegistry) toolCall :
  Forall2 (fun entry entry' =>
             fst entry = fst entry' /\
             forall params, call (snd entry) params = call (snd entry') params)
          registry registry' ->
  executeToolCall registry toolCall = executeToolCall registry' toolCall.
Proof.
  intros H. unfold executeToolCall.
  assert (Hnames : map fst registry = map fst registry').
  { induction H as [|[n t] [n' t'] l l' [Hn _] _ IH]; [done|].
    simpl in *. by rewrite Hn, IH. }
  pose proof (getProperty_ext _ _ (toolName toolCall) H) as Hp.
  destruct (getProperty registry (toolName toolCall)),
    (getProperty registry' (toolName toolCall)); try done.
  - by rewrite Hp.
  - by rewrite Hnames.
Qed.

End Documents.

(** X18.  The tool [document.analyzeMultiple] cannot succeed when the agent
    calls it.  The parameters of a parsed action are strings, the operation
    behind the tool accepts an array only, so whatever the action wrote the
    tool is invoked once and the observation is the recovered error [At
    least one document is required for multi-document analysis]. *)
Theorem analyzeMultiple_tool_never_succeeds {runtime : Runtime}
    (base64 : list Byte.byte -> string)
    (complete : list Message -> Outcome (list string))
    (external : DocumentInliner.ExternalTools)
    (ps : gmap string string) :
  executeToolCall
    (DocumentInliner.initializeToolRegistry base64 complete external)
    (mkToolCall "document.analyzeMultiple" ps)
  = ([ToolInvoked "document.analyzeMultiple" ps],
     Ok ("Error executing tool document.analyzeMultiple: " +:+
         "At least one document is required for multi-document analysis")).
Proof.
  unfold executeToolCall, getProperty,
    DocumentInliner.initializeToolRegistry.
  cbn [assoc String.eqb Ascii.eqb Bool.eqb toolName params call].
  by rewrite documentAnalyzeMultiple_fails.
Qed.

(** X19.  Through the agent no document tool inlines file contents.  What
    [executeToolCall] does with the registry of the service is the same for
    any two [base64] encoders, whatever the tool call: the buffer branch of
    [prepareDocumentInlining] is never reached from a parsed action, whose
    parameters are strings. *)
Theorem agent_never_inlines_a_buffer {runtime : Runtime}
    (base64 base64' : list Byte.byte -> string)
    (complete : list Message -> Outcome (list string))
    (external : DocumentInliner.ExternalTools) (toolCall : ToolCall) :
  executeToolCall
    (DocumentInliner.initializeToolRegistry base64 complete external) toolCall
  = executeToolCall
      (DocumentInliner.initializeToolRegistry base64' complete external)
      toolCall.
Proof.
  apply executeToolCall_ext.
  unfold DocumentInliner.initializeToolRegistry.
  repeat (constructor; [split; [reflexivity|]; intros ps; cbn [snd call];
                        first [reflexivity
                              | apply documentAnalyze_encoder
                              | by rewrite !documentAnalyzeMultiple_fails
                              | apply documentCompare_encoder]|]).
  constructor.
Qed.

(** ** The client of the event stream *)

Section Decoding.

Import AgentAPI.

Variable stringify : StreamEvent -> string.
Variable parse : string -> option StreamEvent.

Lemma str_frame ev rest :
  str (AgentController.frame stringify ev +:+ rest)
  = (str "data: " ++ str (stringify ev)) ++ newline :: newline :: str rest.
Proof.
  unfold AgentController.frame. rewrite !str_app.
  by rewrite <- !app_assoc.
Qed.

Lemma received_frames evs :
  Forall (decodable stringify parse) evs ->
  received StreamEvent parse
    (concatStrings (map (AgentController.frame stringify) evs)) = evs.
Proof.
  unfold received. induction 1 as [|ev evs [Hparse Hline] _ IH]; [done|].
  cbn [map concatStrings fold_right].
  change (fold_right String.append "" ?l) with (concatStrings l).
  rewrite str_frame, split_piece.
  - cbn [omap list_omap]. rewrite IH.
    change (startsWith (str "data: ") (str "data: " ++ str (stringify ev)))
      with true.
    change (drop 6 (str "data: " ++ str (stringify ev)))
      with (str (stringify ev)).
    cbv iota. by rewrite text_str, Hparse.
  - by rewrite forallb_app, Hline.
Qed.

End Decoding.

(** X20.  The browser client recovers the events the streaming handler
    writes.  When every read of the response holds whole frames, and the
    serialisation of each event has no line feed and parses back to the
    event, the client hands to [onMessage] exactly the events written, in
    order: the frame format of the handler and the splitting of the client
    fit together. *)
Theorem client_receives_what_the_handler_writes
    (stringify : StreamEvent -> string) (parse : string -> option StreamEvent)
    (reads : list (list StreamEvent)) :
  Forall (Forall (decodable stringify parse)) reads ->
  AgentAPI.processInstructionStream StreamEvent parse
    (map (fun evs => concatStrings (map (AgentController.frame stringify) evs))
         reads)
  = concat reads.
Proof.
  unfold AgentAPI.processInstructionStream.
  induction 1 as [|evs reads Hevs _ IH]; [done|].
  cbn [map concat]. by rewrite received_frames, IH.
Qed.

Lemma client_receives_what_the_handler_writes_witness :
  AgentAPI.processInstructionStream StreamEvent Examples.parse
    (map (fun evs =>
            concatStrings (map (AgentController.frame Examples.stringify) evs))
         [[EvAssistant "Answer: done"]; [EvComplete "Answer: done"]])
  = concat [[EvAssistant "Answer: done"]; [EvComplete "Answer: done"]].
Proof.
  apply (client_receives_what_the_handler_writes Examples.stringify
           Examples.parse
           [[EvAssistant "Answer: done"]; [EvComplete "Answer: done"]]).
  repeat constructor.
Defined.

(** ** The fragments of a stream and the messages it records *)

Section Fragments.

Context {client : FireworksClient} {runtime : Runtime}.
Variable registry : ToolRegistry.

Lemma concatStrings_app l1 l2 :
  concatStrings (l1 ++ l2) = concatStrings l1 +:+ concatStrings l2.
Proof.
  induction l1 as [|a l1 IH]; [done|].
  cbn [app concatStrings fold_right].
  change (fold_right String.append "" ?l) with (concatStrings l).
  by rewrite IH, append_assoc.
Qed.

Lemma fragments_app es1 es2 :
  fragments (es1 ++ es2) = fragments es1 ++ fragments es2.
Proof. apply omap_app. Qed.

Lemma fragments_streamed h chunks :
  fragments (streamed h chunks) = chunkContents chunks.
Proof.
  unfold streamed, fragments. cbn [omap list_omap].
  induction (chunkContents chunks) as [|c cs IH]; [done|].
  cbn [map omap list_omap]. by f_equal.
Qed.

Lemma fragments_invoked toolCall invoked outcome :
  executeToolCall registry toolCall = (invoked, outcome) ->
  fragments invoked = [].
Proof.
  unfold executeToolCall.
  destruct (getProperty registry (toolName toolCall)); by intros [= <- _].
Qed.

Lemma assistantTexts_app h1 h2 :
  assistantTexts (h1 ++ h2) = assistantTexts h1 ++ assistantTexts h2.
Proof. unfold assistantTexts. by rewrite List.filter_app, map_app. Qed.

Lemma stream_fragments maxTurns turns h r :
  StreamRun registry maxTurns turns h r ->
  settled r = Ok tt ->
  exists later, history r = h ++ later /\
    concatStrings (fragments (effects r)) = concatStrings (assistantTexts later).
Proof.
  intros Hrun.
  induction Hrun as [turns h G | turns h chunks e G Hs
                 | turns h chunks tc invoked obs r G Hs Htc Hexec Hr IH
                 | turns h chunks tc invoked ex r G Hs Htc Hexec Hr IH
                 | turns h chunks G Hs Htc]; intros Hok.
  - exists []. rewrite app_nil_r. split; [done|].
    cbn [afterStreamLoop effects]. by destruct (maxTurns <=? turns).
  - done.
  - destruct (IH Hok) as (later & Eh & Ef).
    eexists (_ :: _ :: later). split.
    + cbn [before history]. rewrite Eh. by rewrite <- !app_assoc.
    + cbn [before effects]. rewrite !fragments_app, fragments_streamed.
      rewrite (fragments_invoked _ _ _ Hexec).
      cbn [fragments omap list_omap app]. rewrite app_nil_r.
      change (omap _ (effects r)) with (fragments (effects r)).
      rewrite concatStrings_app, Ef.
      change (assistantTexts (?a :: ?b :: later))
        with (assistantTexts ([a] ++ [b] ++ later)).
      rewrite !assistantTexts_app, !concatStrings_app.
      cbn. by rewrite append_nil_r.
  - destruct (IH Hok) as (later & Eh & Ef).
    eexists (_ :: _ :: later). split.
    + cbn [before history]. rewrite Eh. by rewrite <- !app_assoc.
    + cbn [before effects]. rewrite !fragments_app, fragments_streamed.
      rewrite (fragments_invoked _ _ _ Hexec).
      cbn [fragments omap list_omap app]. rewrite app_nil_r.
      change (omap _ (effects r)) with (fragments (effects r)).
      rewrite concatStrings_app, Ef.
      change (assistantTexts (?a :: ?b :: later))
        with (assistantTexts ([a] ++ [b] ++ later)).
      rewrite !assistantTexts_app, !concatStrings_app.
      cbn. by rewrite append_nil_r.
  - eexists [_]. split; [done|].
    cbn [before effects afterStreamLoop].
    rewrite !fragments_app, fragments_streamed.
    destruct (maxTurns <=? S turns); cbn; by rewrite !app_nil_r, ?append_nil_r.
Qed.

End Fragments.

(** X21.  Joining, in order, every text fragment a stream yielded gives the
    joined contents of the assistant messages the run added to the
    conversation, when the run ends without an exception: what the consumer
    saw as fragments is what the history keeps as the assistant's words. *)
Theorem fragments_rebuild_the_assistant_messages
    {client : FireworksClient} {runtime : Runtime} (registry : ToolRegistry)
    (h0 : list Message) (instruction : string) (r : Run unit) :
  instruction <> "" ->
  ACP.processInstructionStream registry h0 (Some instruction) = Some r ->
  settled r = Ok tt ->
  exists later,
    history r = initialHistory registry instruction ++ later /\
    concatStrings (fragments (effects r))
    = concatStrings (assistantTexts later).
Proof.
  intros Hi Hr Hok.
  apply processInstructionStream_run in Hr; [|done].
  by eapply stream_fragments.
Qed.

Lemma fragments_rebuild_the_assistant_messages_witness :
  exists r,
    ACP.processInstructionStream
      (client := Stubs.scripted 4 "Action: browser.open()" "Answer: done")
      (runtime := Stubs.engine) Stubs.twoTools [] (Some "open it") = Some r /\
    exists later,
      history r = initialHistory Stubs.twoTools "open it" ++ later /\
      concatStrings (fragments (effects r))
      = concatStrings (assistantTexts later).
Proof.
  eexists. split; [vm_compute; reflexivity|].
  match goal with
  | |- exists later, history ?r = _ /\ _ =>
      pose proof (fragments_rebuild_the_assistant_messages
                    (client := Stubs.scripted 4 "Action: browser.open()"
                                 "Answer: done")
                    (runtime := Stubs.engine) Stubs.twoTools [] "open it" r
                    ltac:(discriminate)) as H
  end.
  do 2 by_computation H. exact H.
Defined.

(** ** The turn budget, the state after a turn, the events of a tool call *)







(** X25.  A tool that rejects with [null] or [undefined] is not recovered
    by [executeToolCall]: the call is made once and the operation throws
    the [TypeError] of reading [message].  The buffered loop then aborts
    with that error, the assistant text being the last message recorded;
    the generator catches it, records it as an observation, yields an
    [error] event in place of the [observation] event and goes on with the
    next turn. *)
Theorem rejected_tool_aborts_the_buffered_loop_only
    {client : FireworksClient} {runtime : Runtime} (registry : ToolRegistry)
    (name : string) (tool : Tool) (ps : gmap string string)
    (reason : Nullish) :
  assoc name registry = Some tool ->
  call tool ps = Rejected reason ->
  let e := cannotReadMessage reason in
  let errorMsg := "Error executing tool " +:+ name +:+ ": " +:+ e in
  executeToolCall registry (mkToolCall name ps)
    = ([ToolInvoked name ps], Throw e) /\
  (forall fuel maxTurns turns finalResponse h t,
     truthy finalResponse = false -> turns < maxTurns ->
     createChatCompletion h = Ok t ->
     parseToolCall t = Some (mkToolCall name ps) ->
     conversationLoop registry (S fuel) maxTurns turns finalResponse h
     = Some (mkRun [ModelCalled h; ToolInvoked name ps]
                   (h ++ [mkMessage assistant t]) (Throw e))) /\
  (forall fuel maxTurns turns h chunks,
     turns < maxTurns ->
     maxTurns - S turns <= fuel ->
     createChatCompletionStream h = (chunks, None) ->
     parseToolCall (concatStrings (chunkContents chunks))
       = Some (mkToolCall name ps) ->
     let h2 := (h ++ [mkMessage assistant
                        (concatStrings (chunkContents chunks))]) ++
               [mkMessage user ("Observation: " +:+ errorMsg)] in
     exists next,
       streamLoop registry fuel maxTurns (S turns) h2 = Some next /\
       streamLoop registry (S fuel) maxTurns turns h
         = Some (before (streamed h chunks ++
                         [Yielded (EvToolCall name ps); ToolInvoked name ps;
                          Yielded (EvError errorMsg); TurnCompleted h2])
                        next)).
Proof.
  intros Hreg Hcall e errorMsg.
  assert (Hexec : executeToolCall registry (mkToolCall name ps)
                  = ([ToolInvoked name ps], Throw e)).
  { unfold executeToolCall, getProperty. cbn [toolName params].
    by rewrite Hreg, Hcall. }
  split; [exact Hexec|]. split.
  - intros fuel maxTurns turns fr h t Hfr Hlt Ht Htc.
    cbn [conversationLoop]. rewrite Hfr.
    destruct (Nat.ltb_spec turns maxTurns); [|lia].
    cbn [negb andb]. by rewrite Ht, Htc, Hexec.
  - intros fuel maxTurns turns h chunks Hlt Hfuel Hs Htc h2.
    destruct (streamLoop_total registry fuel maxTurns (S turns) h2 Hfuel)
      as [next Hnext].
    exists next. split; [exact Hnext|].
    cbn [streamLoop].
    destruct (Nat.ltb_spec turns maxTurns); [|lia].
    rewrite Hs, Htc, Hexec. cbn [toolName params].
    subst h2 errorMsg. unfold observationMessage. rewrite Hnext.
    cbn [fmap option_fmap option_map].
    do 2 f_equal. by rewrite <- app_assoc.
Qed.

Lemma rejected_tool_aborts_the_buffered_loop_only_witness :
  executeToolCall (runtime := Stubs.engine) Examples.crashing
    (mkToolCall "browser.close" ∅)
  = ([ToolInvoked "browser.close" ∅],
     Throw "Cannot read properties of null (reading 'message')") /\
  conversationLoop (client := Stubs.always "Action: browser.close()")
    (runtime := Stubs.engine) Examples.crashing 15 15 0 None
    (initialHistory Examples.crashing "go")
  = Some (mkRun [ModelCalled (initialHistory Examples.crashing "go");
                 ToolInvoked "browser.close" ∅]
                (initialHistory Examples.crashing "go" ++
                 [mkMessage assistant "Action: browser.close()"])
                (Throw "Cannot read properties of null (reading 'message')")) /\
  exists next,
    streamLoop (client := Stubs.always "Action: browser.close()")
      (runtime := Stubs.engine) Examples.crashing 15 15 0
      (initialHistory Examples.crashing "go")
    = Some (before
              [ModelCalled (initialHistory Examples.crashing "go");
               Yielded (EvAssistant "Action: browser.close()");
               Yielded (EvToolCall "browser.close" ∅);
               ToolInvoked "browser.close" ∅;
               Yielded
                 (EvError
                    ("Error executing tool browser.close: " +:+
                     "Cannot read properties of null (reading 'message')"));
               TurnCompleted
                 ((initialHistory Examples.crashing "go" ++
                   [mkMessage assistant "Action: browser.close()"]) ++
                  [mkMessage user
                     ("Observation: Error executing tool browser.close: " +:+
                      "Cannot read properties of null (reading 'message')")])]
              next).
Proof.
  pose proof (rejected_tool_aborts_the_buffered_loop_only
                (client := Stubs.always "Action: browser.close()")
                (runtime := Stubs.engine) Examples.crashing "browser.close"
                (mkTool "" (fun _ => Rejected JSNull)) ∅ JSNull
                eq_refl eq_refl) as (Hexec & Hb & Hs).
  split; [exact Hexec|]. split.
  - apply (Hb 14 15 0 None (initialHistory Examples.crashing "go")
              "Action: browser.close()");
      [reflexivity | lia | reflexivity | vm_compute; reflexivity].
  - destruct (Hs 14 15 0 (initialHistory Examples.crashing "go")
                 [Some "Action: browser.close()"])
      as (next & _ & Hrun);
      [lia | lia | reflexivity | vm_compute; reflexivity |].
    exists next. exact Hrun.
Defined.
